(** * The Telegram backend of kutana: a shallow embedding and its properties

    Source: [src/kutana/backends/telegram.py] (class [Telegram]) and
    [src/kutana/backend.py] (class [Backend]).

    The development has four layers.
    - [Py]: the Python values the backend handles (decoded JSON and keyword
      arguments), the exceptions it can see, and the builtins it calls.
    - the canonical event model ([Attachment], [Update]), which lives in
      [kutana/update.py];
    - the effect layer: the adapter object, the trace of what the adapter does
      to the outside, and a state / exception monad over both;
    - the methods of [Telegram], one definition per method, and the theorems.

    Conventions.  A [str] is a [string]; one character of the model stands
    for one code point, and case mapping and printability are those of ASCII
    (other characters are left as they are).  An [int] is a [Z]; JSON numbers
    with a fraction are not modelled.  A [dict] is an association list in
    insertion order whose keys are distinct. *)

From Stdlib Require Import ZArith QArith String Ascii List DecimalString.
From stdpp Require Import base option strings numbers gmap list.

Set Warnings "-register-all".

Open Scope string_scope.
Open Scope list_scope.
Open Scope Z_scope.

(* ================================================================== *)
(** * Python values, exceptions and builtins                           *)
(* ================================================================== *)

Module Py.

(** What [json.loads] can produce, which is also what a caller passes as
    text, target id or keyword argument. *)
Inductive pyval :=
| PNone
| PBool (b : bool)
| PInt (z : Z)
| PStr (s : string)
| PList (l : list pyval)
| PDict (kvs : list (string * pyval)).

Abbreviation dict := (list (string * pyval)).

Inductive exn :=
| KeyError (key : string)
| TypeError
| AttributeError
| IndexError
| ValueError (msg : string)
| ZeroDivisionError
| JSONDecodeError
| ClientError
| RequestException (method : string) (kwargs : dict) (data : pyval)
| OtherError (name : string)
| CancelledError
| KeyboardInterrupt
| SystemExit.

(** [isinstance(e, Exception)].  [asyncio.CancelledError] derives from
    [BaseException] only (Python 3.8 and later), like the two exit signals. *)
Definition is_Exception (e : exn) : bool :=
  match e with
  | CancelledError | KeyboardInterrupt | SystemExit => false
  | _ => true
  end.

(** [isinstance(e, (json.JSONDecodeError, aiohttp.ClientError))]. *)
Definition is_decode_or_transport (e : exn) : bool :=
  match e with
  | JSONDecodeError | ClientError => true
  | _ => false
  end.

(** The result of evaluating an expression or awaiting a coroutine: a
    value, an exception, or [Wait] when the task is parked on a lock that
    another task holds (what happens after that is not modelled). *)
Inductive outcome (A : Type) :=
| Ret (a : A)
| Raise (e : exn)
| Wait.
Arguments Ret {A} a.
Arguments Raise {A} e.
Arguments Wait {A}.

Definition obind {A B} (o : outcome A) (k : A -> outcome B) : outcome B :=
  match o with
  | Ret a => k a
  | Raise e => Raise e
  | Wait => Wait
  end.

(** ** Truth value, [int] view *)

Definition truthy (v : pyval) : bool :=
  match v with
  | PNone => false
  | PBool b => b
  | PInt z => negb (z =? 0)
  | PStr s => negb (String.eqb s EmptyString)
  | PList l => match l with [] => false | _ => true end
  | PDict kvs => match kvs with [] => false | _ => true end
  end.

(** [bool] is a subclass of [int]. *)
Definition as_int (v : pyval) : option Z :=
  match v with
  | PInt z => Some z
  | PBool b => Some (if b then 1 else 0)
  | _ => None
  end.

Definition is_none (v : pyval) : bool :=
  match v with PNone => true | _ => false end.

(** ** Dictionaries *)

Fixpoint dict_lookup (k : string) (d : dict) : option pyval :=
  match d with
  | [] => None
  | (k', v) :: d' => if String.eqb k k' then Some v else dict_lookup k d'
  end.

Definition dict_has (k : string) (d : dict) : bool :=
  match dict_lookup k d with Some _ => true | None => false end.

(** [d[k] = v]: an existing key keeps its place, a new one goes last. *)
Fixpoint dict_set (k : string) (v : pyval) (d : dict) : dict :=
  match d with
  | [] => [(k, v)]
  | (k', v') :: d' =>
      if String.eqb k k' then (k, v) :: d' else (k', v') :: dict_set k v d'
  end.

(** A dict display [{k1: v1, ..., **rest}] is built left to right. *)
Definition dict_of (items : list (string * pyval)) : dict :=
  fold_left (fun d kv => dict_set kv.1 kv.2 d) items [].

(** ** Subscription, [.get], [in], iteration *)

(** [v[k]] with a [str] key. *)
Definition py_getitem (v : pyval) (k : string) : outcome pyval :=
  match v with
  | PDict d => match dict_lookup k d with
               | Some x => Ret x
               | None => Raise (KeyError k)
               end
  | _ => Raise TypeError
  end.

(** [v.get(k, dflt)]. *)
Definition py_get (v : pyval) (k : string) (dflt : pyval) : outcome pyval :=
  match v with
  | PDict d => Ret (default dflt (dict_lookup k d))
  | _ => Raise AttributeError
  end.

Fixpoint is_substring (needle hay : string) : bool :=
  String.prefix needle hay
  || match hay with
     | EmptyString => false
     | String _ hay' => is_substring needle hay'
     end.

(** [k in v] with a [str] on the left. *)
Definition py_contains (k : string) (v : pyval) : outcome bool :=
  match v with
  | PDict d => Ret (dict_has k d)
  | PList l => Ret (existsb (fun x => match x with
                                      | PStr s => String.eqb s k
                                      | _ => false
                                      end) l)
  | PStr s => Ret (is_substring k s)
  | _ => Raise TypeError
  end.

(** [iter(v)]: a list gives its items, a dict its keys, a str its characters. *)
Definition py_iter (v : pyval) : outcome (list pyval) :=
  match v with
  | PList l => Ret l
  | PDict d => Ret (map (fun kv => PStr kv.1) d)
  | PStr s => Ret (map (fun c => PStr (String c EmptyString)) (list_ascii_of_string s))
  | _ => Raise TypeError
  end.

(** ** Arithmetic and comparison *)

(** [a + b]: numbers add, strings and lists concatenate. *)
Definition py_add (a b : pyval) : outcome pyval :=
  match as_int a, as_int b with
  | Some x, Some y => Ret (PInt (x + y))
  | _, _ =>
      match a, b with
      | PStr s, PStr t => Ret (PStr (s +:+ t))
      | PList l, PList m => Ret (PList (l ++ m))
      | _, _ => Raise TypeError
      end
  end.

(** [a < b] as [sorted] uses it on keys: numbers among themselves, strings
    among themselves (by code point).  Keys that are lists are not modelled. *)
Definition py_lt (a b : pyval) : outcome bool :=
  match as_int a, as_int b with
  | Some x, Some y => Ret (x <? y)
  | _, _ =>
      match a, b with
      | PStr s, PStr t => Ret (String.ltb s t)
      | _, _ => Raise TypeError
      end
  end.

(** [a == s] for a [str] literal on the right. *)
Definition eq_str (a : pyval) (s : string) : bool :=
  match a with
  | PStr t => String.eqb t s
  | _ => false
  end.

(** ** [sorted(items, key=...)]

    The keys are computed first, left to right; the sort is stable and
    compares keys with [<] only.  Insertion from the right gives the same
    result, and raises exactly when some comparison would. *)

Fixpoint mapM {A B} (f : A -> outcome B) (l : list A) : outcome (list B) :=
  match l with
  | [] => Ret []
  | x :: l' => obind (f x) (fun y => obind (mapM f l') (fun ys => Ret (y :: ys)))
  end.

Fixpoint insert_by_key (kx : pyval * pyval) (l : list (pyval * pyval))
  : outcome (list (pyval * pyval)) :=
  match l with
  | [] => Ret [kx]
  | ky :: l' =>
      obind (py_lt ky.1 kx.1) (fun smaller =>
        if smaller
        then obind (insert_by_key kx l') (fun r => Ret (ky :: r))
        else Ret (kx :: ky :: l'))
  end.

Fixpoint sort_by_key (l : list (pyval * pyval)) : outcome (list (pyval * pyval)) :=
  match l with
  | [] => Ret []
  | kx :: l' => obind (sort_by_key l') (insert_by_key kx)
  end.

Definition py_sorted (key : pyval -> outcome pyval) (items : list pyval)
  : outcome (list pyval) :=
  obind (mapM (fun x => obind (key x) (fun k => Ret (k, x))) items) (fun keyed =>
  obind (sort_by_key keyed) (fun r => Ret (map snd r))).

(** [l[-1]]. *)
Definition py_last (l : list pyval) : outcome pyval :=
  match list.last l with
  | Some x => Ret x
  | None => Raise IndexError
  end.

(** ** Strings *)

Definition quote : ascii := "034"%char.
Definition apostrophe : ascii := "039"%char.
Definition backslash : ascii := "092"%char.

Definition str1 (c : ascii) : string := String c EmptyString.

Definition z_str (z : Z) : string := NilZero.string_of_int (Z.to_int z).

Definition hex_digit (n : N) : ascii :=
  nth (N.to_nat n) (list_ascii_of_string "0123456789abcdef") "0"%char.

Definition has_char (c : ascii) (s : string) : bool :=
  existsb (Ascii.eqb c) (list_ascii_of_string s).

(** One character of [repr(s)] between quotes [q]. *)
Definition repr_char (q c : ascii) : string :=
  let n := N_of_ascii c in
  if Ascii.eqb c q || Ascii.eqb c backslash then String backslash (str1 c)
  else if (n =? 9)%N then String backslash "t"
  else if (n =? 10)%N then String backslash "n"
  else if (n =? 13)%N then String backslash "r"
  else if (n <? 32)%N || (n =? 127)%N
       then String backslash (String "x" (String (hex_digit (n / 16)) (str1 (hex_digit (n mod 16)))))
  else str1 c.

Definition repr_str (s : string) : string :=
  let q := if has_char apostrophe s && negb (has_char quote s) then quote else apostrophe in
  String q (String.concat EmptyString (map (repr_char q) (list_ascii_of_string s)) +:+ str1 q).

Fixpoint py_repr (v : pyval) : string :=
  match v with
  | PNone => "None"
  | PBool true => "True"
  | PBool false => "False"
  | PInt z => z_str z
  | PStr s => repr_str s
  | PList l => "[" +:+ String.concat ", " (map py_repr l) +:+ "]"
  | PDict kvs =>
      "{" +:+ String.concat ", "
                (map (fun '(k, x) => repr_str k +:+ ": " +:+ py_repr x) kvs) +:+ "}"
  end.

(** [str(v)], which is also what an f-string field [{v}] inserts. *)
Definition py_str (v : pyval) : string :=
  match v with
  | PStr s => s
  | _ => py_repr v
  end.

Definition upper_char (c : ascii) : ascii :=
  let n := N_of_ascii c in
  if (97 <=? n)%N && (n <=? 122)%N then ascii_of_N (n - 32) else c.

Definition lower_char (c : ascii) : ascii :=
  let n := N_of_ascii c in
  if (65 <=? n)%N && (n <=? 90)%N then ascii_of_N (n + 32) else c.

(** [s.capitalize()]: first character upper case, the rest lower case. *)
Definition capitalize (s : string) : string :=
  match s with
  | EmptyString => EmptyString
  | String c s' => String (upper_char c) (string_of_list_ascii (map lower_char (list_ascii_of_string s')))
  end.

Definition endswith (s suffix : string) : bool :=
  let n := String.length s in
  let k := String.length suffix in
  (k <=? n)%nat && String.eqb (substring (n - k) k s) suffix.

(** [v.endswith(suffix)]. *)
Definition py_endswith (v : pyval) (suffix : string) : outcome bool :=
  match v with
  | PStr s => Ret (endswith s suffix)
  | _ => Raise AttributeError
  end.

(** ** Slicing with step 1 *)

(** A bound of a slice, brought into [0 .. len] the way CPython does. *)
Definition clamp (len i : Z) : Z :=
  if i <? 0 then Z.max 0 (i + len) else Z.min i len.

Definition slice_index (v : pyval) : outcome (option Z) :=
  match v with
  | PNone => Ret None
  | _ => match as_int v with
         | Some z => Ret (Some z)
         | None => Raise TypeError
         end
  end.

(** [v[start:stop]]; [PNone] stands for an omitted bound. *)
Definition py_slice (v start stop : pyval) : outcome pyval :=
  obind (slice_index start) (fun a =>
  obind (slice_index stop) (fun b =>
    match v with
    | PStr s =>
        let len := Z.of_nat (String.length s) in
        let lo := clamp len (default 0 a) in
        let hi := clamp len (default len b) in
        Ret (PStr (substring (Z.to_nat lo) (Z.to_nat (hi - lo)) s))
    | PList l =>
        let len := Z.of_nat (List.length l) in
        let lo := clamp len (default 0 a) in
        let hi := clamp len (default len b) in
        Ret (PList (take (Z.to_nat (hi - lo)) (drop (Z.to_nat lo) l)))
    | _ => Raise TypeError
    end)).

End Py.
Export Py.

Notation "x <~ c ; k" := (obind c (fun x => k))
  (at level 20, c at level 100, k at level 200, only parsing).
Notation "' pat <~ c ; k" := (obind c (fun x => match x with pat => k end))
  (at level 20, pat pattern, c at level 100, k at level 200, only parsing).

(** [for x in items: acc = step(acc, x)], stopping at the first exception. *)
Fixpoint foldM {A B} (step : A -> B -> outcome A) (l : list B) (acc : A) : outcome A :=
  match l with
  | [] => Ret acc
  | x :: l' => acc' <~ step acc x ; foldM step l' acc'
  end.

(* ================================================================== *)
(** * The canonical event model ([kutana/update.py])                   *)
(* ================================================================== *)

(** Modelled from the spec: the enumerations and the classes [Update] and
    [Message] of [kutana/update.py] are not under [src/].  [UpdateType]
    tells a generic update from a message, [ReceiverType] a one-to-one chat
    ([SOLO]) from a group or channel ([MULTI]). *)
Inductive UpdateType := UPD | MSG.
Inductive ReceiverType := SOLO | MULTI.

Module Attachment.

(** The fields the backend reads and writes.  [getter] holds the file id the
    deferred fetcher was made for ([_make_getter] closes over it and does
    nothing until it is called); [file] is the content of an attachment that
    is still to be uploaded. *)
Record t := Build {
  id : pyval;
  type : string;
  title : pyval;
  file_name : pyval;
  getter : option pyval;
  raw : pyval;
  file : pyval;
  uploaded : bool;
}.

(** Modelled from the spec: the class [Attachment] of [kutana/update.py] is
    not under [src/].  An attachment is either existing (known to the
    provider: it carries an id, a type, a title, a file name and a deferred
    fetcher) or new (content still to be uploaded); [_existing_full] builds
    an existing one from the six values [_make_attachment] passes. *)
Definition _existing_full (id : pyval) (type : string) (title file_name : pyval)
    (getter : option pyval) (raw : pyval) : t :=
  {| id := id; type := type; title := title; file_name := file_name;
     getter := getter; raw := raw; file := PNone; uploaded := true |}.

End Attachment.

(** Modelled from the spec: an update is an envelope with the raw payload,
    a kind and metadata; a message adds the text, the attachments in order,
    sender, receiver, receiver kind and date.  The constructors take their
    arguments as the calls [Update(raw, type, meta)] and
    [Message(raw=..., type=..., ...)] of [_make_update] give them. *)
Inductive update :=
| Update (raw : pyval) (type : UpdateType) (meta : dict)
| Message (raw : pyval) (type : UpdateType) (text : pyval)
    (attachments : list Attachment.t) (sender_id receiver_id : pyval)
    (receiver_type : ReceiverType) (date : pyval) (meta : dict).

(* ================================================================== *)
(** * Normalisation of raw updates (pure part of [Telegram])           *)
(* ================================================================== *)

Definition SUPPORTED_ATTACHMENT_TYPES : list string :=
  ["audio"; "document"; "photo"; "sticker"; "video"; "voice"].

Definition ATTACHMENT_TYPE_ALIASES : gmap string string :=
  {[ "doc" := "document"; "image" := "photo" ]}.

(** [_make_getter(file_id)]: only the closure is built here. *)
Definition _make_getter (file_id : pyval) : option pyval := Some file_id.

Definition _make_attachment (raw_attachment : pyval) (raw_attachment_type : string)
  : outcome Attachment.t :=
  let t := raw_attachment_type in
  let d := raw_attachment in
  has_id <~ py_contains "file_id" d ;
  id <~ (if has_id then py_getitem d "file_id" else Ret PNone) ;
  if String.eqb t "photo" then
    items <~ py_iter d ;
    sorted <~ py_sorted (fun p => py_getitem p "width") items ;
    photo <~ py_last sorted ;
    id <~ py_getitem photo "file_id" ;
    Ret (Attachment._existing_full id "image" (PStr EmptyString) id (_make_getter id) d)
  else if String.eqb t "audio" then
    performer <~ py_get d "performer" (PStr EmptyString) ;
    left <~ py_add performer (PStr " - ") ;
    track <~ py_get d "title" (PStr EmptyString) ;
    title <~ py_add left track ;
    Ret (Attachment._existing_full id "audio" title id (_make_getter id) d)
  else if String.eqb t "document" then
    file_name <~ py_get d "file_name" (PStr EmptyString) ;
    Ret (Attachment._existing_full id "doc" (PStr EmptyString) file_name (_make_getter id) d)
  else if String.eqb t "sticker" then
    Ret (Attachment._existing_full id "sticker" (PStr EmptyString) id (_make_getter id) d)
  else if String.eqb t "voice" then
    Ret (Attachment._existing_full id "voice" (PStr EmptyString) id (_make_getter id) d)
  else if String.eqb t "video" then
    Ret (Attachment._existing_full id "video" (PStr EmptyString) id (_make_getter id) d)
  else
    Ret (Attachment._existing_full PNone t PNone PNone None d).

(** The body of the loop of [_extract_text] for one entity; the accumulator
    is [(final_text, last_index, meta)]. *)
Definition scrub_entity (username text : pyval) (acc : pyval * pyval * dict)
    (entity : pyval) : outcome (pyval * pyval * dict) :=
  let '(final_text, last_index, meta) := acc in
  ty <~ py_getitem entity "type" ;
  if eq_str ty "bot_command" then
    off <~ py_getitem entity "offset" ;
    len <~ py_getitem entity "length" ;
    new_last_index <~ py_add off len ;
    command <~ py_slice text last_index new_last_index ;
    let mention := "@" +:+ py_str username in
    mentioned <~ py_endswith command mention ;
    if mentioned then
      cut <~ py_slice command PNone (PInt (- Z.of_nat (String.length mention))) ;
      final_text <~ py_add final_text cut ;
      Ret (final_text, new_last_index, dict_set "bot_mentioned" (PBool true) meta)
    else
      final_text <~ py_add final_text command ;
      Ret (final_text, new_last_index, meta)
  else Ret acc.

(** [self._extract_text(update)]; of [self] only [username] is read.  The
    default [()] of [entities] is the empty sequence. *)
Definition _extract_text (username : pyval) (update : pyval) : outcome (pyval * dict) :=
  message <~ py_getitem update "message" ;
  entities <~ py_get message "entities" (PList []) ;
  if negb (truthy entities) then
    text <~ py_get message "text" (PStr EmptyString) ;
    Ret (text, [])
  else
    text <~ py_get message "text" (PStr EmptyString) ;
    items <~ py_iter entities ;
    sorted <~ py_sorted (fun entity => py_getitem entity "offset") items ;
    '(final_text, last_index, meta) <~
       foldM (scrub_entity username text) sorted (PStr EmptyString, PInt 0, []) ;
    rest <~ py_slice text last_index PNone ;
    out <~ py_add final_text rest ;
    Ret (out, meta).

Definition possible_types : list string :=
  ["audio"; "voice"; "photo"; "video"; "document"; "sticker";
   "animation"; "video_note"; "contact"; "location"; "venue";
   "poll"; "invoice"].

(** One turn of the loop over [possible_types]. *)
Definition collect_attachment (raw_update : pyval) (attachments : list Attachment.t)
    (key : string) : outcome (list Attachment.t) :=
  message <~ py_getitem raw_update "message" ;
  present <~ py_contains key message ;
  if present then
    d <~ py_getitem message key ;
    a <~ _make_attachment d key ;
    Ret (attachments ++ [a])
  else Ret attachments.

(** [self._make_update(raw_update)]; of [self] only [username] is read. *)
Definition _make_update (username : pyval) (raw_update : pyval) : outcome update :=
  is_message <~ py_contains "message" raw_update ;
  if negb is_message then Ret (Update raw_update UPD []) else
  attachments <~ foldM (collect_attachment raw_update) possible_types [] ;
  message <~ py_getitem raw_update "message" ;
  chat <~ py_getitem message "chat" ;
  chat_type <~ py_getitem chat "type" ;
  '(receiver_type, text, meta) <~
     (if eq_str chat_type "private" then
        text <~ py_get message "text" (PStr EmptyString) ;
        Ret (SOLO, text, [])
      else
        '(text, meta) <~ _extract_text username raw_update ;
        Ret (MULTI, text, meta)) ;
  sender <~ py_getitem message "from" ;
  sender_id <~ py_getitem sender "id" ;
  receiver_id <~ py_getitem chat "id" ;
  date <~ py_getitem message "date" ;
  Ret (Message raw_update MSG text attachments sender_id receiver_id
         receiver_type date meta).

(* ================================================================== *)
(** * The adapter object and its effects                               *)
(* ================================================================== *)

(** The attributes of a [Telegram] instance that the methods below read or
    write.  [session] tells whether [self.session] holds a client session;
    [api_messages_lock] is [None] until [on_start] creates the lock, then
    [Some held].  The proxy and the two URL templates are only handed to the
    HTTP client and are part of the transport ([net] below). *)
Record Telegram := {
  offset : pyval;
  session : bool;
  _is_session_local : bool;
  username : pyval;
  api_token : string;
  api_messages_pause : Q;
  api_messages_lock : option bool;
}.

Definition set_offset (v : pyval) (t : Telegram) : Telegram :=
  {| offset := v; session := session t; _is_session_local := _is_session_local t;
     username := username t; api_token := api_token t;
     api_messages_pause := api_messages_pause t;
     api_messages_lock := api_messages_lock t |}.

Definition set_session (b : bool) (t : Telegram) : Telegram :=
  {| offset := offset t; session := b; _is_session_local := _is_session_local t;
     username := username t; api_token := api_token t;
     api_messages_pause := api_messages_pause t;
     api_messages_lock := api_messages_lock t |}.

Definition set_username (v : pyval) (t : Telegram) : Telegram :=
  {| offset := offset t; session := session t; _is_session_local := _is_session_local t;
     username := v; api_token := api_token t;
     api_messages_pause := api_messages_pause t;
     api_messages_lock := api_messages_lock t |}.

Definition set_lock (l : option bool) (t : Telegram) : Telegram :=
  {| offset := offset t; session := session t; _is_session_local := _is_session_local t;
     username := username t; api_token := api_token t;
     api_messages_pause := api_messages_pause t;
     api_messages_lock := l |}.

Inductive loglevel := DEBUG | INFO | EXCEPTION.

(** What the adapter does to the outside, in the order it does it.
    [EvPost method data] is one outbound provider call: the
    [session.post] of [_request], with the method name and the form data. *)
Inductive event :=
| EvPost (method : string) (data : dict)
| EvSleep (delay : Q)
| EvSubmit (u : update)
| EvLog (level : loglevel) (msg : string)
| EvAcquire
| EvRelease.

(** The outside.  Each answer may depend on everything that happened before.
    - [net h method data]: what lines 62-65 of [_request] give for a call,
      from formatting the URL to decoding the body: the decoded envelope, or
      the exception raised on the way;
    - [sink h u]: what awaiting [submit_update(u)] gives;
    - [nap h delay]: what awaiting [asyncio.sleep(delay)] gives (a pause can
      be cancelled). *)
Record world := {
  net : list event -> string -> dict -> outcome pyval;
  sink : list event -> update -> outcome unit;
  nap : list event -> Q -> outcome unit;
}.

Record machine := {
  self : Telegram;
  history : list event;
}.

Definition M (A : Type) : Type := machine -> outcome A * machine.

Definition ret {A} (a : A) : M A := fun m => (Ret a, m).

Definition raise {A} (e : exn) : M A := fun m => (Raise e, m).

Definition bind {A B} (c : M A) (k : A -> M B) : M B := fun m =>
  match c m with
  | (Ret a, m') => k a m'
  | (Raise e, m') => (Raise e, m')
  | (Wait, m') => (Wait, m')
  end.

Notation "x <- c ; k" := (bind c (fun x => k))
  (at level 20, c at level 100, k at level 200, only parsing).

(** An expression without effects, evaluated in the current state. *)
Definition lift {A} (o : outcome A) : M A := fun m => (o, m).

Definition gets {A} (f : Telegram -> A) : M A := fun m => (Ret (f (self m)), m).

Definition modify (f : Telegram -> Telegram) : M unit := fun m =>
  (Ret tt, {| self := f (self m); history := history m |}).

Definition emit (ev : event) : M unit := fun m =>
  (Ret tt, {| self := self m; history := history m ++ [ev] |}).

(** [try: c  except ...: h(e)].  A mutation made before the exception stays. *)
Definition try_except {A} (c : M A) (h : exn -> M A) : M A := fun m =>
  match c m with
  | (Raise e, m') => h e m'
  | r => r
  end.

(** [for x in items: body(x)]. *)
Fixpoint for_each {A} (body : A -> M unit) (items : list A) : M unit :=
  match items with
  | [] => ret tt
  | x :: items' => _ <- body x ; for_each body items'
  end.

(** [[await body(x) for x in items]], the results in order. *)
Fixpoint collect {A B} (body : A -> M B) (items : list A) : M (list B) :=
  match items with
  | [] => ret []
  | x :: items' => r <- body x ; rs <- collect body items' ; ret (r :: rs)
  end.

Definition logger (level : loglevel) (msg : string) : M unit :=
  emit (EvLog level msg).

(** [{k: v for k, v in d.items() if v is not None}]. *)
Definition without_none (d : dict) : dict :=
  List.filter (fun kv => negb (is_none kv.2)) d.

(** The machine once the lock is taken, and once it is given back. *)
Definition acquire (m : machine) : machine :=
  {| self := set_lock (Some true) (self m); history := history m ++ [EvAcquire] |}.

Definition release (m : machine) : machine :=
  {| self := set_lock (Some false) (self m); history := history m ++ [EvRelease] |}.

Section Backend.

Variable w : world.

Definition post (method : string) (data : dict) : M pyval := fun m =>
  (net w (history m) method data,
   {| self := self m; history := history m ++ [EvPost method data] |}).

Definition sleep (delay : Q) : M unit := fun m =>
  (nap w (history m) delay,
   {| self := self m; history := history m ++ [EvSleep delay] |}).

Definition submit_update (u : update) : M unit := fun m =>
  (sink w (history m) u,
   {| self := self m; history := history m ++ [EvSubmit u] |}).

(** [async with self.api_messages_lock: body].  Entering [None] raises
    ([AttributeError] up to Python 3.10, [TypeError] from 3.11); a free lock
    is taken at once; the lock is released however [body] ends. *)
Definition async_with_lock {A} (body : M A) : M A := fun m =>
  match api_messages_lock (self m) with
  | None => (Raise AttributeError, m)
  | Some true => (Wait, m)
  | Some false =>
      match body (acquire m) with
      | (Wait, m2) => (Wait, m2)
      | (r, m2) => (r, release m2)
      end
  end.

Definition _request (method : string) (kwargs : dict) : M pyval :=
  has_session <- gets session ;
  _ <- (if negb has_session then modify (set_session true) else ret tt) ;
  let data := without_none kwargs in
  resp <- post method data ;
  ok <- lift (py_get resp "ok" PNone) ;
  if negb (truthy ok) then raise (RequestException method kwargs resp) else
  res <- lift (py_getitem resp "result") ;
  _ <- logger DEBUG "Telegram: %s(%s) => %s" ;
  ret res.

(** The body of the loop of [acquire_updates]. *)
Definition deliver (update : pyval) : M unit :=
  name <- gets username ;
  u <- lift (_make_update name update) ;
  _ <- submit_update u ;
  uid <- lift (py_getitem update "update_id") ;
  next <- lift (py_add uid (PInt 1)) ;
  modify (set_offset next).

(** [acquire_updates(submit_update)].  The [try] gives [None] where the
    source returns from inside a handler. *)
Definition acquire_updates : M unit :=
  cursor <- gets offset ;
  response <-
    try_except
      (r <- _request "getUpdates" (dict_of [("timeout", PInt 25); ("offset", cursor)]) ;
       ret (Some r))
      (fun e =>
         if is_decode_or_transport e then ret None
         else match e with
              | CancelledError => raise e
              | _ =>
                  if is_Exception e then
                    _ <- logger EXCEPTION "Exceptions while gettings updates (Telegram)" ;
                    _ <- sleep 1 ;
                    ret None
                  else raise e
              end) ;
  match response with
  | None => ret tt
  | Some response =>
      items <- lift (py_iter response) ;
      for_each deliver items
  end.

(** What a caller can pass as [attachments], or put in the sequence it
    passes: a plain value (an id, a path, ...) or an [Attachment]. *)
Inductive pyobj :=
| OVal (v : pyval)
| OAttachment (a : Attachment.t).

(** The [attachments] argument: one object, or a list or tuple of objects. *)
Inductive attachments_arg :=
| One (o : pyobj)
| Many (l : list pyobj).

(** Lines 262-265: an [int], [str] or [Attachment] is wrapped in a
    one-element tuple; anything else is iterated. *)
Definition attachment_items (attachments : attachments_arg) : outcome (list pyobj) :=
  match attachments with
  | One (OAttachment a) => Ret [OAttachment a]
  | One (OVal v) =>
      match v with
      | PInt _ | PBool _ | PStr _ => Ret [OVal v]
      | _ => l <~ py_iter v ; Ret (map OVal l)
      end
  | Many l => Ret l
  end.

(** Modelled from the spec: [pick_by] of [kutana/helpers.py] is not under
    [src/].  Every call site filters out the parameters whose value is
    absent, so that they are omitted rather than sent as null. *)
Definition pick_by (d : dict) : dict := without_none d.

Definition resolve_alias (type : string) : string :=
  default type (ATTACHMENT_TYPE_ALIASES !! type).

Definition send_method_of (attachment_type : string) : string :=
  "send" +:+ capitalize attachment_type.

Definition is_supported (attachment_type : string) : bool :=
  bool_decide (attachment_type ∈ SUPPORTED_ATTACHMENT_TYPES).

(** The body of the loop over the attachments (lines 266-296). *)
Definition send_attachment (chat_id : string) (attachment : pyobj) : M pyval :=
  match attachment with
  | OVal v =>
      raise (ValueError ("Unexpected attachment: " +:+ str1 quote +:+ py_str v +:+ str1 quote))
  | OAttachment a =>
      let attachment_type := resolve_alias (Attachment.type a) in
      let send_method := send_method_of attachment_type in
      if Attachment.uploaded a then
        r <- _request send_method
               (pick_by (dict_of [("chat_id", PStr chat_id);
                                  (attachment_type, PStr (py_str (Attachment.id a)));
                                  ("caption", Attachment.title a)])) ;
        pause <- gets api_messages_pause ;
        _ <- sleep pause ;
        ret r
      else if negb (is_supported attachment_type) then
        raise (ValueError ("Can't upload attachment '" +:+ attachment_type +:+ "'"))
      else
        r <- _request send_method
               (pick_by (dict_of [("chat_id", PStr chat_id);
                                  (attachment_type, Attachment.file a);
                                  ("caption", Attachment.title a)])) ;
        pause <- gets api_messages_pause ;
        _ <- sleep pause ;
        ret r
  end.

(** Lines 253-260: the text, when there is one. *)
Definition send_text (chat_id : string) (message : pyval) (kwargs : dict)
  : M (list pyval) :=
  if truthy message then
    r <- _request "sendMessage"
           (dict_of ([("chat_id", PStr chat_id); ("text", message)] ++ kwargs)) ;
    pause <- gets api_messages_pause ;
    _ <- sleep pause ;
    ret [r]
  else ret [].

(** Lines 253-298: what [execute_send] does while it holds the lock. *)
Definition send_under_lock (chat_id : string) (message : pyval)
    (attachments : attachments_arg) (kwargs : dict) : M (list pyval) :=
  sent <- send_text chat_id message kwargs ;
  items <- lift (attachment_items attachments) ;
  more <- collect (send_attachment chat_id) items ;
  ret (sent ++ more).

Definition execute_send (target_id message : pyval) (attachments : attachments_arg)
    (kwargs : dict) : M (list pyval) :=
  let chat_id := py_str target_id in
  async_with_lock (send_under_lock chat_id message attachments kwargs).

Definition execute_request (method : string) (kwargs : dict) : M pyval :=
  _request method kwargs.

(** The format of the login line, line 310; the name is quoted in it. *)
Definition login_format : string :=
  "logged in as " +:+ str1 quote +:+ "%s" +:+ str1 quote +:+ " ( https://t.me/%s )".

(** [on_start(app)].  The display name is only logged; what can raise while
    it is built is kept. *)
Definition on_start : M unit :=
  me <- _request "getMe" [] ;
  first_name <- lift (py_get me "first_name" (PStr EmptyString)) ;
  left <- lift (py_add first_name (PStr " ")) ;
  last_name <- lift (py_get me "last_name" (PStr EmptyString)) ;
  _ <- lift (py_add left last_name) ;
  _ <- lift (py_getitem me "username") ;
  _ <- logger INFO login_format ;
  name <- lift (py_getitem me "username") ;
  _ <- modify (set_username name) ;
  modify (set_lock (Some false)).

(** [send_message] and [request], the public wrappers. *)
Definition send_message (target_id message : pyval) (attachments : attachments_arg)
    (kwargs : dict) : M (list pyval) :=
  execute_send target_id message attachments kwargs.

Definition request (method : string) (kwargs : dict) : M pyval :=
  _request method kwargs.

End Backend.

(** [Telegram(token, messages_per_second, session, **kwargs)].  [Backend]
    has no [__init__], so any extra keyword reaches [object.__init__] and is
    refused; an empty token is refused; the pause is [1 / messages_per_second]
    (a float in the source, an exact fraction here). *)
Definition __init__ (token : string) (messages_per_second : Q) (session : bool)
    (kwargs : dict) : outcome Telegram :=
  match kwargs with
  | _ :: _ => Raise TypeError
  | [] =>
      if String.eqb token EmptyString then Raise (ValueError "No `token` specified")
      else if Qeq_bool messages_per_second 0 then Raise ZeroDivisionError
      else Ret {| offset := PInt 0;
                  session := session;
                  _is_session_local := negb session;
                  username := PNone;
                  api_token := token;
                  api_messages_pause := 1 / messages_per_second;
                  api_messages_lock := None |}
  end.

(** The events of a kind in a trace. *)
Definition posts (h : list event) : list (string * dict) :=
  omap (fun ev => match ev with EvPost m d => Some (m, d) | _ => None end) h.

Definition submitted (h : list event) : list update :=
  omap (fun ev => match ev with EvSubmit u => Some u | _ => None end) h.

(** ** Vocabulary of the statements *)

(** The provider accepts a call: the decoded envelope has a true [ok] and a
    [result]. *)
Definition accepted (o : outcome pyval) : Prop :=
  exists env ok res,
    o = Ret env /\ py_get env "ok" PNone = Ret ok /\ truthy ok = true
    /\ py_getitem env "result" = Ret res.

(** The adapter after lines 57-58 of [_request]. *)
Definition ensure_session (t : Telegram) : Telegram :=
  if session t then t else set_session true t.

Definition debug_line : event := EvLog DEBUG "Telegram: %s(%s) => %s".

(** What one paced call leaves in the trace: the call, its debug line, the
    pause. *)
Definition paced_call (pause : Q) (call : string * dict) : list event :=
  [EvPost call.1 call.2; debug_line; EvSleep pause].

(** An attachment [execute_send] can send: known to the provider, or of a
    type that can be uploaded. *)
Definition sendable (a : Attachment.t) : bool :=
  Attachment.uploaded a || is_supported (resolve_alias (Attachment.type a)).

(** An [attachments] argument that lines 262-263 wrap. *)
Definition is_scalar (o : pyobj) : bool :=
  match o with
  | OAttachment _ => true
  | OVal (PInt _) | OVal (PBool _) | OVal (PStr _) => true
  | OVal _ => false
  end.

(** The adapter between its construction and the end of a successful
    [on_start]: whatever else the runtime has called meanwhile. *)
Inductive before_start (w : world) : machine -> Prop :=
| bs_init token messages_per_second session t :
    __init__ token messages_per_second session [] = Ret t ->
    before_start w {| self := t; history := [] |}
| bs_acquire m :
    before_start w m -> before_start w (acquire_updates w m).2
| bs_request m method kwargs :
    before_start w m -> before_start w (execute_request w method kwargs m).2
| bs_send m target_id message attachments kwargs :
    before_start w m ->
    before_start w (execute_send w target_id message attachments kwargs m).2
| bs_start_failed m :
    before_start w m -> (on_start w m).1 <> Ret tt ->
    before_start w (on_start w m).2.

Definition text_of (u : update) : option pyval :=
  match u with
  | Update _ _ _ => None
  | Message _ _ text _ _ _ _ _ _ => Some text
  end.

Definition meta_of (u : update) : dict :=
  match u with
  | Update _ _ meta => meta
  | Message _ _ _ _ _ _ _ _ meta => meta
  end.

Definition attachments_of (u : update) : list Attachment.t :=
  match u with
  | Update _ _ _ => []
  | Message _ _ _ attachments _ _ _ _ _ => attachments
  end.

(** [meta.get("bot_mentioned")] is [True]. *)
Definition bot_mentioned (u : update) : bool :=
  match dict_lookup "bot_mentioned" (meta_of u) with
  | Some v => truthy v
  | None => false
  end.

(** ** Inputs and measures used in the statements *)

(** A raw message update whose text starts with one [bot_command] entity of
    the given length, the shape Telegram sends for [/command@name rest]. *)
Definition command_update (chat_type text : string) (length : Z)
    (update_id chat_id sender_id date : pyval) : pyval :=
  PDict [("update_id", update_id);
         ("message",
          PDict [("text", PStr text);
                 ("entities",
                  PList [PDict [("type", PStr "bot_command");
                                ("offset", PInt 0);
                                ("length", PInt length)]]);
                 ("chat", PDict [("id", chat_id); ("type", PStr chat_type)]);
                 ("from", PDict [("id", sender_id)]);
                 ("date", date)])].

(** The width and the file id of one size variant of a photo. *)
Definition width_of (v : pyval) : option Z :=
  match v with
  | PDict d => dict_lookup "width" d ≫= as_int
  | _ => None
  end.

Definition file_id_of (v : pyval) : option pyval :=
  match v with
  | PDict d => dict_lookup "file_id" d
  | _ => None
  end.

Definition width_z (v : pyval) : Z := default 0 (width_of v).

(** A [PhotoSize] object: a dict with an integer [width] and a [file_id]. *)
Definition size_variant (v : pyval) : bool :=
  match width_of v, file_id_of v with
  | Some _, Some _ => true
  | _, _ => false
  end.

Definition int_keyed (kx : pyval * pyval) : Prop := is_Some (as_int kx.1).

Definition zkey (kx : pyval * pyval) : Z := default 0 (as_int kx.1).

Definition max_last (r : list (pyval * pyval)) : Prop :=
  match list.last r with
  | Some b => forall x, x ∈ r -> zkey x <= zkey b
  | None => r = []
  end.

(** The key [sorted] computes for a size variant. *)
Definition width_key (v : pyval) : pyval :=
  match v with
  | PDict d => default PNone (dict_lookup "width" d)
  | _ => PNone
  end.

(** Three size variants of one photo, widths 90, 320 and 800. *)
Definition three_sizes : list pyval :=
  [PDict [("file_id", PStr "id-90"); ("width", PInt 90); ("height", PInt 67)];
   PDict [("file_id", PStr "id-320"); ("width", PInt 320); ("height", PInt 240)];
   PDict [("file_id", PStr "id-800"); ("width", PInt 800); ("height", PInt 600)]].

Definition photo_update : pyval :=
  PDict [("update_id", PInt 10);
         ("message",
          PDict [("photo", PList three_sizes);
                 ("chat", PDict [("id", PInt 5); ("type", PStr "private")]);
                 ("from", PDict [("id", PInt 7)]);
                 ("date", PInt 1000)])].

(** The same attachment declared with another type. *)
Definition with_type (type : string) (a : Attachment.t) : Attachment.t :=
  {| Attachment.id := Attachment.id a;
     Attachment.type := type;
     Attachment.title := Attachment.title a;
     Attachment.file_name := Attachment.file_name a;
     Attachment.getter := Attachment.getter a;
     Attachment.raw := Attachment.raw a;
     Attachment.file := Attachment.file a;
     Attachment.uploaded := Attachment.uploaded a |}.

(** A computation that leaves the pacing gate as it found it. *)
Definition lock_stable {A} (c : M A) : Prop :=
  forall m r m', c m = (r, m') ->
                 api_messages_lock (self m') = api_messages_lock (self m).

(** The [getUpdates] parameters of one polling iteration. *)
Definition poll_params (m : machine) : dict :=
  dict_of [("timeout", PInt 25); ("offset", offset (self m))].

Definition exception_line : event :=
  EvLog EXCEPTION "Exceptions while gettings updates (Telegram)".

(** [on_start] either completes and leaves a free lock, or fails and leaves
    the gate as it was. *)
Definition starts_lock (c : M unit) : Prop :=
  forall m r m', c m = (r, m') ->
    (r = Ret tt /\ api_messages_lock (self m') = Some false)
    \/ (r <> Ret tt /\ api_messages_lock (self m') = api_messages_lock (self m)).

(** ** Adapters and worlds to run the methods on *)

(** [Telegram("token")], and the same adapter after a successful
    [on_start] as the bot "mybot". *)
Definition new_adapter : Telegram :=
  {| offset := PInt 0; session := false; _is_session_local := true;
     username := PNone; api_token := "token"; api_messages_pause := 1 / 29;
     api_messages_lock := None |}.

Definition started_adapter : Telegram :=
  {| offset := PInt 0; session := true; _is_session_local := true;
     username := PStr "mybot"; api_token := "token"; api_messages_pause := 1 / 29;
     api_messages_lock := Some false |}.

Definition boot (t : Telegram) : machine := {| self := t; history := [] |}.

Definition ok_envelope (result : pyval) : pyval :=
  PDict [("ok", PBool true); ("result", result)].

(** Three raw updates that are not messages, ids 10, 11 and 12. *)
Definition raw_event (id : Z) : pyval :=
  PDict [("update_id", PInt id); ("callback_query", PDict [("id", PStr "q")])].

Definition three_updates : pyval := PList [raw_event 10; raw_event 11; raw_event 12].

(** A provider that answers [getUpdates] with the three updates and any
    other call with a small object, a sink that takes everything but its
    delivery number [refused] (counted from 0) and pauses that complete. *)
Definition polling_world (refused : option nat) : world :=
  {| net := fun _ method _ =>
       if String.eqb method "getUpdates" then Ret (ok_envelope three_updates)
       else Ret (ok_envelope (PDict [("username", PStr "mybot")]));
     sink := fun h _ =>
       if bool_decide (refused = Some (List.length (submitted h)))
       then Raise CancelledError else Ret tt;
     nap := fun _ _ => Ret tt |}.

(** A provider every call to which ends with the exception [e]. *)
Definition failing_world (e : exn) : world :=
  {| net := fun _ _ _ => Raise e;
     sink := fun _ _ => Ret tt;
     nap := fun _ _ => Ret tt |}.

(** The machine after the [getUpdates] call of [polling_world] has been
    answered, and the event a raw event normalises to. *)
Definition polled : machine :=
  {| self := set_session true new_adapter;
     history := [EvPost "getUpdates" (poll_params (boot new_adapter)); debug_line] |}.

Definition event_of (id : Z) : update := Update (raw_event id) UPD [].

(** The outbound method an attachment is sent with. *)
Definition method_of (a : Attachment.t) : string :=
  send_method_of (resolve_alias (Attachment.type a)).

(** The [sendMessage] call of [execute_send]. *)
Definition text_call (target_id message : pyval) (kwargs : dict) : string * dict :=
  ("sendMessage",
   without_none (dict_of ([("chat_id", PStr (py_str target_id)); ("text", message)]
                          ++ kwargs))).

Definition unsupported (a : Attachment.t) : exn :=
  ValueError ("Can't upload attachment '" +:+ resolve_alias (Attachment.type a) +:+ "'").

Definition unexpected (v : pyval) : exn :=
  ValueError ("Unexpected attachment: " +:+ str1 quote +:+ py_str v +:+ str1 quote).

(** An attachment still to be uploaded, and one the provider knows. *)
Definition new_attachment (type : string) : Attachment.t :=
  {| Attachment.id := PNone; Attachment.type := type; Attachment.title := PNone;
     Attachment.file_name := PStr "report.bin"; Attachment.getter := None;
     Attachment.raw := PNone; Attachment.file := PStr "content";
     Attachment.uploaded := false |}.

Definition existing_attachment (type id : string) : Attachment.t :=
  {| Attachment.id := PStr id; Attachment.type := type; Attachment.title := PStr "caption";
     Attachment.file_name := PStr id; Attachment.getter := Some (PStr id);
     Attachment.raw := PNone; Attachment.file := PNone;
     Attachment.uploaded := true |}.


(* ================================================================== *)
(** * The rest of the adapter                                          *)
(* ================================================================== *)

(** ** What a computation does to the trace and to the adapter *)

(** [emits P c]: [c] only ever adds events to the trace, and every event it
    adds satisfies [P]. *)
Definition emits (P : event -> Prop) {A} (c : M A) : Prop :=
  forall m r m', c m = (r, m') ->
    exists tail, history m' = history m ++ tail /\ Forall P tail.

(** [keeps proj c]: [c] leaves the attribute [proj] of the adapter as it
    found it. *)
Definition keeps {B} (proj : Telegram -> B) {A} (c : M A) : Prop :=
  forall m r m', c m = (r, m') -> proj (self m') = proj (self m).

(** No parameter of a provider call is [None]. *)
Definition no_null (ev : event) : Prop :=
  match ev with
  | EvPost _ data => Forall (fun kv => kv.2 <> PNone) data
  | _ => True
  end.

(** The event is not one of the pacing gate. *)
Definition off_gate (ev : event) : Prop :=
  ev <> EvAcquire /\ ev <> EvRelease.

(** The event is neither a delivery to the sink nor a poll. *)
Definition not_polling (ev : event) : Prop :=
  match ev with
  | EvSubmit _ => False
  | EvPost method _ => method <> "getUpdates"
  | _ => True
  end.

(** Every machine the runtime can bring the adapter [t0] to by calling its
    methods, starting with an empty trace. *)
Inductive reachable (w : world) (t0 : Telegram) : machine -> Prop :=
| rc_boot : reachable w t0 (boot t0)
| rc_start m : reachable w t0 m -> reachable w t0 (on_start w m).2
| rc_acquire m : reachable w t0 m -> reachable w t0 (acquire_updates w m).2
| rc_request m method kwargs :
    reachable w t0 m -> reachable w t0 (execute_request w method kwargs m).2
| rc_send m target_id message attachments kwargs :
    reachable w t0 m ->
    reachable w t0 (execute_send w target_id message attachments kwargs m).2.

(** The same machine with another value in [api_messages_lock]. *)
Definition relock (l : option bool) (m : machine) : machine :=
  {| self := set_lock l (self m); history := history m |}.

(** [gate_blind c]: [c] runs the same way whatever the state of the pacing
    gate, and leaves the gate as it is. *)
Definition gate_blind {A} (c : M A) : Prop :=
  forall l m, c (relock l m) = ((c m).1, relock l (c m).2).

(** [on_shutdown(app)].  Its one effect is to await [self.session.close()];
    the result tells whether it does.  With no session object
    ([self.session] still [None]) the attribute lookup raises. *)
Inductive shutdown_action := CloseSession | LeaveSession.

Definition on_shutdown (t : Telegram) : outcome shutdown_action :=
  if _is_session_local t then
    if session t then Ret CloseSession else Raise AttributeError
  else Ret LeaveSession.

(** A provider that refuses every call with the envelope [env]. *)
Definition refusing_world (env : pyval) : world :=
  {| net := fun _ _ _ => Ret env;
     sink := fun _ _ => Ret tt;
     nap := fun _ _ => Ret tt |}.

Definition unauthorized : pyval :=
  PDict [("ok", PBool false); ("error_code", PInt 401);
         ("description", PStr "Unauthorized")].

(** What a batch of raw updates must satisfy for each to be delivered: it
    normalises to the event and carries the integer id given with it. *)
Definition deliverable (name : pyval) (item : pyval * update * Z) : Prop :=
  _make_update name item.1.1 = Ret item.1.2
  /\ py_getitem item.1.1 "update_id" = Ret (PInt item.2).

(** The cursor after the items of a batch have been delivered. *)
Definition cursor_after (batch : list (pyval * update * Z)) (t : Telegram) : Telegram :=
  match list.last batch with
  | Some item => set_offset (PInt (item.2 + 1)) t
  | None => t
  end.

(** A group message whose sender is missing, as the provider sends for a
    message posted in the name of a channel. *)
Definition senderless_message (id : Z) : pyval :=
  PDict [("update_id", PInt id);
         ("message", PDict [("text", PStr "news");
                            ("chat", PDict [("id", PInt (-100)); ("type", PStr "channel")]);
                            ("date", PInt 1000)])].

(** A provider whose [getUpdates] answer is the list [batch]. *)
Definition batch_world (batch : list pyval) : world :=
  {| net := fun _ _ _ => Ret (ok_envelope (PList batch));
     sink := fun _ _ => Ret tt;
     nap := fun _ _ => Ret tt |}.

(** ** Entities and slices *)

(** The entities of a message as the provider sends them: each a dict with a
    [type], an integer [offset] not before the end of the one before it
    ([bound]) and a non-negative integer [length]. *)
Fixpoint spans_in_order (bound : Z) (entities : list pyval) : bool :=
  match entities with
  | [] => true
  | PDict d :: rest =>
      match dict_lookup "type" d, dict_lookup "offset" d, dict_lookup "length" d with
      | Some _, Some (PInt off), Some (PInt len) =>
          (bound <=? off) && (0 <=? len) && spans_in_order (off + len) rest
      | _, _, _ => false
      end
  | _ :: _ => false
  end.

(** The key [sorted] computes for an entity. *)
Definition offset_key (e : pyval) : pyval :=
  match e with
  | PDict d => default PNone (dict_lookup "offset" d)
  | _ => PNone
  end.

(** A non-negative slice bound as a position in [s]. *)
Definition str_index (s : string) (z : Z) : nat :=
  Z.to_nat (Z.min z (Z.of_nat (String.length s))).

(** A group message with a command that names no bot, followed by bold
    text. *)
Definition help_message : dict :=
  [("text", PStr "/help me please");
   ("entities",
    PList [PDict [("type", PStr "bot_command"); ("offset", PInt 0); ("length", PInt 5)];
           PDict [("type", PStr "bold"); ("offset", PInt 9); ("length", PInt 6)]]);
   ("chat", PDict [("id", PInt (-100)); ("type", PStr "group")]);
   ("from", PDict [("id", PInt 7)]);
   ("date", PInt 1000)].

(** A message in which a command inside the text names a bot. *)
Definition mention_message (pre cmd mention rest : string) : dict :=
  [("text", PStr (pre +:+ cmd +:+ mention +:+ rest));
   ("entities",
    PList [PDict [("type", PStr "bot_command");
                  ("offset", PInt (Z.of_nat (String.length pre)));
                  ("length", PInt (Z.of_nat (String.length cmd + String.length mention)))]])].

(** ** Attachments *)

(** The canonical type [_make_attachment] gives for a field of a message. *)
Definition canonical_type (key : string) : string :=
  if String.eqb key "photo" then "image"
  else if String.eqb key "document" then "doc"
  else key.

(** The variant [_make_attachment] keeps for a photo: one of greatest
    width, the later one when two are as wide. *)
Fixpoint widest (variants : list pyval) : option pyval :=
  match variants with
  | [] => None
  | v :: rest =>
      match widest rest with
      | None => Some v
      | Some best => if width_z best <? width_z v then Some v else Some best
      end
  end.

(** The same choice on the keyed items [sorted] works on. *)
Fixpoint greatest_key (l : list (pyval * pyval)) : option (pyval * pyval) :=
  match l with
  | [] => None
  | kx :: rest =>
      match greatest_key rest with
      | None => Some kx
      | Some best => if zkey best <? zkey kx then Some kx else Some best
      end
  end.

(** An animation as the provider sends it. *)
Definition animation_payload : pyval :=
  PDict [("file_id", PStr "CgAD"); ("file_name", PStr "cat.mp4"); ("duration", PInt 3)].

(** Two variants of the same width, 800, after a smaller one. *)
Definition tied_sizes : list pyval :=
  [PDict [("file_id", PStr "id-320"); ("width", PInt 320)];
   PDict [("file_id", PStr "id-800-a"); ("width", PInt 800)];
   PDict [("file_id", PStr "id-800-b"); ("width", PInt 800)]].

(** A message with a caption-less document and an audio track, the document
    listed first. *)
Definition document_and_audio : dict :=
  [("document", PDict [("file_id", PStr "BQAD"); ("file_name", PStr "notes.txt")]);
   ("audio", PDict [("file_id", PStr "CQAD"); ("performer", PStr "Band");
                    ("title", PStr "Song")]);
   ("chat", PDict [("id", PInt 5); ("type", PStr "private")]);
   ("from", PDict [("id", PInt 7)]);
   ("date", PInt 1000)].

(** What [on_start] reads from the answer to [getMe] (lines 304-315): the
    display name is put together first, then the username is taken. *)
Definition login_name (me : pyval) : outcome pyval :=
  first_name <~ py_get me "first_name" (PStr EmptyString) ;
  left <~ py_add first_name (PStr " ") ;
  last_name <~ py_get me "last_name" (PStr EmptyString) ;
  _ <~ py_add left last_name ;
  py_getitem me "username".

Definition login_line : event := EvLog INFO login_format.

(** A provider whose answer to every call is the accepted result [res]. *)
Definition answering_world (res : pyval) : world :=
  {| net := fun _ _ _ => Ret (ok_envelope res);
     sink := fun _ _ => Ret tt;
     nap := fun _ _ => Ret tt |}.

(** ** Files, contexts and addresses *)

(** [_request_file(file_id)], lines 76-82.  The GET of line 81 and the read
    of line 82 are the oracle [download]: from the trace so far and the value
    of [file["file_path"]] it gives the body, or the exception of the
    transport.  Putting the path into [file_url] is part of the oracle, and
    the GET is not entered in the trace. *)
Definition _request_file (w : world) (download : list event -> pyval -> outcome pyval)
    (file_id : pyval) : M pyval :=
  file <- _request w "getFile" (dict_of [("file_id", file_id)]) ;
  file_path <- lift (py_getitem file "file_path") ;
  fun m => (download (history m) file_path, m).

(** [await getter()] for the value [_make_getter] left in an attachment: the
    closure of lines 85-86 calls [_request_file] with the id it was made for;
    [None] cannot be called. *)
Definition run_getter (w : world) (download : list event -> pyval -> outcome pyval)
    (getter : option pyval) : M pyval :=
  match getter with
  | Some file_id => _request_file w download file_id
  | None => lift (Raise TypeError)
  end.

Definition type_of (u : update) : UpdateType :=
  match u with
  | Update _ type _ => type
  | Message _ type _ _ _ _ _ _ _ => type
  end.

Definition raw_of (u : update) : pyval :=
  match u with
  | Update raw _ _ => raw
  | Message raw _ _ _ _ _ _ _ _ => raw
  end.

Module Context.

(** Modelled from the spec: the class [Context] of [kutana/context.py] is
    not under [src/].  Of a context the backend reads the update and writes
    the default reply target and three keys, each made by the context's
    [get_key_for]. *)
Record t := Build {
  update : update;
  default_target_id : pyval;
  sender_key : pyval;
  receiver_key : pyval;
  sender_here_key : pyval;
}.

Definition set_default_target_id (v : pyval) (ctx : t) : t :=
  Build (update ctx) v (sender_key ctx) (receiver_key ctx) (sender_here_key ctx).

Definition set_sender_key (v : pyval) (ctx : t) : t :=
  Build (update ctx) (default_target_id ctx) v (receiver_key ctx) (sender_here_key ctx).

Definition set_receiver_key (v : pyval) (ctx : t) : t :=
  Build (update ctx) (default_target_id ctx) (sender_key ctx) v (sender_here_key ctx).

Definition set_sender_here_key (v : pyval) (ctx : t) : t :=
  Build (update ctx) (default_target_id ctx) (sender_key ctx) (receiver_key ctx) v.

End Context.

(** Lines 146-152: what [prepare_context] reads from the raw update before it
    writes anything; [None] when there is no callback query. *)
Definition callback_ids (raw : pyval) : outcome (option (pyval * pyval * pyval)) :=
  callback_query <~ py_get raw "callback_query" PNone ;
  if truthy callback_query then
    cq <~ py_getitem raw "callback_query" ;
    sender <~ py_getitem cq "from" ;
    sender_id <~ py_getitem sender "id" ;
    message <~ py_getitem cq "message" ;
    chat <~ py_getitem message "chat" ;
    receiver_id <~ py_getitem chat "id" ;
    message <~ py_getitem cq "message" ;
    chat <~ py_getitem message "chat" ;
    chat_type <~ py_getitem chat "type" ;
    Ret (Some (sender_id, receiver_id, chat_type))
  else Ret None.

(** [prepare_context(ctx)], lines 144-159.  [get_key_for sender receiver] is
    [ctx.get_key_for(sender_id=..., receiver_id=...)], an argument that is
    not given being [None]; the context is returned as the call leaves it,
    also when it raises. *)
Definition prepare_context (get_key_for : option pyval -> option pyval -> outcome pyval)
    (ctx : Context.t) : outcome unit * Context.t :=
  match type_of (Context.update ctx) with
  | MSG => (Ret tt, ctx)
  | UPD =>
      match callback_ids (raw_of (Context.update ctx)) with
      | Ret None => (Ret tt, ctx)
      | Raise e => (Raise e, ctx)
      | Wait => (Wait, ctx)
      | Ret (Some (sender_id, receiver_id, chat_type)) =>
          let ctx1 :=
            Context.set_default_target_id
              (if eq_str chat_type "private" then sender_id else receiver_id) ctx in
          match get_key_for (Some sender_id) None with
          | Raise e => (Raise e, ctx1)
          | Wait => (Wait, ctx1)
          | Ret k1 =>
              let ctx2 := Context.set_sender_key k1 ctx1 in
              match get_key_for None (Some receiver_id) with
              | Raise e => (Raise e, ctx2)
              | Wait => (Wait, ctx2)
              | Ret k2 =>
                  let ctx3 := Context.set_receiver_key k2 ctx2 in
                  match get_key_for (Some sender_id) (Some receiver_id) with
                  | Raise e => (Raise e, ctx3)
                  | Wait => (Wait, ctx3)
                  | Ret k3 => (Ret tt, Context.set_sender_here_key k3 ctx3)
                  end
              end
          end
      end
  end.

(** A callback query pressed by [sender_id] under a message of the chat
    [chat_id], and a [get_key_for] that names who it was asked about. *)
Definition callback_update (chat_type : string) (sender_id chat_id : Z) : update :=
  Update (PDict [("update_id", PInt 7);
                 ("callback_query",
                  PDict [("id", PStr "q");
                         ("from", PDict [("id", PInt sender_id)]);
                         ("message",
                          PDict [("chat", PDict [("id", PInt chat_id);
                                                 ("type", PStr chat_type)])])])])
    UPD [].

Definition key_of_ids (sender receiver : option pyval) : outcome pyval :=
  Ret (PList [default PNone sender; default PNone receiver]).

Definition blank_context (u : update) : Context.t :=
  Context.Build u PNone PNone PNone PNone.

(** [s.rstrip(c)] for a single character [c]. *)
Fixpoint rstrip (c : ascii) (s : string) : string :=
  match s with
  | EmptyString => EmptyString
  | String a s' =>
      match rstrip c s' with
      | EmptyString => if Ascii.eqb a c then EmptyString else String a EmptyString
      | r => String a r
      end
  end.

(** Lines 52-54: the two address templates the constructor keeps. *)
Definition api_url (token api_url : string) : string :=
  rstrip "/" api_url +:+ "/bot" +:+ token +:+ "/{}".

Definition file_url (token api_url : string) : string :=
  rstrip "/" api_url +:+ "/file/bot" +:+ token +:+ "/{}".

(** An update whose only content is a file the provider knows under
    ["path"], and a transfer that gives the bytes [body] for every path. *)
Definition file_world : world := answering_world (PDict [("file_path", PStr "path")]).

Definition body_of (body : pyval) (h : list event) (path : pyval) : outcome pyval :=
  Ret body.

(** The last character of a string, and [n] slashes. *)
Fixpoint last_char (s : string) : option ascii :=
  match s with
  | EmptyString => None
  | String a EmptyString => Some a
  | String _ s' => last_char s'
  end.

Fixpoint slashes (n : nat) : string :=
  match n with
  | O => EmptyString
  | S n' => slashes n' +:+ "/"
  end.

(** ** Routing of attachments *)

(** Sending an attachment declared with [type], alone and without text,
    through a free lock: the first thing [execute_send] does after taking
    the lock is a provider call under [method]. *)
Definition routes_to (type method : string) : Prop :=
  forall (w : world) (target_id message : pyval) (kwargs : dict) (a : Attachment.t)
         (m : machine),
    api_messages_lock (self m) = Some false ->
    truthy message = false ->
    exists data tail,
      history (execute_send w target_id message
                 (Many [OAttachment (with_type type a)]) kwargs m).2
      = history m ++ [EvAcquire; EvPost method data] ++ tail.

(* ================================================================== *)
(** * Properties of the normaliser                                     *)
(* ================================================================== *)

Section Aliases.

Lemma alias_table alias canon :
  ATTACHMENT_TYPE_ALIASES !! alias = Some canon ->
  (alias = "doc" /\ canon = "document") \/ (alias = "image" /\ canon = "photo").
Proof.
  unfold ATTACHMENT_TYPE_ALIASES. intros H.
  apply lookup_insert_Some in H as [[<- <-] | [_ H]]; [by left |].
  apply lookup_singleton_Some in H as [<- <-]. by right.
Qed.

Lemma resolve_alias_canonical alias canon :
  ATTACHMENT_TYPE_ALIASES !! alias = Some canon ->
  resolve_alias alias = canon /\ resolve_alias canon = canon.
Proof.
  intros H. split.
  - unfold resolve_alias. by rewrite H.
  - apply alias_table in H as [[_ ->] | [_ ->]]; by vm_compute.
Qed.

End Aliases.

Section Sorting.

(** [sorted] on integer keys: the result has the same items and its last
    item has the greatest key. *)
Lemma py_lt_int a b :
  int_keyed a -> int_keyed b -> py_lt a.1 b.1 = Ret (zkey a <? zkey b).
Proof.
  unfold int_keyed, zkey, py_lt. intros [x ->] [y ->]. reflexivity.
Qed.

Lemma max_last_cons_inv ky l :
  l <> [] -> max_last (ky :: l) -> max_last l.
Proof.
  unfold max_last. destruct l as [| kz l]; [done |]. intros _.
  rewrite last_cons_cons. destruct (list.last (kz :: l)) as [b |] eqn:E.
  - intros H x Hx. apply H. by right.
  - intros H. discriminate H.
Qed.

Lemma insert_by_key_spec kx l :
  int_keyed kx -> Forall int_keyed l ->
  exists r, insert_by_key kx l = Ret r
    /\ (forall x, x ∈ r <-> x = kx \/ x ∈ l)
    /\ (max_last l -> max_last r).
Proof.
  intros Hk. induction 1 as [| ky l Hy Hl IH].
  - exists [kx]. simpl. split; [done |]. split.
    + intros x. rewrite list_elem_of_singleton, elem_of_nil. tauto.
    + intros _ x. rewrite list_elem_of_singleton. intros ->. reflexivity.
  - simpl. rewrite (py_lt_int ky kx) by done. simpl.
    destruct (zkey ky <? zkey kx) eqn:Hlt.
    + destruct IH as (r & E & Hin & Hmax). rewrite E. simpl. exists (ky :: r).
      split; [done |]. split.
      * intros x. rewrite !elem_of_cons, Hin. tauto.
      * intros Hm. apply Z.ltb_lt in Hlt.
        destruct l as [| kz l].
        { simpl in E. injection E as <-. intros x.
          rewrite !elem_of_cons, elem_of_nil. simpl.
          intros [-> | [-> | []]]; lia. }
        pose proof (max_last_cons_inv ky (kz :: l) ltac:(done) Hm) as Hm'.
        specialize (Hmax Hm'). unfold max_last in *.
        rewrite last_cons_cons in Hm.
        destruct (list.last (kz :: l)) as [b |] eqn:Eb; [| discriminate Hm'].
        destruct r as [| r0 r].
        { exfalso. specialize (Hin kx). rewrite elem_of_nil in Hin. tauto. }
        rewrite last_cons_cons.
        destruct (list.last (r0 :: r)) as [b' |] eqn:Eb'; [| discriminate Hmax].
        intros x. rewrite elem_of_cons. intros [-> | Hx]; [| by apply Hmax].
        assert (zkey b <= zkey b').
        { apply Hmax, Hin. right. by apply last_Some_elem_of. }
        assert (zkey ky <= zkey b) by (apply Hm; by left). lia.
    + exists (kx :: ky :: l). split; [done |]. split.
      * intros x. rewrite !elem_of_cons. tauto.
      * apply Z.ltb_ge in Hlt. unfold max_last. rewrite last_cons_cons.
        destruct (list.last (ky :: l)) as [b |] eqn:Eb; [| intros Hm; discriminate Hm].
        intros Hm x. rewrite elem_of_cons. intros [-> | Hx]; [| by apply Hm].
        assert (zkey ky <= zkey b) by (apply Hm; by left). lia.
Qed.

Lemma sort_by_key_spec l :
  Forall int_keyed l ->
  exists r, sort_by_key l = Ret r
    /\ (forall x, x ∈ r <-> x ∈ l)
    /\ max_last r.
Proof.
  induction 1 as [| kx l Hk Hl (r0 & E0 & Hin0 & Hm0)].
  - exists []. simpl. split; [done |]. split; [done | reflexivity].
  - simpl. rewrite E0. simpl.
    assert (Forall int_keyed r0) as Hr0.
    { rewrite Forall_forall in Hl |- *. intros x Hx. apply Hl, Hin0, Hx. }
    destruct (insert_by_key_spec kx r0 Hk Hr0) as (r & E & Hin & Hm).
    exists r. split; [done |]. split.
    + intros x. rewrite Hin, elem_of_cons, Hin0. tauto.
    + by apply Hm.
Qed.

End Sorting.

Section Photo.

Lemma obind_Ret_inv {A B} (c : outcome A) (k : A -> outcome B) (b : B) :
  obind c k = Ret b -> exists a, c = Ret a /\ k a = Ret b.
Proof. destruct c as [a | e |]; [| done | done]. intros H. by exists a. Qed.

Lemma last_map {A B} (f : A -> B) (l : list A) :
  list.last (map f l) = f <$> list.last l.
Proof.
  induction l as [| x [| y l] IH]; [done | done |].
  change (map f (x :: y :: l)) with (f x :: f y :: map f l).
  rewrite !last_cons_cons. exact IH.
Qed.

Lemma size_variant_inv v :
  size_variant v = true ->
  exists d k z fid, v = PDict d /\ dict_lookup "width" d = Some k
    /\ as_int k = Some z /\ dict_lookup "file_id" d = Some fid.
Proof.
  unfold size_variant, width_of, file_id_of. destruct v as [| | | | | d]; try done.
  destruct (dict_lookup "width" d) as [k |] eqn:Ek; [| done]. simpl.
  destruct (as_int k) as [z |] eqn:Ez; [| done].
  destruct (dict_lookup "file_id" d) as [fid |] eqn:Ef; [| done].
  intros _. by exists d, k, z, fid.
Qed.

Lemma variant_keys variants :
  Forall (fun v => size_variant v = true) variants ->
  mapM (fun x => k <~ py_getitem x "width" ; Ret (k, x)) variants
    = Ret (map (fun x => (width_key x, x)) variants)
  /\ Forall int_keyed (map (fun x => (width_key x, x)) variants)
  /\ existsb (fun x => match x with
                       | PStr s => String.eqb s "file_id"
                       | _ => false
                       end) variants = false.
Proof.
  induction 1 as [| v l Hv Hl (IH1 & IH2 & IH3)]; [done |].
  destruct (size_variant_inv v Hv) as (d & k & z & fid & -> & Ek & Ez & Ef).
  simpl. rewrite Ek, IH1, IH3. simpl. split; [done |]. split; [| done].
  constructor; [| done]. unfold int_keyed. simpl. by rewrite Ez.
Qed.

Lemma zkey_width v : zkey (width_key v, v) = width_z v.
Proof.
  unfold zkey, width_z, width_of, width_key. destruct v; try done. simpl.
  by destruct (dict_lookup "width" kvs).
Qed.

Lemma photo_choice variants :
  variants <> [] ->
  Forall (fun v => size_variant v = true) variants ->
  exists best fid,
    best ∈ variants
    /\ (forall v, v ∈ variants -> width_z v <= width_z best)
    /\ file_id_of best = Some fid
    /\ _make_attachment (PList variants) "photo"
       = Ret (Attachment._existing_full fid "image" (PStr EmptyString) fid
                (_make_getter fid) (PList variants)).
Proof.
  intros Hne Hall.
  destruct (variant_keys variants Hall) as (Hkeys & Hint & Hnostr).
  destruct (sort_by_key_spec _ Hint) as (r & Hsort & Hin & Hmax).
  unfold max_last in Hmax.
  destruct (list.last r) as [[k best] |] eqn:Hlast.
  2:{ subst r. destruct variants as [| v l]; [done |].
      exfalso. specialize (Hin (width_key v, v)). simpl in Hin.
      rewrite elem_of_nil, elem_of_cons in Hin. tauto. }
  assert ((k, best) ∈ map (fun x => (width_key x, x)) variants) as Hb.
  { apply Hin. by apply last_Some_elem_of. }
  apply list_elem_of_In, in_map_iff in Hb as (b & Eb & Hbin).
  injection Eb as <- <-. apply list_elem_of_In in Hbin.
  rewrite Forall_forall in Hall.
  destruct (size_variant_inv b (Hall b Hbin)) as (d & kw & z & fid & -> & Ek & Ez & Ef).
  exists (PDict d), fid. split; [done |]. split; [| split; [done |]].
  - intros v Hv. rewrite <- !zkey_width. apply Hmax, Hin.
    apply list_elem_of_In, in_map_iff. exists v. split; [done |].
    by apply list_elem_of_In.
  - unfold _make_attachment, py_sorted. simpl py_contains. rewrite Hnostr.
    simpl. rewrite Hkeys. simpl. rewrite Hsort. simpl.
    unfold py_last. rewrite last_map, Hlast. simpl. by rewrite Ef.
Qed.

Lemma collect_absent raw_update message attachments key :
  py_getitem raw_update "message" = Ret (PDict message) ->
  dict_has key message = false ->
  collect_attachment raw_update attachments key = Ret attachments.
Proof.
  intros Hm Hk. unfold collect_attachment. rewrite Hm. simpl. by rewrite Hk.
Qed.

Lemma collect_present raw_update message attachments key d a :
  py_getitem raw_update "message" = Ret (PDict message) ->
  dict_lookup key message = Some d ->
  _make_attachment d key = Ret a ->
  collect_attachment raw_update attachments key = Ret (attachments ++ [a]).
Proof.
  intros Hm Hk Ha. unfold collect_attachment. rewrite Hm. simpl.
  unfold dict_has. rewrite Hk. simpl. by rewrite Ha.
Qed.

End Photo.

(** C7.  A photo field that carries size variants (dicts with an integer
    [width] and a [file_id]) becomes one attachment, and its id is the
    [file_id] of a variant whose width is the greatest: [_make_attachment]
    returns it, the list of attachments [_make_update] builds for a message
    with no other attachment field is that single attachment, and so is the
    list carried by the message it returns. *)
Theorem photo_attachment_is_widest (variants : list pyval) :
  variants <> [] ->
  Forall (fun v => size_variant v = true) variants ->
  exists best a,
    best ∈ variants
    /\ (forall v, v ∈ variants -> width_z v <= width_z best)
    /\ _make_attachment (PList variants) "photo" = Ret a
    /\ file_id_of best = Some (Attachment.id a)
    /\ forall raw_update message,
         py_getitem raw_update "message" = Ret (PDict message) ->
         dict_lookup "photo" message = Some (PList variants) ->
         (forall key, key ∈ possible_types -> key <> "photo" ->
                      dict_has key message = false) ->
         foldM (collect_attachment raw_update) possible_types [] = Ret [a]
         /\ forall name u, _make_update name raw_update = Ret u ->
                           attachments_of u = [a].
Proof.
  intros Hne Hall.
  destruct (photo_choice variants Hne Hall) as (best & fid & Hin & Hmax & Hfid & Hmk).
  eexists best, _. split; [done |]. split; [done |]. split; [exact Hmk |].
  split; [done |]. intros raw_update message Hmsg Hphoto Hothers.
  assert (foldM (collect_attachment raw_update) possible_types []
          = Ret [Attachment._existing_full fid "image" (PStr EmptyString) fid
                   (_make_getter fid) (PList variants)]) as Hfold.
  { unfold possible_types. simpl foldM.
    repeat first
      [ rewrite (collect_present _ _ _ "photo" _ _ Hmsg Hphoto Hmk); simpl obind
      | rewrite (collect_absent _ _ _ _ Hmsg) by
          (apply Hothers; [unfold possible_types; set_solver | done]);
        simpl obind ].
    reflexivity. }
  split; [exact Hfold |]. intros name u.
  unfold _make_update.
  destruct raw_update as [| | | | | top]; try discriminate Hmsg.
  simpl in Hmsg. simpl py_contains. unfold dict_has.
  destruct (dict_lookup "message" top) as [msg |] eqn:Etop; [| discriminate Hmsg].
  injection Hmsg as ->. simpl negb. cbv iota. rewrite Hfold. simpl obind at 1.
  intros H. repeat (apply obind_Ret_inv in H as (? & _ & H)).
  match goal with
  | x : (ReceiverType * pyval * dict)%type |- _ =>
      destruct x as [[receiver_type text] meta]
  end.
  repeat (apply obind_Ret_inv in H as (? & _ & H)).
  by injection H as <-.
Qed.

Lemma photo_attachment_is_widest_witness :
  exists best a,
    best ∈ three_sizes
    /\ (forall v, v ∈ three_sizes -> width_z v <= width_z best)
    /\ _make_attachment (PList three_sizes) "photo" = Ret a
    /\ file_id_of best = Some (Attachment.id a)
    /\ forall raw_update message,
         py_getitem raw_update "message" = Ret (PDict message) ->
         dict_lookup "photo" message = Some (PList three_sizes) ->
         (forall key, key ∈ possible_types -> key <> "photo" ->
                      dict_has key message = false) ->
         foldM (collect_attachment raw_update) possible_types [] = Ret [a]
         /\ forall name u, _make_update name raw_update = Ret u ->
                           attachments_of u = [a].
Proof.
  apply (photo_attachment_is_widest three_sizes).
  - discriminate.
  - repeat constructor.
Defined.

Example photo_90_320_800 :
  _make_update PNone photo_update
  = Ret (Message photo_update MSG (PStr EmptyString)
           [Attachment._existing_full (PStr "id-800") "image" (PStr EmptyString)
              (PStr "id-800") (Some (PStr "id-800")) (PList three_sizes)]
           (PInt 7) (PInt 5) SOLO (PInt 1000) []).
Proof. reflexivity. Qed.

(** C2, as the code has it.  Command scrubbing is done for group chats
    only.  For a chat that is not private, the update with text
    "/start@mybot hello" normalised under the username "mybot" has text
    "/start hello" and [bot_mentioned] set; normalised under "otherbot", or
    mentioning "@otherbot" under the username "mybot", it keeps its text and
    has empty metadata.  For a private chat the text is passed through and
    the metadata is empty, whatever the username. *)
Theorem mention_scrubbed_in_groups (chat_type : string)
    (update_id chat_id sender_id date : pyval) :
  let upd := command_update chat_type "/start@mybot hello" 12
               update_id chat_id sender_id date in
  let upd' := command_update chat_type "/start@otherbot hello" 15
                update_id chat_id sender_id date in
  (chat_type <> "private" ->
     _make_update (PStr "mybot") upd
       = Ret (Message upd MSG (PStr "/start hello") [] sender_id chat_id MULTI date
                [("bot_mentioned", PBool true)])
     /\ _make_update (PStr "otherbot") upd
       = Ret (Message upd MSG (PStr "/start@mybot hello") [] sender_id chat_id MULTI
                date [])
     /\ _make_update (PStr "mybot") upd'
       = Ret (Message upd' MSG (PStr "/start@otherbot hello") [] sender_id chat_id
                MULTI date []))
  /\ (chat_type = "private" ->
      forall name,
        _make_update name upd
        = Ret (Message upd MSG (PStr "/start@mybot hello") [] sender_id chat_id SOLO
                 date [])).
Proof.
  intros upd upd'. split.
  - intros Hne. apply String.eqb_neq in Hne.
    unfold _make_update, upd, upd', command_update. cbn.
    rewrite !Hne. by cbn.
  - intros -> name. reflexivity.
Qed.

Lemma mention_scrubbed_in_groups_witness :
  "group" <> "private"
  /\ _make_update (PStr "mybot")
       (command_update "group" "/start@mybot hello" 12 (PInt 10) (PInt (-100)) (PInt 7) (PInt 1000))
     = Ret (Message
              (command_update "group" "/start@mybot hello" 12 (PInt 10) (PInt (-100)) (PInt 7) (PInt 1000))
              MSG (PStr "/start hello") [] (PInt 7) (PInt (-100)) MULTI (PInt 1000)
              [("bot_mentioned", PBool true)]).
Proof.
  assert ("group" <> "private") as Hne by discriminate.
  split; [exact Hne |].
  exact (proj1 (proj1 (mention_scrubbed_in_groups "group" (PInt 10) (PInt (-100))
                         (PInt 7) (PInt 1000)) Hne)).
Defined.

(** C2 as stated fails: in a private chat the command keeps its "@mybot"
    and no mention is recorded. *)
Lemma private_chat_not_scrubbed :
  let upd := command_update "private" "/start@mybot hello" 12
               (PInt 10) (PInt 5) (PInt 7) (PInt 1000) in
  ~ (exists u, _make_update (PStr "mybot") upd = Ret u
               /\ text_of u = Some (PStr "/start hello")
               /\ bot_mentioned u = true).
Proof.
  intros upd (u & Hu & Ht & _). vm_compute in Hu. injection Hu as <-.
  discriminate Ht.
Qed.

(** C6 fails on the code: before [on_start] the username is [None], which
    the f-string renders as "None", so a group command written
    "/start@None" is scrubbed and flagged. *)
Theorem unset_username_matches_None :
  let upd := command_update "group" "/start@None hello" 11
               (PInt 10) (PInt (-100)) (PInt 7) (PInt 1000) in
  _make_update PNone upd
  = Ret (Message upd MSG (PStr "/start hello") [] (PInt 7) (PInt (-100)) MULTI
           (PInt 1000) [("bot_mentioned", PBool true)]).
Proof. reflexivity. Qed.

(* ================================================================== *)
(** * Properties of the effectful methods                              *)
(* ================================================================== *)

Create HintDb frame.

Section Effects.

Variable w : world.

(** ** The monad *)

Lemma bind_Ret {A B} (c : M A) (k : A -> M B) m a m1 :
  c m = (Ret a, m1) -> bind c k m = k a m1.
Proof. unfold bind. by intros ->. Qed.

Lemma bind_Raise {A B} (c : M A) (k : A -> M B) m e m1 :
  c m = (Raise e, m1) -> bind c k m = (Raise e, m1).
Proof. unfold bind. by intros ->. Qed.

Lemma bind_Ret_inv {A B} (c : M A) (k : A -> M B) m b m' :
  bind c k m = (Ret b, m') ->
  exists a m1, c m = (Ret a, m1) /\ k a m1 = (Ret b, m').
Proof.
  unfold bind. destruct (c m) as [[a | e |] m1]; [| done | done].
  intros H. by exists a, m1.
Qed.

Lemma collect_app {A B} (body : A -> M B) (l1 l2 : list A) m :
  collect body (l1 ++ l2) m
  = bind (collect body l1)
      (fun r1 => bind (collect body l2) (fun r2 => ret (r1 ++ r2))) m.
Proof.
  revert m. induction l1 as [| x l1 IH]; intros m; simpl.
  - unfold bind, ret. simpl. by destruct (collect body l2 m) as [[r | e |] m'].
  - unfold bind, ret. destruct (body x m) as [[r | e |] m1]; [| done | done].
    rewrite IH. unfold bind, ret.
    destruct (collect body l1 m1) as [[r1 | e |] m2]; [| done | done].
    by destruct (collect body l2 m2) as [[r2 | e |] m3].
Qed.

(** ** The gate is left alone by everything but [on_start] *)

Lemma ls_ret {A} (a : A) : lock_stable (ret a).
Proof. by intros m r m' [= <- <-]. Qed.

Lemma ls_raise {A} e : lock_stable (@raise A e).
Proof. by intros m r m' [= <- <-]. Qed.

Lemma ls_lift {A} (o : outcome A) : lock_stable (lift o).
Proof. by intros m r m' [= <- <-]. Qed.

Lemma ls_gets {A} (f : Telegram -> A) : lock_stable (gets f).
Proof. by intros m r m' [= <- <-]. Qed.

Lemma ls_emit ev : lock_stable (emit ev).
Proof. by intros m r m' [= <- <-]. Qed.

Lemma ls_logger level msg : lock_stable (logger level msg).
Proof. apply ls_emit. Qed.

Lemma ls_post method data : lock_stable (post w method data).
Proof. by intros m r m' [= <- <-]. Qed.

Lemma ls_sleep d : lock_stable (sleep w d).
Proof. by intros m r m' [= <- <-]. Qed.

Lemma ls_submit u : lock_stable (submit_update w u).
Proof. by intros m r m' [= <- <-]. Qed.

Lemma ls_set_session b : lock_stable (modify (set_session b)).
Proof. by intros m r m' [= <- <-]. Qed.

Lemma ls_set_offset v : lock_stable (modify (set_offset v)).
Proof. by intros m r m' [= <- <-]. Qed.

Lemma ls_set_username v : lock_stable (modify (set_username v)).
Proof. by intros m r m' [= <- <-]. Qed.

Lemma ls_bind {A B} (c : M A) (k : A -> M B) :
  lock_stable c -> (forall a, lock_stable (k a)) -> lock_stable (bind c k).
Proof.
  intros Hc Hk m r m'. unfold bind.
  destruct (c m) as [[a | e |] m1] eqn:E.
  - intros H. rewrite (Hk a _ _ _ H). eapply Hc, E.
  - intros [= <- <-]. eapply Hc, E.
  - intros [= <- <-]. eapply Hc, E.
Qed.

Lemma ls_try {A} (c : M A) (h : exn -> M A) :
  lock_stable c -> (forall e, lock_stable (h e)) -> lock_stable (try_except c h).
Proof.
  intros Hc Hh m r m'. unfold try_except.
  destruct (c m) as [[a | e |] m1] eqn:E.
  - intros [= <- <-]. eapply Hc, E.
  - intros H. rewrite (Hh e _ _ _ H). eapply Hc, E.
  - intros [= <- <-]. eapply Hc, E.
Qed.

Lemma ls_if {A} (b : bool) (c1 c2 : M A) :
  lock_stable c1 -> lock_stable c2 -> lock_stable (if b then c1 else c2).
Proof. by destruct b. Qed.

Lemma ls_for_each {A} (body : A -> M unit) items :
  (forall x, lock_stable (body x)) -> lock_stable (for_each body items).
Proof.
  intros Hb. induction items as [| x items IH]; simpl.
  - apply ls_ret.
  - apply ls_bind; [apply Hb | intros _; apply IH].
Qed.

Hint Resolve ls_ret ls_raise ls_lift ls_gets ls_emit ls_logger ls_post ls_sleep
  ls_submit ls_set_session ls_set_offset ls_set_username : frame.
Hint Extern 2 (lock_stable (bind _ _)) => apply ls_bind; [| intros ?] : frame.
Hint Extern 2 (lock_stable (if _ then _ else _)) => apply ls_if : frame.
Hint Extern 2 (lock_stable (match ?x with _ => _ end)) => destruct x : frame.

Lemma ls_request method kwargs : lock_stable (_request w method kwargs).
Proof. unfold _request. auto 20 with frame. Qed.

Lemma ls_deliver update : lock_stable (deliver w update).
Proof. unfold deliver. auto 20 with frame. Qed.

Lemma ls_acquire_updates : lock_stable (acquire_updates w).
Proof.
  unfold acquire_updates. apply ls_bind; [auto with frame | intros cursor].
  apply ls_bind.
  - apply ls_try.
    + pose proof ls_request. auto 20 with frame.
    + intros e. auto 20 with frame.
  - intros [response |]; [| auto with frame].
    apply ls_bind; [auto with frame | intros items].
    apply ls_for_each, ls_deliver.
Qed.

(** ** [_request], step by step *)

Lemma _request_run method kwargs m :
  let data := without_none kwargs in
  let m1 := {| self := ensure_session (self m);
               history := history m ++ [EvPost method data] |} in
  _request w method kwargs m
  = match net w (history m) method data with
    | Ret env =>
        match py_get env "ok" PNone with
        | Ret ok =>
            if truthy ok then
              match py_getitem env "result" with
              | Ret res => (Ret res, {| self := self m1;
                                        history := history m1 ++ [debug_line] |})
              | Raise e => (Raise e, m1)
              | Wait => (Wait, m1)
              end
            else (Raise (RequestException method kwargs env), m1)
        | Raise e => (Raise e, m1)
        | Wait => (Wait, m1)
        end
    | Raise e => (Raise e, m1)
    | Wait => (Wait, m1)
    end.
Proof.
  unfold _request, ensure_session, bind, gets, modify, ret, post, lift, raise,
    logger, emit.
  destruct m as [t h]. simpl.
  destruct (session t); simpl;
    (destruct (net w h method (without_none kwargs)) as [env | e |]; [| done | done]);
    (destruct (py_get env "ok" PNone) as [ok | e |]; [| done | done]);
    (destruct (truthy ok); [| done]);
    by destruct (py_getitem env "result") as [res | e |].
Qed.

Lemma _request_accepted method kwargs m :
  accepted (net w (history m) method (without_none kwargs)) ->
  exists res,
    _request w method kwargs m
    = (Ret res, {| self := ensure_session (self m);
                   history := history m ++ [EvPost method (without_none kwargs);
                                            debug_line] |}).
Proof.
  intros (env & ok & res & Hnet & Hok & Ht & Hres). exists res.
  rewrite _request_run. simpl. rewrite Hnet, Hok, Ht, Hres.
  by rewrite <- app_assoc.
Qed.

(** Whatever it gives, [_request] changes nothing of the adapter but the
    session, and adds to the trace the call and at most a debug line. *)
Lemma _request_frame method kwargs m r m' :
  _request w method kwargs m = (r, m') ->
  self m' = ensure_session (self m)
  /\ exists tail,
       history m' = history m ++ EvPost method (without_none kwargs) :: tail
       /\ (tail = [] \/ tail = [debug_line]).
Proof.
  rewrite _request_run. simpl.
  destruct (net w (history m) method (without_none kwargs)) as [env | e |].
  2,3: intros [= <- <-]; split; [done |]; exists []; by split; [| left].
  destruct (py_get env "ok" PNone) as [ok | e |].
  2,3: intros [= <- <-]; split; [done |]; exists []; by split; [| left].
  destruct (truthy ok).
  2: intros [= <- <-]; split; [done |]; exists []; by split; [| left].
  destruct (py_getitem env "result") as [res | e |].
  2,3: intros [= <- <-]; split; [done |]; exists []; by split; [| left].
  intros [= <- <-]. split; [done |]. exists [debug_line]. simpl.
  split; [by rewrite <- app_assoc | by right].
Qed.

Lemma offset_ensure_session t : offset (ensure_session t) = offset t.
Proof. unfold ensure_session. by destruct (session t). Qed.

Lemma username_ensure_session t : username (ensure_session t) = username t.
Proof. unfold ensure_session. by destruct (session t). Qed.

Lemma pause_ensure_session t :
  api_messages_pause (ensure_session t) = api_messages_pause t.
Proof. unfold ensure_session. by destruct (session t). Qed.

Lemma lock_ensure_session t :
  api_messages_lock (ensure_session t) = api_messages_lock t.
Proof. unfold ensure_session. by destruct (session t). Qed.

Lemma submitted_app h1 h2 : submitted (h1 ++ h2) = submitted h1 ++ submitted h2.
Proof. unfold submitted. apply omap_app. Qed.

Lemma posts_app h1 h2 : posts (h1 ++ h2) = posts h1 ++ posts h2.
Proof. unfold posts. apply omap_app. Qed.

Lemma _request_delivers_nothing method kwargs m r m' :
  _request w method kwargs m = (r, m') ->
  offset (self m') = offset (self m)
  /\ username (self m') = username (self m)
  /\ submitted (history m') = submitted (history m).
Proof.
  intros H. apply _request_frame in H as (-> & tail & -> & Htail).
  rewrite offset_ensure_session, username_ensure_session, submitted_app.
  split; [done |]. split; [done |].
  destruct Htail as [-> | ->]; simpl; by rewrite app_nil_r.
Qed.

(** ** One polling iteration *)

Lemma acquire_updates_run m :
  acquire_updates w m
  = match _request w "getUpdates" (poll_params m) m with
    | (Ret response, m1) =>
        match py_iter response with
        | Ret items => for_each (deliver w) items m1
        | Raise e => (Raise e, m1)
        | Wait => (Wait, m1)
        end
    | (Raise e, m1) =>
        if is_decode_or_transport e then (Ret tt, m1)
        else if is_Exception e then
          let m2 := {| self := self m1; history := history m1 ++ [exception_line] |} in
          match nap w (history m2) 1 with
          | Ret _ => (Ret tt, {| self := self m1; history := history m2 ++ [EvSleep 1] |})
          | Raise e' => (Raise e', {| self := self m1; history := history m2 ++ [EvSleep 1] |})
          | Wait => (Wait, {| self := self m1; history := history m2 ++ [EvSleep 1] |})
          end
        else (Raise e, m1)
    | (Wait, m1) => (Wait, m1)
    end.
Proof.
  unfold acquire_updates, poll_params. unfold bind at 1. unfold gets at 1.
  unfold bind at 1. unfold try_except. unfold bind at 1.
  destruct (_request w "getUpdates" _ m) as [[response | e |] m1]; simpl.
  - unfold bind, lift. by destruct (py_iter response).
  - destruct (is_decode_or_transport e) eqn:Hd; [done |].
    destruct e; try discriminate Hd; simpl; try done;
      unfold bind, logger, emit, sleep; simpl;
      by destruct (nap w _ 1).
  - done.
Qed.

Lemma deliver_run update m :
  deliver w update m
  = match _make_update (username (self m)) update with
    | Ret u =>
        let m1 := {| self := self m; history := history m ++ [EvSubmit u] |} in
        match sink w (history m) u with
        | Ret _ =>
            match next <~ (uid <~ py_getitem update "update_id" ; py_add uid (PInt 1)) ;
                  Ret next with
            | Ret next => (Ret tt, {| self := set_offset next (self m);
                                      history := history m1 |})
            | Raise e => (Raise e, m1)
            | Wait => (Wait, m1)
            end
        | Raise e => (Raise e, m1)
        | Wait => (Wait, m1)
        end
    | Raise e => (Raise e, m)
    | Wait => (Wait, m)
    end.
Proof.
  unfold deliver, bind, gets, lift, submit_update, modify. destruct m as [t h]. simpl.
  destruct (_make_update (username t) update) as [u | e |]; [| done | done].
  destruct (sink w h u) as [[] | e |]; [| done | done].
  destruct (py_getitem update "update_id") as [uid | e |]; [| done | done]. simpl.
  by destruct (py_add uid (PInt 1)) as [next | e |].
Qed.

(** After an item is delivered the cursor is one past its id. *)
Lemma deliver_ok update u k m :
  _make_update (username (self m)) update = Ret u ->
  sink w (history m) u = Ret tt ->
  py_getitem update "update_id" = Ret (PInt k) ->
  deliver w update m
  = (Ret tt, {| self := set_offset (PInt (k + 1)) (self m);
                history := history m ++ [EvSubmit u] |}).
Proof. intros Hu Hs Hk. rewrite deliver_run, Hu, Hs, Hk. reflexivity. Qed.

(** An item the sink does not take leaves the cursor where it was. *)
Lemma deliver_interrupted update u e m :
  _make_update (username (self m)) update = Ret u ->
  sink w (history m) u = Raise e ->
  deliver w update m
  = (Raise e, {| self := self m; history := history m ++ [EvSubmit u] |}).
Proof. intros Hu Hs. rewrite deliver_run, Hu, Hs. reflexivity. Qed.

(** A whole batch, whatever its ids: with a sink that takes everything, the
    events are handed over in order and the cursor ends one past the last
    id. *)
Lemma deliver_all (batch : list (pyval * update * Z)) m :
  (forall h u, sink w h u = Ret tt) ->
  Forall (fun '(raw, u, k) =>
            _make_update (username (self m)) raw = Ret u
            /\ py_getitem raw "update_id" = Ret (PInt k)) batch ->
  for_each (deliver w) (map (fun x => x.1.1) batch) m
  = (Ret tt,
     {| self := match list.last batch with
                | Some (_, _, k) => set_offset (PInt (k + 1)) (self m)
                | None => self m
                end;
        history := history m ++ map (fun x => EvSubmit x.1.2) batch |}).
Proof.
  intros Hsink Hall. revert m Hall.
  induction batch as [| [[raw u] k] batch IH]; intros m Hall.
  - simpl. unfold ret. rewrite app_nil_r. by destruct m.
  - apply Forall_cons in Hall as [[Hu Hk] Hall].
    change (map (fun x => x.1.1) ((raw, u, k) :: batch))
      with (raw :: map (fun x : pyval * update * Z => x.1.1) batch).
    change (for_each (deliver w) (raw :: ?l) m)
      with (bind (deliver w raw) (fun _ => for_each (deliver w) l) m).
    rewrite (bind_Ret _ _ _ _ _ (deliver_ok raw u k m Hu (Hsink _ _) Hk)).
    rewrite IH by exact Hall. simpl. rewrite <- app_assoc. simpl.
    destruct batch as [| [[raw' u'] k'] batch]; [done |].
    rewrite last_cons_cons.
    destruct (list.last ((raw', u', k') :: batch)) as [[[? ?] ?] |] eqn:E;
      [done | by apply last_None in E].
Qed.

(** ** [on_start] and the gate *)

Lemma sl_bind {A} (c : M A) (k : A -> M unit) :
  lock_stable c -> (forall a, starts_lock (k a)) -> starts_lock (bind c k).
Proof.
  intros Hc Hk m r m'. unfold bind.
  destruct (c m) as [[a | e |] m1] eqn:E.
  - intros H. rewrite <- (Hc _ _ _ E). by apply (Hk a).
  - intros [= <- <-]. right. split; [done |]. eapply Hc, E.
  - intros [= <- <-]. right. split; [done |]. eapply Hc, E.
Qed.

Lemma sl_set_lock : starts_lock (modify (set_lock (Some false))).
Proof. intros m r m' [= <- <-]. by left. Qed.

Lemma starts_lock_on_start : starts_lock (on_start w).
Proof.
  unfold on_start. pose proof ls_request.
  repeat (apply sl_bind; [auto with frame | intros ?]).
  apply sl_set_lock.
Qed.

Lemma execute_send_no_gate target_id message attachments kwargs m :
  api_messages_lock (self m) = None ->
  execute_send w target_id message attachments kwargs m = (Raise AttributeError, m).
Proof. unfold execute_send, async_with_lock. by intros ->. Qed.

Lemma init_fields token messages_per_second session t :
  __init__ token messages_per_second session [] = Ret t ->
  api_messages_lock t = None
  /\ username t = PNone
  /\ offset t = PInt 0
  /\ api_messages_pause t = (1 / messages_per_second)%Q.
Proof.
  unfold __init__. destruct (String.eqb token EmptyString); [done |].
  destruct (Qeq_bool messages_per_second 0); [done |]. by intros [= <-].
Qed.

Lemma before_start_no_gate m :
  before_start w m -> api_messages_lock (self m) = None.
Proof.
  induction 1 as [token mps s t Ht | m _ IH | m method kwargs _ IH
                 | m target_id message attachments kwargs _ IH | m _ IH Hfail].
  - by apply init_fields in Ht as (? & _).
  - destruct (acquire_updates w m) as [r m'] eqn:E. simpl.
    by rewrite (ls_acquire_updates _ _ _ E).
  - destruct (execute_request w method kwargs m) as [r m'] eqn:E. simpl.
    by rewrite (ls_request _ _ _ _ _ E).
  - by rewrite execute_send_no_gate.
  - destruct (on_start w m) as [r m'] eqn:E. simpl in *.
    destruct (starts_lock_on_start _ _ _ E) as [[-> _] | [_ ->]]; done.
Qed.

End Effects.

(** C8.  When the [getUpdates] request of an iteration ends with an
    exception, the request itself has delivered nothing and has left the
    cursor alone, and then: a decode or transport error ends the iteration
    with nothing more done; a cancellation comes out of [acquire_updates];
    any other [Exception] is logged, followed by a pause of one second, and
    the iteration returns.  In all three cases the cursor is the one the
    iteration started with.  (What is not an [Exception], a cancellation or
    an exit signal, is never caught.) *)
Theorem acquire_updates_error_policy (w : world) (m m1 : machine) (e : exn) :
  _request w "getUpdates" (poll_params m) m = (Raise e, m1) ->
  (offset (self m1) = offset (self m)
   /\ submitted (history m1) = submitted (history m))
  /\ (is_decode_or_transport e = true -> acquire_updates w m = (Ret tt, m1))
  /\ (e = CancelledError -> acquire_updates w m = (Raise CancelledError, m1))
  /\ (is_decode_or_transport e = false -> is_Exception e = true ->
      nap w (history m1 ++ [exception_line]) 1 = Ret tt ->
      acquire_updates w m
      = (Ret tt, {| self := self m1;
                    history := history m1 ++ [exception_line; EvSleep 1] |}))
  /\ (is_Exception e = false -> acquire_updates w m = (Raise e, m1)).
Proof.
  intros Hreq. split.
  { apply _request_delivers_nothing in Hreq. tauto. }
  rewrite acquire_updates_run, Hreq. split; [| split; [| split]].
  - by intros ->.
  - by intros ->.
  - intros -> -> Hnap. simpl. rewrite Hnap. by rewrite <- app_assoc.
  - intros He. destruct e; try discriminate He; reflexivity.
Qed.

Lemma acquire_updates_error_policy_witness :
  acquire_updates (failing_world ClientError) (boot new_adapter)
    = (Ret tt, {| self := set_session true new_adapter;
                  history := [EvPost "getUpdates" (poll_params (boot new_adapter))] |})
  /\ acquire_updates (failing_world JSONDecodeError) (boot new_adapter)
    = (Ret tt, {| self := set_session true new_adapter;
                  history := [EvPost "getUpdates" (poll_params (boot new_adapter))] |})
  /\ acquire_updates (failing_world CancelledError) (boot new_adapter)
    = (Raise CancelledError,
       {| self := set_session true new_adapter;
          history := [EvPost "getUpdates" (poll_params (boot new_adapter))] |})
  /\ acquire_updates (failing_world (OtherError "RuntimeError")) (boot new_adapter)
    = (Ret tt, {| self := set_session true new_adapter;
                  history := [EvPost "getUpdates" (poll_params (boot new_adapter));
                              exception_line; EvSleep 1] |}).
Proof.
  split; [| split; [| split]].
  - apply (proj1 (proj2 (acquire_updates_error_policy (failing_world ClientError)
                           (boot new_adapter) _ ClientError eq_refl))).
    reflexivity.
  - apply (proj1 (proj2 (acquire_updates_error_policy (failing_world JSONDecodeError)
                           (boot new_adapter) _ JSONDecodeError eq_refl))).
    reflexivity.
  - apply (proj1 (proj2 (proj2 (acquire_updates_error_policy
                                  (failing_world CancelledError)
                                  (boot new_adapter) _ CancelledError eq_refl)))).
    reflexivity.
  - apply (proj1 (proj2 (proj2 (proj2 (acquire_updates_error_policy
                                         (failing_world (OtherError "RuntimeError"))
                                         (boot new_adapter) _
                                         (OtherError "RuntimeError") eq_refl)))));
      reflexivity.
Defined.

(** C1.  The provider answers the [getUpdates] request of an iteration with
    three raw updates whose ids are 10, 11 and 12, each of which the
    normaliser turns into an event.  If the sink takes all three, the
    iteration returns, exactly the three events have been handed to the sink,
    in that order, and the cursor is 13.  The cursor moves item by item: if
    the sink fails on the first event the cursor has not moved, if it fails
    on the second the cursor is 11, on the third 12, so that an event the
    sink has taken is behind the cursor.  (The request itself leaves the
    cursor alone and hands nothing to the sink.) *)
Theorem acquire_updates_10_11_12 (w : world) (m m1 : machine)
    (u10 u11 u12 : pyval) (e10 e11 e12 : update) :
  _request w "getUpdates" (poll_params m) m = (Ret (PList [u10; u11; u12]), m1) ->
  py_getitem u10 "update_id" = Ret (PInt 10) ->
  py_getitem u11 "update_id" = Ret (PInt 11) ->
  py_getitem u12 "update_id" = Ret (PInt 12) ->
  _make_update (username (self m)) u10 = Ret e10 ->
  _make_update (username (self m)) u11 = Ret e11 ->
  _make_update (username (self m)) u12 = Ret e12 ->
  let h1 := history m1 in
  (offset (self m1) = offset (self m) /\ submitted h1 = submitted (history m))
  /\ (sink w h1 e10 = Ret tt ->
      sink w (h1 ++ [EvSubmit e10]) e11 = Ret tt ->
      sink w (h1 ++ [EvSubmit e10; EvSubmit e11]) e12 = Ret tt ->
      acquire_updates w m
      = (Ret tt, {| self := set_offset (PInt 13) (self m1);
                    history := h1 ++ [EvSubmit e10; EvSubmit e11; EvSubmit e12] |}))
  /\ (forall x,
      sink w h1 e10 = Raise x ->
      acquire_updates w m
      = (Raise x, {| self := self m1; history := h1 ++ [EvSubmit e10] |}))
  /\ (forall x,
      sink w h1 e10 = Ret tt ->
      sink w (h1 ++ [EvSubmit e10]) e11 = Raise x ->
      acquire_updates w m
      = (Raise x, {| self := set_offset (PInt 11) (self m1);
                     history := h1 ++ [EvSubmit e10; EvSubmit e11] |}))
  /\ (forall x,
      sink w h1 e10 = Ret tt ->
      sink w (h1 ++ [EvSubmit e10]) e11 = Ret tt ->
      sink w (h1 ++ [EvSubmit e10; EvSubmit e11]) e12 = Raise x ->
      acquire_updates w m
      = (Raise x, {| self := set_offset (PInt 12) (self m1);
                     history := h1 ++ [EvSubmit e10; EvSubmit e11; EvSubmit e12] |})).
Proof.
  intros Hreq Hi10 Hi11 Hi12 Hn10 Hn11 Hn12 h1.
  destruct (_request_delivers_nothing _ _ _ _ _ _ Hreq) as (Hoff & Hname & Hsub).
  split; [done |].
  rewrite acquire_updates_run, Hreq. simpl py_iter. cbv iota beta.
  rewrite <- Hname in Hn10, Hn11, Hn12.
  assert (forall mm, for_each (deliver w) [u10; u11; u12] mm
                     = bind (deliver w u10)
                         (fun _ => bind (deliver w u11)
                            (fun _ => bind (deliver w u12) (fun _ => ret tt))) mm)
    as Hloop by done.
  subst h1. rewrite Hloop.
  set (ma := {| self := set_offset (PInt 11) (self m1);
                history := history m1 ++ [EvSubmit e10] |}).
  set (mb := {| self := set_offset (PInt 12) (self m1);
                history := (history m1 ++ [EvSubmit e10]) ++ [EvSubmit e11] |}).
  assert (history m1 ++ [EvSubmit e10; EvSubmit e11]
          = (history m1 ++ [EvSubmit e10]) ++ [EvSubmit e11]) as Hh2
    by (by rewrite <- app_assoc).
  rewrite Hh2.
  split; [| split; [| split]].
  - intros Hs10 Hs11 Hs12.
    rewrite (bind_Ret _ _ _ _ _ (deliver_ok w u10 e10 10 m1 Hn10 Hs10 Hi10)).
    rewrite (bind_Ret _ _ _ _ _ (deliver_ok w u11 e11 11 ma Hn11 Hs11 Hi11)).
    rewrite (bind_Ret _ _ _ _ _ (deliver_ok w u12 e12 12 mb Hn12 Hs12 Hi12)).
    unfold ret, mb. simpl. by rewrite <- !app_assoc.
  - intros x Hs10.
    by rewrite (bind_Raise _ _ _ _ _ (deliver_interrupted w u10 e10 x m1 Hn10 Hs10)).
  - intros x Hs10 Hs11.
    rewrite (bind_Ret _ _ _ _ _ (deliver_ok w u10 e10 10 m1 Hn10 Hs10 Hi10)).
    by rewrite (bind_Raise _ _ _ _ _ (deliver_interrupted w u11 e11 x ma Hn11 Hs11)).
  - intros x Hs10 Hs11 Hs12.
    rewrite (bind_Ret _ _ _ _ _ (deliver_ok w u10 e10 10 m1 Hn10 Hs10 Hi10)).
    rewrite (bind_Ret _ _ _ _ _ (deliver_ok w u11 e11 11 ma Hn11 Hs11 Hi11)).
    rewrite (bind_Raise _ _ _ _ _ (deliver_interrupted w u12 e12 x mb Hn12 Hs12)).
    unfold mb. simpl. by rewrite <- !app_assoc.
Qed.

Lemma acquire_updates_10_11_12_witness :
  acquire_updates (polling_world None) (boot new_adapter)
    = (Ret tt, {| self := set_offset (PInt 13) (self polled);
                  history := history polled
                             ++ [EvSubmit (event_of 10); EvSubmit (event_of 11);
                                 EvSubmit (event_of 12)] |})
  /\ acquire_updates (polling_world (Some 1%nat)) (boot new_adapter)
    = (Raise CancelledError,
       {| self := set_offset (PInt 11) (self polled);
          history := history polled
                     ++ [EvSubmit (event_of 10); EvSubmit (event_of 11)] |}).
Proof.
  split.
  - apply (proj1 (proj2 (acquire_updates_10_11_12 (polling_world None)
             (boot new_adapter) polled (raw_event 10) (raw_event 11) (raw_event 12)
             (event_of 10) (event_of 11) (event_of 12)
             eq_refl eq_refl eq_refl eq_refl eq_refl eq_refl eq_refl)));
      reflexivity.
  - apply (proj1 (proj2 (proj2 (proj2 (acquire_updates_10_11_12
             (polling_world (Some 1%nat))
             (boot new_adapter) polled (raw_event 10) (raw_event 11) (raw_event 12)
             (event_of 10) (event_of 11) (event_of 12)
             eq_refl eq_refl eq_refl eq_refl eq_refl eq_refl eq_refl)))));
      reflexivity.
Defined.

(** C10.  Between its construction and the end of a successful [on_start],
    whatever else has been called on it, the adapter has no pacing gate:
    [execute_send] raises on entering it, makes no provider call and leaves
    the adapter and the trace as they were.  Once [on_start] has returned the
    gate is a free lock, which [execute_send] takes and gives back. *)
Theorem no_send_before_on_start (w : world) :
  (forall m, before_start w m ->
     api_messages_lock (self m) = None
     /\ forall target_id message attachments kwargs,
          execute_send w target_id message attachments kwargs m
          = (Raise AttributeError, m))
  /\ (forall m m', on_start w m = (Ret tt, m') ->
        api_messages_lock (self m') = Some false
        /\ forall target_id,
             execute_send w target_id PNone (Many []) [] m'
             = (Ret [], release (acquire m'))).
Proof.
  split.
  - intros m Hm. pose proof (before_start_no_gate w m Hm) as Hlock.
    split; [done |]. intros. by apply execute_send_no_gate.
  - intros m m' Hstart.
    destruct (starts_lock_on_start w _ _ _ Hstart) as [[_ Hlock] | [Hne _]]; [| done].
    split; [done |]. intros target_id.
    unfold execute_send, async_with_lock. by rewrite Hlock.
Qed.

Lemma no_send_before_on_start_witness :
  before_start (polling_world None) (boot new_adapter)
  /\ execute_send (polling_world None) (PInt 5) (PStr "hi") (Many []) []
       (boot new_adapter)
     = (Raise AttributeError, boot new_adapter)
  /\ api_messages_lock (self (on_start (polling_world None) (boot new_adapter)).2)
     = Some false.
Proof.
  assert (before_start (polling_world None) (boot new_adapter)) as Hb.
  { apply (bs_init _ "token" 29 false). reflexivity. }
  split; [exact Hb |]. split.
  - apply (proj2 (proj1 (no_send_before_on_start (polling_world None)) _ Hb)).
  - apply (proj1 (proj2 (no_send_before_on_start (polling_world None))
                    (boot new_adapter) _ eq_refl)).
Defined.

Section Sending.

Variable w : world.

Lemma execute_send_run target_id message attachments kwargs m :
  api_messages_lock (self m) = Some false ->
  execute_send w target_id message attachments kwargs m
  = match send_under_lock w (py_str target_id) message attachments kwargs (acquire m) with
    | (Wait, m2) => (Wait, m2)
    | (r, m2) => (r, release m2)
    end.
Proof. unfold execute_send, async_with_lock. by intros ->. Qed.

Lemma send_text_skip chat_id message kwargs m :
  truthy message = false -> send_text w chat_id message kwargs m = (Ret [], m).
Proof. unfold send_text. by intros ->. Qed.

Lemma send_attachment_unsupported chat_id a m :
  Attachment.uploaded a = false ->
  is_supported (resolve_alias (Attachment.type a)) = false ->
  send_attachment w chat_id (OAttachment a) m = (Raise (unsupported a), m).
Proof. unfold send_attachment. by intros -> ->. Qed.

Lemma send_attachment_value chat_id v m :
  send_attachment w chat_id (OVal v) m = (Raise (unexpected v), m).
Proof. reflexivity. Qed.

Section Healthy.

(** The provider accepts every call and no pause is cancelled. *)
Hypothesis Hnet : forall h method data, accepted (net w h method data).
Hypothesis Hnap : forall h delay, nap w h delay = Ret tt.

Lemma paced_request method kwargs m :
  exists res,
    (r <- _request w method kwargs ;
     pause <- gets api_messages_pause ;
     _ <- sleep w pause ;
     ret r) m
    = (Ret res,
       {| self := ensure_session (self m);
          history := history m
                     ++ paced_call (api_messages_pause (self m))
                          (method, without_none kwargs) |}).
Proof.
  destruct (_request_accepted w method kwargs m (Hnet _ _ _)) as [res Hreq].
  exists res. rewrite (bind_Ret _ _ _ _ _ Hreq).
  unfold bind, gets, sleep, ret. simpl. rewrite Hnap, pause_ensure_session.
  by rewrite <- app_assoc.
Qed.

Lemma send_text_ok target_id message kwargs m :
  truthy message = true ->
  exists res,
    send_text w (py_str target_id) message kwargs m
    = (Ret [res],
       {| self := ensure_session (self m);
          history := history m
                     ++ paced_call (api_messages_pause (self m))
                          (text_call target_id message kwargs) |}).
Proof.
  intros Ht. unfold send_text. rewrite Ht.
  destruct (_request_accepted w "sendMessage"
              (dict_of ([("chat_id", PStr (py_str target_id)); ("text", message)]
                        ++ kwargs)) m (Hnet _ _ _)) as [res Hreq].
  exists res. rewrite (bind_Ret _ _ _ _ _ Hreq).
  unfold bind, gets, sleep, ret. simpl. rewrite Hnap, pause_ensure_session.
  by rewrite <- app_assoc.
Qed.

Lemma send_attachment_ok chat_id a m :
  sendable a = true ->
  exists res data,
    send_attachment w chat_id (OAttachment a) m
    = (Ret res,
       {| self := ensure_session (self m);
          history := history m
                     ++ paced_call (api_messages_pause (self m)) (method_of a, data) |}).
Proof.
  unfold sendable, send_attachment, method_of. intros Hs.
  destruct (Attachment.uploaded a).
  - destruct (paced_request (send_method_of (resolve_alias (Attachment.type a)))
                (pick_by (dict_of [("chat_id", PStr chat_id);
                                   (resolve_alias (Attachment.type a),
                                    PStr (py_str (Attachment.id a)));
                                   ("caption", Attachment.title a)])) m) as [res H].
    eexists res, _. exact H.
  - simpl in Hs. rewrite Hs. simpl.
    destruct (paced_request (send_method_of (resolve_alias (Attachment.type a)))
                (pick_by (dict_of [("chat_id", PStr chat_id);
                                   (resolve_alias (Attachment.type a), Attachment.file a);
                                   ("caption", Attachment.title a)])) m) as [res H].
    eexists res, _. exact H.
Qed.

Lemma collect_sendable chat_id (atts : list Attachment.t) m :
  Forall (fun a => sendable a = true) atts ->
  exists results calls m',
    collect (send_attachment w chat_id) (map OAttachment atts) m = (Ret results, m')
    /\ map fst calls = map method_of atts
    /\ List.length results = List.length calls
    /\ history m' = history m ++ flat_map (paced_call (api_messages_pause (self m))) calls
    /\ api_messages_pause (self m') = api_messages_pause (self m)
    /\ api_messages_lock (self m') = api_messages_lock (self m).
Proof.
  intros Hall. revert m. induction Hall as [| a atts Ha _ IH]; intros m.
  - exists [], [], m. simpl. by rewrite app_nil_r.
  - destruct (send_attachment_ok chat_id a m Ha) as (res & data & Hsend).
    destruct (IH {| self := ensure_session (self m);
                    history := history m
                               ++ paced_call (api_messages_pause (self m))
                                    (method_of a, data) |})
      as (results & calls & m' & Hrest & Hnames & Hlen & Hhist & Hpause & Hlock).
    exists (res :: results), ((method_of a, data) :: calls), m'.
    simpl in *. rewrite (bind_Ret _ _ _ _ _ Hsend), (bind_Ret _ _ _ _ _ Hrest).
    rewrite pause_ensure_session in Hhist, Hpause.
    rewrite lock_ensure_session in Hlock.
    split; [done |]. split; [by rewrite Hnames |]. split; [by rewrite Hlen |].
    split; [| done]. rewrite Hhist. by rewrite <- app_assoc.
Qed.

End Healthy.

End Sending.

Lemma posts_paced pause calls : posts (flat_map (paced_call pause) calls) = calls.
Proof.
  induction calls as [| [method data] calls IH]; [done |].
  simpl. unfold posts in *. simpl. by rewrite IH.
Qed.


Lemma polling_world_accepts refused h method data :
  accepted (net (polling_world refused) h method data).
Proof.
  unfold accepted, polling_world. simpl.
  destruct (String.eqb method "getUpdates"); eexists _, _, _; by repeat split.
Qed.


(** The run of the witness, in full: three calls, each followed by its
    pause, between taking and releasing the lock. *)
Example text_and_two_attachments :
  execute_send (polling_world None) (PInt 5) (PStr "hello")
    (Many [OAttachment (new_attachment "doc");
           OAttachment (existing_attachment "image" "AgAD")]) []
    (boot started_adapter)
  = (Ret [PDict [("username", PStr "mybot")]; PDict [("username", PStr "mybot")];
          PDict [("username", PStr "mybot")]],
     {| self := started_adapter;
        history :=
          [EvAcquire;
           EvPost "sendMessage" [("chat_id", PStr "5"); ("text", PStr "hello")];
           debug_line; EvSleep (1 / 29);
           EvPost "sendDocument" [("chat_id", PStr "5"); ("document", PStr "content")];
           debug_line; EvSleep (1 / 29);
           EvPost "sendPhoto" [("chat_id", PStr "5"); ("photo", PStr "AgAD");
                               ("caption", PStr "caption")];
           debug_line; EvSleep (1 / 29);
           EvRelease] |}).
Proof. reflexivity. Qed.

Section Rejections.

Variable w : world.

Lemma collect_head_raises {A B} (body : A -> M B) x l m e m1 :
  body x m = (Raise e, m1) -> collect body (x :: l) m = (Raise e, m1).
Proof. intros H. simpl. by apply bind_Raise. Qed.

Lemma execute_send_Ret_inv target_id message attachments kwargs m results m' :
  execute_send w target_id message attachments kwargs m = (Ret results, m') ->
  api_messages_lock (self m) = Some false
  /\ exists m2,
       send_under_lock w (py_str target_id) message attachments kwargs (acquire m)
       = (Ret results, m2)
       /\ m' = release m2.
Proof.
  destruct (api_messages_lock (self m)) as [[|] |] eqn:Hlock.
  - unfold execute_send, async_with_lock. by rewrite Hlock.
  - rewrite (execute_send_run w _ _ _ _ _ Hlock).
    destruct (send_under_lock w (py_str target_id) message attachments kwargs
                (acquire m)) as [[r | e |] m2]; [| done | done].
    intros [= <- <-]. split; [done |]. by exists m2.
  - unfold execute_send, async_with_lock. by rewrite Hlock.
Qed.

Lemma send_under_lock_stops chat_id message kwargs before after bad m results m2 :
  Attachment.uploaded bad = false ->
  is_supported (resolve_alias (Attachment.type bad)) = false ->
  send_under_lock w chat_id message (Many before) kwargs m = (Ret results, m2) ->
  send_under_lock w chat_id message (Many (before ++ OAttachment bad :: after)) kwargs m
  = (Raise (unsupported bad), m2).
Proof.
  intros Hnew Hbad. unfold send_under_lock. intros H.
  apply bind_Ret_inv in H as (sent & ma & Hsent & H).
  rewrite (bind_Ret _ _ _ _ _ Hsent).
  unfold bind at 1, lift at 1 in H. simpl attachment_items in H. cbv iota beta in H.
  unfold bind at 1, lift at 1. simpl attachment_items. cbv iota beta.
  apply bind_Ret_inv in H as (more & mb & Hmore & H).
  injection H as <- <-.
  unfold bind at 1. rewrite collect_app. rewrite (bind_Ret _ _ _ _ _ Hmore).
  by rewrite (bind_Raise _ _ _ _ _
                (collect_head_raises _ _ after _ _ _
                   (send_attachment_unsupported w chat_id bad mb Hnew Hbad))).
Qed.

End Rejections.

(** C3, as the code has it.  The type of a new attachment is checked when
    its turn comes in the loop.  If sending the text and the attachments
    before it returns, then with the unsupported new attachment next in the
    list [execute_send] raises [ValueError] and ends in the very state the
    shorter send ends in: no call is made for the unsupported attachment or
    for any one after it, while the calls for the text and the attachments
    before it have been made.  With no text and the unsupported attachment
    first (or alone), the send takes the lock, raises and releases it, and
    makes no provider call. *)
Theorem unsupported_upload_stops_the_send (w : world) (m : machine)
    (target_id message : pyval) (kwargs : dict) (before after : list pyobj)
    (bad : Attachment.t) :
  Attachment.uploaded bad = false ->
  is_supported (resolve_alias (Attachment.type bad)) = false ->
  (forall results m',
     execute_send w target_id message (Many before) kwargs m = (Ret results, m') ->
     execute_send w target_id message (Many (before ++ OAttachment bad :: after)) kwargs m
     = (Raise (unsupported bad), m'))
  /\ (api_messages_lock (self m) = Some false ->
      truthy message = false ->
      execute_send w target_id message (Many (OAttachment bad :: after)) kwargs m
        = (Raise (unsupported bad), release (acquire m))
      /\ execute_send w target_id message (One (OAttachment bad)) kwargs m
        = (Raise (unsupported bad), release (acquire m))
      /\ posts (history (release (acquire m))) = posts (history m)).
Proof.
  intros Hnew Hbad. split.
  - intros results m' H.
    apply execute_send_Ret_inv in H as (Hlock & m2 & Hbody & ->).
    rewrite (execute_send_run w _ _ _ _ _ Hlock).
    by rewrite (send_under_lock_stops w _ _ _ _ _ _ _ _ _ Hnew Hbad Hbody).
  - intros Hlock Hquiet.
    assert (forall items,
              send_under_lock w (py_str target_id) message
                (Many (OAttachment bad :: items)) kwargs (acquire m)
              = (Raise (unsupported bad), acquire m)) as Hstop.
    { intros items. unfold send_under_lock.
      rewrite (bind_Ret _ _ _ _ _ (send_text_skip w _ _ _ _ Hquiet)).
      unfold bind at 1, lift at 1. simpl attachment_items. cbv iota beta.
      by rewrite (bind_Raise _ _ _ _ _
                    (collect_head_raises _ _ items _ _ _
                       (send_attachment_unsupported w _ bad _ Hnew Hbad))). }
    split; [| split].
    + by rewrite (execute_send_run w _ _ _ _ _ Hlock), Hstop.
    + rewrite (execute_send_run w _ _ _ _ _ Hlock).
      unfold send_under_lock in *. simpl attachment_items in *. by rewrite Hstop.
    + simpl. rewrite !posts_app. simpl. by rewrite !app_nil_r.
Qed.

Lemma unsupported_upload_stops_the_send_witness :
  let w := polling_world None in
  let m := boot started_adapter in
  let bad := new_attachment "location" in
  execute_send w (PInt 5) PNone
    (Many [OAttachment (existing_attachment "image" "AgAD"); OAttachment bad;
           OAttachment (new_attachment "doc")]) [] m
  = (Raise (unsupported bad),
     (execute_send w (PInt 5) PNone
        (Many [OAttachment (existing_attachment "image" "AgAD")]) [] m).2)
  /\ execute_send w (PInt 5) PNone (One (OAttachment bad)) [] m
     = (Raise (unsupported bad), release (acquire m)).
Proof.
  intros w m bad. split.
  - apply (proj1 (unsupported_upload_stops_the_send w m (PInt 5) PNone []
                    [OAttachment (existing_attachment "image" "AgAD")]
                    [OAttachment (new_attachment "doc")] bad eq_refl eq_refl)
             [PDict [("username", PStr "mybot")]]).
    reflexivity.
  - apply (proj2 (unsupported_upload_stops_the_send w m (PInt 5) PNone []
                    [] [] bad eq_refl eq_refl)); reflexivity.
Defined.

(** C3 as stated fails: with a text, the [sendMessage] call has been made
    when the unsupported attachment is refused. *)
Lemma unsupported_upload_after_text :
  let run := execute_send (polling_world None) (PInt 5) (PStr "hi")
               (Many [OAttachment (new_attachment "location")]) []
               (boot started_adapter) in
  run.1 = Raise (ValueError "Can't upload attachment 'location'")
  /\ posts (history run.2)
     = [("sendMessage", [("chat_id", PStr "5"); ("text", PStr "hi")])]
  /\ posts (history run.2) <> [].
Proof. by vm_compute. Qed.

(** C5, as the code has it.  An [int], a [str] or an [Attachment] passed on
    its own is sent exactly as the one-element list holding it is.  For an
    [Attachment] that is the send of one attachment; a bare id or path is
    then refused by the loop: the send never returns normally, and with a
    free gate and no text it raises [ValueError] ("Unexpected attachment")
    having made no provider call. *)
Theorem scalar_attachments_are_wrapped (w : world) (m : machine)
    (target_id message : pyval) (kwargs : dict) (o : pyobj) :
  is_scalar o = true ->
  execute_send w target_id message (One o) kwargs m
    = execute_send w target_id message (Many [o]) kwargs m
  /\ (forall v, o = OVal v ->
      (forall results m',
         execute_send w target_id message (One o) kwargs m <> (Ret results, m'))
      /\ (api_messages_lock (self m) = Some false ->
          truthy message = false ->
          execute_send w target_id message (One o) kwargs m
          = (Raise (unexpected v), release (acquire m)))).
Proof.
  intros Hscalar.
  assert (attachment_items (One o) = Ret [o]) as Hitems.
  { destruct o as [v | a]; [| done]. by destruct v. }
  assert (forall chat_id mm,
            send_under_lock w chat_id message (One o) kwargs mm
            = send_under_lock w chat_id message (Many [o]) kwargs mm) as Hsame.
  { intros chat_id mm. unfold send_under_lock. by rewrite Hitems. }
  split.
  - unfold execute_send, async_with_lock.
    destruct (api_messages_lock (self m)) as [[|] |]; [done | | done].
    by rewrite Hsame.
  - intros v ->. split.
    + intros results m' H.
      apply execute_send_Ret_inv in H as (_ & m2 & Hbody & _).
      rewrite Hsame in Hbody. unfold send_under_lock in Hbody.
      apply bind_Ret_inv in Hbody as (sent & ma & _ & Hbody).
      unfold bind, lift in Hbody. simpl in Hbody. discriminate Hbody.
    + intros Hlock Hquiet.
      rewrite (execute_send_run w _ _ _ _ _ Hlock), Hsame. unfold send_under_lock.
      rewrite (bind_Ret _ _ _ _ _ (send_text_skip w _ _ _ _ Hquiet)).
      reflexivity.
Qed.

Lemma scalar_attachments_are_wrapped_witness :
  let w := polling_world None in
  let m := boot started_adapter in
  is_scalar (OVal (PInt 42)) = true
  /\ execute_send w (PInt 5) PNone (One (OVal (PInt 42))) [] m
     = execute_send w (PInt 5) PNone (Many [OVal (PInt 42)]) [] m
  /\ execute_send w (PInt 5) PNone (One (OVal (PInt 42))) [] m
     = (Raise (unexpected (PInt 42)), release (acquire m)).
Proof.
  intros w m. split; [reflexivity |]. split.
  - apply (proj1 (scalar_attachments_are_wrapped w m (PInt 5) PNone []
                    (OVal (PInt 42)) eq_refl)).
  - apply (proj2 (proj2 (scalar_attachments_are_wrapped w m (PInt 5) PNone []
                           (OVal (PInt 42)) eq_refl) (PInt 42) eq_refl));
      reflexivity.
Defined.

(** C5 as stated fails: a bare id and a bare path are refused. *)
Lemma bare_id_or_path_refused :
  let send := fun o => execute_send (polling_world None) (PInt 5) PNone (One (OVal o))
                         [] (boot started_adapter) in
  (send (PInt 42)).1 = Raise (unexpected (PInt 42))
  /\ (send (PStr "photo.png")).1 = Raise (unexpected (PStr "photo.png"))
  /\ ~ (exists results, (send (PInt 42)).1 = Ret results)
  /\ ~ (exists results, (send (PStr "photo.png")).1 = Ret results).
Proof.
  split; [reflexivity |]. split; [reflexivity |].
  split; intros [results H]; vm_compute in H; discriminate H.
Qed.

(* ================================================================== *)
(** * Further properties: traces and attributes                        *)
(* ================================================================== *)


Section Traces.

Variable w : world.
Variable P : event -> Prop.

Lemma em_nothing {A} (c : M A) :
  (forall m, exists r, c m = (r, m)) -> emits P c.
Proof.
  intros Hc m r m' H. destruct (Hc m) as [r0 E]. rewrite E in H.
  injection H as _ <-. exists []. by rewrite app_nil_r.
Qed.

Lemma em_ret {A} (a : A) : emits P (ret a).
Proof. apply em_nothing. intros m. by eexists. Qed.

Lemma em_raise {A} e : emits P (@raise A e).
Proof. apply em_nothing. intros m. by eexists. Qed.

Lemma em_lift {A} (o : outcome A) : emits P (lift o).
Proof. apply em_nothing. intros m. by eexists. Qed.

Lemma em_gets {A} (f : Telegram -> A) : emits P (gets f).
Proof. apply em_nothing. intros m. by eexists. Qed.

Lemma em_modify f : emits P (modify f).
Proof. intros m r m' [= <- <-]. exists []. by rewrite app_nil_r. Qed.

Lemma em_emit ev : P ev -> emits P (emit ev).
Proof. intros Hev m r m' [= <- <-]. exists [ev]. split; [done | by constructor]. Qed.

Lemma em_logger level msg : P (EvLog level msg) -> emits P (logger level msg).
Proof. apply em_emit. Qed.

Lemma em_post method data : P (EvPost method data) -> emits P (post w method data).
Proof.
  intros Hev m r m' [= <- <-]. exists [EvPost method data].
  split; [done | by constructor].
Qed.

Lemma em_sleep d : P (EvSleep d) -> emits P (sleep w d).
Proof.
  intros Hev m r m' [= <- <-]. exists [EvSleep d]. split; [done | by constructor].
Qed.

Lemma em_submit u : P (EvSubmit u) -> emits P (submit_update w u).
Proof.
  intros Hev m r m' [= <- <-]. exists [EvSubmit u]. split; [done | by constructor].
Qed.

Lemma em_bind {A B} (c : M A) (k : A -> M B) :
  emits P c -> (forall a, emits P (k a)) -> emits P (bind c k).
Proof.
  intros Hc Hk m r m'. unfold bind.
  destruct (c m) as [[a | e |] m1] eqn:E.
  - intros H. destruct (Hc _ _ _ E) as (t1 & E1 & H1).
    destruct (Hk a _ _ _ H) as (t2 & E2 & H2).
    exists (t1 ++ t2). rewrite E2, E1.
    split; [by rewrite app_assoc | by apply Forall_app].
  - intros [= <- <-]. eapply Hc, E.
  - intros [= <- <-]. eapply Hc, E.
Qed.

Lemma em_try {A} (c : M A) (h : exn -> M A) :
  emits P c -> (forall e, emits P (h e)) -> emits P (try_except c h).
Proof.
  intros Hc Hh m r m'. unfold try_except.
  destruct (c m) as [[a | e |] m1] eqn:E.
  - intros [= <- <-]. eapply Hc, E.
  - intros H. destruct (Hc _ _ _ E) as (t1 & E1 & H1).
    destruct (Hh e _ _ _ H) as (t2 & E2 & H2).
    exists (t1 ++ t2). rewrite E2, E1.
    split; [by rewrite app_assoc | by apply Forall_app].
  - intros [= <- <-]. eapply Hc, E.
Qed.

Lemma em_if {A} (b : bool) (c1 c2 : M A) :
  emits P c1 -> emits P c2 -> emits P (if b then c1 else c2).
Proof. by destruct b. Qed.

Lemma em_for_each {A} (body : A -> M unit) items :
  (forall x, emits P (body x)) -> emits P (for_each body items).
Proof.
  intros Hb. induction items as [| x items IH]; simpl.
  - apply em_ret.
  - apply em_bind; [apply Hb | intros _; apply IH].
Qed.

Lemma em_collect {A B} (body : A -> M B) items :
  (forall x, emits P (body x)) -> emits P (collect body items).
Proof.
  intros Hb. induction items as [| x items IH]; simpl.
  - apply em_ret.
  - apply em_bind; [apply Hb | intros r].
    apply em_bind; [apply IH | intros rs; apply em_ret].
Qed.

Lemma em_async_with_lock {A} (body : M A) :
  P EvAcquire -> P EvRelease -> emits P body -> emits P (async_with_lock body).
Proof.
  intros Ha Hr Hb m r m'. unfold async_with_lock.
  destruct (api_messages_lock (self m)) as [[|] |].
  - intros [= <- <-]. exists []. by rewrite app_nil_r.
  - destruct (body (acquire m)) as [[a | e |] m2] eqn:E;
      destruct (Hb _ _ _ E) as (t & Ht & HP); simpl in Ht.
    + intros [= <- <-]. exists ([EvAcquire] ++ t ++ [EvRelease]). simpl.
      rewrite Ht, <- !app_assoc. split; [done |].
      constructor; [done |]. apply Forall_app. split; [done | by constructor].
    + intros [= <- <-]. exists ([EvAcquire] ++ t ++ [EvRelease]). simpl.
      rewrite Ht, <- !app_assoc. split; [done |].
      constructor; [done |]. apply Forall_app. split; [done | by constructor].
    + intros [= <- <-]. exists ([EvAcquire] ++ t). rewrite Ht, <- app_assoc.
      split; [done |]. by constructor.
  - intros [= <- <-]. exists []. by rewrite app_nil_r.
Qed.

End Traces.

Section Attributes.

Variable w : world.
Context {B : Type} (proj : Telegram -> B).

Lemma kp_nothing {A} (c : M A) :
  (forall m, exists r h, c m = (r, {| self := self m; history := h |})) ->
  keeps proj c.
Proof.
  intros Hc m r m' H. destruct (Hc m) as (r0 & h & E). rewrite E in H.
  by injection H as _ <-.
Qed.

Lemma kp_ret {A} (a : A) : keeps proj (ret a).
Proof. by intros m r m' [= <- <-]. Qed.

Lemma kp_raise {A} e : keeps proj (@raise A e).
Proof. by intros m r m' [= <- <-]. Qed.

Lemma kp_lift {A} (o : outcome A) : keeps proj (lift o).
Proof. by intros m r m' [= <- <-]. Qed.

Lemma kp_gets {A} (f : Telegram -> A) : keeps proj (gets f).
Proof. by intros m r m' [= <- <-]. Qed.

Lemma kp_emit ev : keeps proj (emit ev).
Proof. by intros m r m' [= <- <-]. Qed.

Lemma kp_logger level msg : keeps proj (logger level msg).
Proof. apply kp_emit. Qed.

Lemma kp_post method data : keeps proj (post w method data).
Proof. by intros m r m' [= <- <-]. Qed.

Lemma kp_sleep d : keeps proj (sleep w d).
Proof. by intros m r m' [= <- <-]. Qed.

Lemma kp_submit u : keeps proj (submit_update w u).
Proof. by intros m r m' [= <- <-]. Qed.

Lemma kp_modify f : (forall t, proj (f t) = proj t) -> keeps proj (modify f).
Proof. intros Hf m r m' [= <- <-]. apply Hf. Qed.

Lemma kp_bind {A C} (c : M A) (k : A -> M C) :
  keeps proj c -> (forall a, keeps proj (k a)) -> keeps proj (bind c k).
Proof.
  intros Hc Hk m r m'. unfold bind.
  destruct (c m) as [[a | e |] m1] eqn:E.
  - intros H. rewrite (Hk a _ _ _ H). eapply Hc, E.
  - intros [= <- <-]. eapply Hc, E.
  - intros [= <- <-]. eapply Hc, E.
Qed.

Lemma kp_try {A} (c : M A) (h : exn -> M A) :
  keeps proj c -> (forall e, keeps proj (h e)) -> keeps proj (try_except c h).
Proof.
  intros Hc Hh m r m'. unfold try_except.
  destruct (c m) as [[a | e |] m1] eqn:E.
  - intros [= <- <-]. eapply Hc, E.
  - intros H. rewrite (Hh e _ _ _ H). eapply Hc, E.
  - intros [= <- <-]. eapply Hc, E.
Qed.

Lemma kp_if {A} (b : bool) (c1 c2 : M A) :
  keeps proj c1 -> keeps proj c2 -> keeps proj (if b then c1 else c2).
Proof. by destruct b. Qed.

Lemma kp_for_each {A} (body : A -> M unit) items :
  (forall x, keeps proj (body x)) -> keeps proj (for_each body items).
Proof.
  intros Hb. induction items as [| x items IH]; simpl.
  - apply kp_ret.
  - apply kp_bind; [apply Hb | intros _; apply IH].
Qed.

Lemma kp_collect {A C} (body : A -> M C) items :
  (forall x, keeps proj (body x)) -> keeps proj (collect body items).
Proof.
  intros Hb. induction items as [| x items IH]; simpl.
  - apply kp_ret.
  - apply kp_bind; [apply Hb | intros r].
    apply kp_bind; [apply IH | intros rs; apply kp_ret].
Qed.

Lemma kp_async_with_lock {A} (body : M A) :
  (forall l t, proj (set_lock l t) = proj t) ->
  keeps proj body -> keeps proj (async_with_lock body).
Proof.
  intros Hl Hb m r m'. unfold async_with_lock.
  destruct (api_messages_lock (self m)) as [[|] |]; [by intros [= <- <-] | |
                                                     by intros [= <- <-]].
  destruct (body (acquire m)) as [[a | e |] m2] eqn:E;
    pose proof (Hb _ _ _ E) as H2; simpl in H2; rewrite Hl in H2;
    intros [= <- <-]; simpl; by rewrite ?Hl.
Qed.

End Attributes.

Ltac emits_step :=
  first
    [ apply em_ret | apply em_raise | apply em_lift | apply em_gets
    | apply em_modify | apply em_logger | apply em_post | apply em_sleep
    | apply em_submit | apply em_if
    | apply em_bind; [| intros ?]
    | apply em_for_each; intros ?
    | apply em_collect; intros ?
    | match goal with
      | |- emits _ (match ?x with _ => _ end) => destruct x
      end ].

Ltac keeps_step :=
  first
    [ apply kp_ret | apply kp_raise | apply kp_lift | apply kp_gets
    | apply kp_logger | apply kp_post | apply kp_sleep | apply kp_submit
    | apply kp_modify; intros ? | apply kp_if
    | apply kp_bind; [| intros ?]
    | apply kp_for_each; intros ?
    | apply kp_collect; intros ?
    | match goal with
      | |- keeps _ (match ?x with _ => _ end) => destruct x
      end ].

Section MethodTraces.

Variable w : world.
Variable P : event -> Prop.

Hypothesis Hdebug : P debug_line.

Lemma em_request method kwargs :
  P (EvPost method (without_none kwargs)) -> emits P (_request w method kwargs).
Proof. intros Hp. unfold _request. repeat emits_step; auto. Qed.

Lemma em_deliver update :
  (forall u, P (EvSubmit u)) -> emits P (deliver w update).
Proof. intros Hs. unfold deliver. repeat emits_step; auto. Qed.

Lemma em_acquire_updates :
  (forall data, P (EvPost "getUpdates" (without_none data))) ->
  P exception_line -> P (EvSleep 1) -> (forall u, P (EvSubmit u)) ->
  emits P (acquire_updates w).
Proof.
  intros Hpoll Hlog Hnap Hsub. unfold acquire_updates.
  apply em_bind; [apply em_gets | intros cursor].
  apply em_bind.
  - apply em_try.
    + apply em_bind; [by apply em_request | intros r; apply em_ret].
    + intros e. repeat emits_step; auto.
  - intros [response |]; [| apply em_ret].
    apply em_bind; [apply em_lift | intros items].
    apply em_for_each. intros u. by apply em_deliver.
Qed.

Lemma em_send_text chat_id message kwargs :
  (forall data, P (EvPost "sendMessage" (without_none data))) ->
  (forall d, P (EvSleep d)) ->
  emits P (send_text w chat_id message kwargs).
Proof.
  intros Hp Hs. unfold send_text. apply em_if; [| apply em_ret].
  apply em_bind; [by apply em_request | intros r].
  repeat emits_step; auto.
Qed.

Lemma em_send_attachment chat_id o :
  (forall a data, P (EvPost (method_of a) (without_none data))) ->
  (forall d, P (EvSleep d)) ->
  emits P (send_attachment w chat_id o).
Proof.
  intros Hp Hs. unfold send_attachment. destruct o as [v | a]; [apply em_raise |].
  apply em_if; [| apply em_if; [apply em_raise |]].
  - apply em_bind; [apply em_request, (Hp a) | intros r].
    repeat emits_step; auto.
  - apply em_bind; [apply em_request, (Hp a) | intros r].
    repeat emits_step; auto.
Qed.

Lemma em_execute_send target_id message attachments kwargs :
  (forall data, P (EvPost "sendMessage" (without_none data))) ->
  (forall a data, P (EvPost (method_of a) (without_none data))) ->
  (forall d, P (EvSleep d)) -> P EvAcquire -> P EvRelease ->
  emits P (execute_send w target_id message attachments kwargs).
Proof.
  intros Htext Hatt Hs Ha Hr. unfold execute_send.
  apply em_async_with_lock; [done | done |]. unfold send_under_lock.
  apply em_bind; [by apply em_send_text | intros sent].
  apply em_bind; [apply em_lift | intros items].
  apply em_bind; [| intros more; apply em_ret].
  apply em_collect. intros o. by apply em_send_attachment.
Qed.

Lemma em_on_start :
  P (EvPost "getMe" []) -> P (EvLog INFO login_format) ->
  emits P (on_start w).
Proof.
  intros Hp Hl. unfold on_start.
  apply em_bind; [by apply em_request | intros me].
  repeat emits_step; auto.
Qed.

End MethodTraces.

Section MethodAttributes.

Variable w : world.
Context {B : Type} (proj : Telegram -> B).

Hypothesis Hsession : forall b t, proj (set_session b t) = proj t.

Lemma kp_request method kwargs : keeps proj (_request w method kwargs).
Proof. unfold _request. repeat keeps_step; auto. Qed.

Lemma kp_execute_request method kwargs :
  keeps proj (execute_request w method kwargs).
Proof. apply kp_request. Qed.

Lemma kp_acquire_updates :
  (forall v t, proj (set_offset v t) = proj t) -> keeps proj (acquire_updates w).
Proof.
  intros Hoff. unfold acquire_updates.
  apply kp_bind; [apply kp_gets | intros cursor].
  apply kp_bind.
  - apply kp_try.
    + apply kp_bind; [apply kp_request | intros r; apply kp_ret].
    + intros e. repeat keeps_step; auto.
  - intros [response |]; [| apply kp_ret].
    apply kp_bind; [apply kp_lift | intros items].
    apply kp_for_each. intros u. unfold deliver. repeat keeps_step; auto.
Qed.

Lemma kp_send_under_lock chat_id message attachments kwargs :
  keeps proj (send_under_lock w chat_id message attachments kwargs).
Proof.
  pose proof kp_request as Hreq.
  unfold send_under_lock, send_text, send_attachment.
  repeat keeps_step; auto.
Qed.

Lemma kp_execute_send target_id message attachments kwargs :
  (forall l t, proj (set_lock l t) = proj t) ->
  keeps proj (execute_send w target_id message attachments kwargs).
Proof.
  intros Hl. unfold execute_send.
  apply kp_async_with_lock; [done | apply kp_send_under_lock].
Qed.

End MethodAttributes.

Section GateBlind.

Variable w : world.

Lemma gb_ret {A} (a : A) : gate_blind (ret a).
Proof. by intros l m. Qed.

Lemma gb_raise {A} e : gate_blind (@raise A e).
Proof. by intros l m. Qed.

Lemma gb_lift {A} (o : outcome A) : gate_blind (lift o).
Proof. by intros l m. Qed.

Lemma gb_gets {A} (f : Telegram -> A) :
  (forall l t, f (set_lock l t) = f t) -> gate_blind (gets f).
Proof. intros Hf l m. unfold gets. simpl. by rewrite Hf. Qed.

Lemma gb_modify f :
  (forall l t, f (set_lock l t) = set_lock l (f t)) -> gate_blind (modify f).
Proof. intros Hf l m. unfold modify, relock. simpl. by rewrite Hf. Qed.

Lemma gb_emit ev : gate_blind (emit ev).
Proof. by intros l m. Qed.

Lemma gb_post method data : gate_blind (post w method data).
Proof. by intros l m. Qed.

Lemma gb_sleep d : gate_blind (sleep w d).
Proof. by intros l m. Qed.

Lemma gb_submit u : gate_blind (submit_update w u).
Proof. by intros l m. Qed.

Lemma gb_bind {A B} (c : M A) (k : A -> M B) :
  gate_blind c -> (forall a, gate_blind (k a)) -> gate_blind (bind c k).
Proof.
  intros Hc Hk l m. unfold bind. rewrite Hc.
  destruct (c m) as [[a | e |] m1]; simpl; [apply Hk | done | done].
Qed.

Lemma gb_try {A} (c : M A) (h : exn -> M A) :
  gate_blind c -> (forall e, gate_blind (h e)) -> gate_blind (try_except c h).
Proof.
  intros Hc Hh l m. unfold try_except. rewrite Hc.
  destruct (c m) as [[a | e |] m1]; simpl; [done | apply Hh | done].
Qed.

Lemma gb_if {A} (b : bool) (c1 c2 : M A) :
  gate_blind c1 -> gate_blind c2 -> gate_blind (if b then c1 else c2).
Proof. by destruct b. Qed.

Lemma gb_for_each {A} (body : A -> M unit) items :
  (forall x, gate_blind (body x)) -> gate_blind (for_each body items).
Proof.
  intros Hb. induction items as [| x items IH]; simpl.
  - apply gb_ret.
  - apply gb_bind; [apply Hb | intros _; apply IH].
Qed.

Ltac blind_step :=
  first
    [ apply gb_ret | apply gb_raise | apply gb_lift
    | apply gb_gets; intros ? ?; reflexivity
    | apply gb_modify; intros ? ?; reflexivity
    | apply gb_emit | apply gb_post | apply gb_sleep | apply gb_submit
    | apply gb_if
    | apply gb_bind; [| intros ?]
    | apply gb_try; [| intros ?]
    | apply gb_for_each; intros ?
    | match goal with
      | |- gate_blind (match ?x with _ => _ end) => destruct x
      end ].

Lemma gb_request method kwargs : gate_blind (_request w method kwargs).
Proof. unfold _request, logger. repeat blind_step. Qed.

Lemma gb_acquire_updates : gate_blind (acquire_updates w).
Proof.
  pose proof gb_request as Hreq.
  unfold acquire_updates, deliver, logger. repeat blind_step; auto.
Qed.

End GateBlind.

Lemma no_null_post method data : no_null (EvPost method (without_none data)).
Proof.
  simpl. unfold without_none. apply Forall_forall. intros [k v] Hin.
  apply list_elem_of_In, filter_In in Hin as [_ Hv]. simpl in *.
  intros ->. discriminate Hv.
Qed.

Lemma send_method_not_poll s data : not_polling (EvPost (send_method_of s) data).
Proof. simpl. discriminate. Qed.

Section MoreAttributes.

Variable w : world.
Context {B : Type} (proj : Telegram -> B).

Lemma kp_on_start :
  (forall b t, proj (set_session b t) = proj t) ->
  (forall v t, proj (set_username v t) = proj t) ->
  (forall l t, proj (set_lock l t) = proj t) ->
  keeps proj (on_start w).
Proof.
  intros Hs Hu Hl. unfold on_start.
  apply kp_bind; [by apply kp_request | intros me].
  repeat keeps_step; auto.
Qed.

Lemma keeps_snd {A} (c : M A) m :
  keeps proj c -> proj (self (c m).2) = proj (self m).
Proof. intros Hc. destruct (c m) as [r m'] eqn:E. simpl. eapply Hc, E. Qed.

End MoreAttributes.

Lemma emits_snd {A} (P : event -> Prop) (c : M A) m :
  emits P c -> exists tail, history (c m).2 = history m ++ tail /\ Forall P tail.
Proof. intros Hc. destruct (c m) as [r m'] eqn:E. simpl. eapply Hc, E. Qed.

(** X1.  Polling and plain requests do not depend on the pacing gate: run
    with any value in the lock field (unset, free or held) they do exactly
    what they do otherwise and leave that value in place, and a polling
    iteration adds no acquire or release to the trace. *)
Theorem polling_ignores_the_gate (w : world) (l : option bool) (m : machine) :
  acquire_updates w (relock l m)
    = ((acquire_updates w m).1, relock l (acquire_updates w m).2)
  /\ (forall method kwargs,
        execute_request w method kwargs (relock l m)
        = ((execute_request w method kwargs m).1,
           relock l (execute_request w method kwargs m).2))
  /\ exists tail,
       history (acquire_updates w m).2 = history m ++ tail
       /\ Forall off_gate tail.
Proof.
  split; [apply gb_acquire_updates |]. split.
  - intros method kwargs. apply gb_request.
  - apply emits_snd, em_acquire_updates; by intros.
Qed.

(** X2.  Sending never interferes with polling: [execute_send] leaves the
    cursor and the username as they are, hands nothing to the sink and
    makes no [getUpdates] call, however it ends. *)
Theorem sending_leaves_polling_alone (w : world) (target_id message : pyval)
    (attachments : attachments_arg) (kwargs : dict) (m : machine) :
  let m' := (execute_send w target_id message attachments kwargs m).2 in
  offset (self m') = offset (self m)
  /\ username (self m') = username (self m)
  /\ submitted (history m') = submitted (history m)
  /\ exists tail, history m' = history m ++ tail /\ Forall not_polling tail.
Proof.
  intros m'. subst m'.
  split; [by apply keeps_snd, kp_execute_send |].
  split; [by apply keeps_snd, kp_execute_send |].
  assert (exists tail,
            history (execute_send w target_id message attachments kwargs m).2
            = history m ++ tail /\ Forall not_polling tail) as (tail & Ht & HP).
  { apply emits_snd, em_execute_send; try done.
    all: intros a data; apply send_method_not_poll. }
  split; [| by exists tail].
  rewrite Ht, submitted_app.
  assert (submitted tail = []) as ->; [| by rewrite app_nil_r].
  clear Ht. induction HP as [| ev tail Hev _ IH]; [done |].
  by destruct ev.
Qed.

(** X3.  The gate is given back whatever happens: when [execute_send] finds
    the lock free and is not left parked, it ends with the lock free again,
    whether it returns or raises, and what it adds to the trace is an
    acquire, events that are not of the gate, and a release. *)
Theorem gate_released_whatever_happens (w : world) (target_id message : pyval)
    (attachments : attachments_arg) (kwargs : dict) (m : machine) :
  api_messages_lock (self m) = Some false ->
  let run := execute_send w target_id message attachments kwargs m in
  run.1 <> Wait ->
  api_messages_lock (self run.2) = Some false
  /\ exists tail,
       history run.2 = history m ++ [EvAcquire] ++ tail ++ [EvRelease]
       /\ Forall off_gate tail.
Proof.
  intros Hlock run. subst run. rewrite (execute_send_run w _ _ _ _ _ Hlock).
  assert (emits off_gate
            (send_under_lock w (py_str target_id) message attachments kwargs)) as Hem.
  { unfold send_under_lock.
    apply em_bind; [apply em_send_text; by intros | intros sent].
    apply em_bind; [apply em_lift | intros items].
    apply em_bind; [| intros more; apply em_ret].
    apply em_collect. intros o. apply em_send_attachment; by intros. }
  destruct (send_under_lock w (py_str target_id) message attachments kwargs (acquire m))
    as [[rs | e |] m2] eqn:E; simpl; [| | done];
    destruct (Hem _ _ _ E) as (tail & Ht & HP); simpl in Ht;
    intros _; (split; [done |]); exists tail;
    (split; [| done]); rewrite Ht; by rewrite <- !app_assoc.
Qed.

Lemma gate_released_whatever_happens_witness :
  let run := execute_send (failing_world ClientError) (PInt 5) (PStr "hi")
               (Many []) [] (boot started_adapter) in
  run.1 = Raise ClientError
  /\ api_messages_lock (self run.2) = Some false.
Proof.
  intros run. split; [reflexivity |].
  apply (gate_released_whatever_happens (failing_world ClientError) (PInt 5)
           (PStr "hi") (Many []) [] (boot started_adapter) eq_refl).
  discriminate.
Defined.

(** X4.  No null parameter ever reaches the provider: in every trace the
    adapter can produce through [on_start], [acquire_updates],
    [execute_request] and [execute_send], the data of every provider call
    holds no [None] value. *)
Theorem no_null_parameter_is_sent (w : world) (t0 : Telegram) (m : machine) :
  reachable w t0 m ->
  forall method data,
    EvPost method data ∈ history m -> Forall (fun kv => kv.2 <> PNone) data.
Proof.
  intros Hr.
  assert (Forall no_null (history m)) as Hall.
  { induction Hr as [| m _ IH | m _ IH | m method kwargs _ IH
                    | m target_id message attachments kwargs _ IH].
    - constructor.
    - destruct (emits_snd no_null (on_start w) m) as (tail & -> & Ht).
      { apply em_on_start; try done. simpl. constructor. }
      by apply Forall_app.
    - destruct (emits_snd no_null (acquire_updates w) m) as (tail & -> & Ht).
      { apply em_acquire_updates; try done. intros data. apply no_null_post. }
      by apply Forall_app.
    - destruct (emits_snd no_null (execute_request w method kwargs) m)
        as (tail & -> & Ht).
      { apply em_request; [done | apply no_null_post]. }
      by apply Forall_app.
    - destruct (emits_snd no_null
                  (execute_send w target_id message attachments kwargs) m)
        as (tail & -> & Ht).
      { apply em_execute_send; try done; intros; apply no_null_post. }
      by apply Forall_app. }
  intros method data Hin. rewrite Forall_forall in Hall. exact (Hall _ Hin).
Qed.

Lemma no_null_parameter_is_sent_witness :
  let m := (execute_request (polling_world None) "sendChatAction"
              [("chat_id", PInt 5); ("action", PStr "typing"); ("thread", PNone)]
              (boot new_adapter)).2 in
  reachable (polling_world None) new_adapter m
  /\ history m = [EvPost "sendChatAction"
                    [("chat_id", PInt 5); ("action", PStr "typing")]; debug_line]
  /\ Forall (fun kv => kv.2 <> PNone)
       [("chat_id", PInt 5); ("action", PStr "typing")].
Proof.
  intros m.
  assert (reachable (polling_world None) new_adapter m) as Hr.
  { apply rc_request, rc_boot. }
  split; [exact Hr |]. split; [reflexivity |].
  apply (no_null_parameter_is_sent (polling_world None) new_adapter m Hr
           "sendChatAction").
  left.
Defined.

(** X5.  What the constructor sets stays: in every state the adapter built
    by [Telegram(token, messages_per_second, session)] can reach, the pause
    between paced calls is [1 / messages_per_second], the token is the one
    given and the adapter still knows whether the session is its own. *)
Theorem configuration_is_fixed (w : world) (token : string)
    (messages_per_second : Q) (supplied : bool) (t0 : Telegram) (m : machine) :
  __init__ token messages_per_second supplied [] = Ret t0 ->
  reachable w t0 m ->
  api_messages_pause (self m) = (1 / messages_per_second)%Q
  /\ api_token (self m) = token
  /\ _is_session_local (self m) = negb supplied.
Proof.
  intros Hinit Hr.
  assert (api_messages_pause (self m) = api_messages_pause t0
          /\ api_token (self m) = api_token t0
          /\ _is_session_local (self m) = _is_session_local t0) as (-> & -> & ->).
  { induction Hr as [| m _ (IH1 & IH2 & IH3) | m _ (IH1 & IH2 & IH3)
                    | m method kwargs _ (IH1 & IH2 & IH3)
                    | m target_id message attachments kwargs _ (IH1 & IH2 & IH3)].
    - done.
    - rewrite <- IH1, <- IH2, <- IH3.
      repeat split; by apply keeps_snd, kp_on_start.
    - rewrite <- IH1, <- IH2, <- IH3.
      repeat split; by apply keeps_snd, kp_acquire_updates.
    - rewrite <- IH1, <- IH2, <- IH3.
      repeat split; by apply keeps_snd, kp_execute_request.
    - rewrite <- IH1, <- IH2, <- IH3.
      repeat split; by apply keeps_snd, kp_execute_send. }
  unfold __init__ in Hinit.
  destruct (String.eqb token EmptyString); [done |].
  destruct (Qeq_bool messages_per_second 0); [done |].
  by injection Hinit as <-.
Qed.

Lemma configuration_is_fixed_witness :
  let w := polling_world None in
  let m := (execute_send w (PInt 5) (PStr "hi") (Many []) []
              (on_start w (boot new_adapter)).2).2 in
  api_messages_pause (self m) = (1 / 29)%Q
  /\ api_token (self m) = "token"
  /\ _is_session_local (self m) = negb false.
Proof.
  intros w m.
  apply (configuration_is_fixed w "token" 29 false new_adapter m eq_refl).
  apply rc_send, rc_start, rc_boot.
Defined.

Section Batches.

Variable w : world.

Lemma for_each_app {A} (body : A -> M unit) (l1 l2 : list A) m :
  for_each body (l1 ++ l2) m
  = bind (for_each body l1) (fun _ => for_each body l2) m.
Proof.
  revert m. induction l1 as [| x l1 IH]; intros m; [done |].
  simpl. unfold bind. destruct (body x m) as [[[] | e |] m1]; [| done | done].
  rewrite IH. reflexivity.
Qed.

Lemma deliver_batch (batch : list (pyval * update * Z)) m :
  (forall h u, sink w h u = Ret tt) ->
  Forall (deliverable (username (self m))) batch ->
  for_each (deliver w) (map (fun item => item.1.1) batch) m
  = (Ret tt, {| self := cursor_after batch (self m);
                history := history m ++ map (fun item => EvSubmit item.1.2) batch |}).
Proof.
  intros Hsink Hall. revert m Hall.
  induction batch as [| [[raw u] k] batch IH]; intros m Hall.
  - simpl. unfold ret, cursor_after. simpl. rewrite app_nil_r. by destruct m.
  - apply Forall_cons in Hall as [[Hu Hk] Hall]. simpl in Hu, Hk.
    change (for_each (deliver w) (map (fun item => item.1.1) ((raw, u, k) :: batch)) m)
      with (bind (deliver w raw)
              (fun _ => for_each (deliver w)
                          (map (fun item : pyval * update * Z => item.1.1) batch)) m).
    rewrite (bind_Ret _ _ _ _ _ (deliver_ok w raw u k m Hu (Hsink _ _) Hk)).
    rewrite IH by exact Hall. simpl. rewrite <- app_assoc. simpl.
    unfold cursor_after. destruct batch as [| item batch]; [done |].
    rewrite last_cons_cons.
    destruct (list.last (item :: batch)) as [item' |] eqn:E;
      [done | by apply last_None in E].
Qed.

Lemma deliver_unreadable update e m :
  _make_update (username (self m)) update = Raise e ->
  deliver w update m = (Raise e, m).
Proof. intros H. by rewrite deliver_run, H. Qed.

Lemma username_cursor_after batch t :
  username (cursor_after batch t) = username t.
Proof. unfold cursor_after. by destruct (list.last batch). Qed.

Lemma acquire_updates_first_event m :
  exists tail,
    history (acquire_updates w m).2
    = history m ++ EvPost "getUpdates" (without_none (poll_params m)) :: tail.
Proof.
  rewrite acquire_updates_run.
  destruct (_request w "getUpdates" (poll_params m) m) as [r m1] eqn:E.
  destruct (_request_frame w _ _ _ _ _ E) as (_ & t1 & Ht1 & _).
  assert (forall m2 t2, history m2 = history m1 ++ t2 ->
            exists tail,
              history m2
              = history m ++ EvPost "getUpdates" (without_none (poll_params m)) :: tail)
    as Hext.
  { intros m2 t2 ->. rewrite Ht1. exists (t1 ++ t2).
    by rewrite <- app_assoc. }
  destruct r as [response | e |].
  - destruct (py_iter response) as [items | e |];
      [| apply (Hext m1 []); by rewrite app_nil_r
       | apply (Hext m1 []); by rewrite app_nil_r].
    destruct (emits_snd (fun _ => True) (for_each (deliver w) items) m1)
      as (t2 & Ht2 & _).
    { apply em_for_each. intros u. by apply em_deliver. }
    by apply (Hext _ t2).
  - destruct (is_decode_or_transport e); [apply (Hext m1 []); by rewrite app_nil_r |].
    destruct (is_Exception e); [| apply (Hext m1 []); by rewrite app_nil_r].
    cbv zeta. destruct (nap w _ 1);
      apply (Hext _ [exception_line; EvSleep 1]); cbn [snd history];
      by rewrite <- app_assoc.
  - apply (Hext m1 []). by rewrite app_nil_r.
Qed.

End Batches.

(** X6.  An update the normaliser cannot read stops the batch where it
    stands.  When the updates before it are delivered and [_make_update]
    raises on it, [acquire_updates] raises that exception: the events before
    it have been handed to the sink, the cursor is one past the last of them
    (unmoved if there is none), and neither the unreadable update nor any
    update after it is delivered or skipped. *)
Theorem unreadable_update_stops_the_batch (w : world) (m m1 : machine)
    (good : list (pyval * update * Z)) (bad : pyval) (rest : list pyval) (e : exn) :
  _request w "getUpdates" (poll_params m) m
    = (Ret (PList (map (fun item => item.1.1) good ++ bad :: rest)), m1) ->
  (forall h u, sink w h u = Ret tt) ->
  Forall (deliverable (username (self m))) good ->
  _make_update (username (self m)) bad = Raise e ->
  acquire_updates w m
  = (Raise e, {| self := cursor_after good (self m1);
                 history := history m1 ++ map (fun item => EvSubmit item.1.2) good |}).
Proof.
  intros Hreq Hsink Hgood Hbad.
  destruct (_request_delivers_nothing w _ _ _ _ _ Hreq) as (_ & Hname & _).
  rewrite <- Hname in Hgood, Hbad.
  rewrite acquire_updates_run, Hreq. simpl py_iter. cbv iota.
  rewrite for_each_app.
  rewrite (bind_Ret _ _ _ _ _ (deliver_batch w good m1 Hsink Hgood)).
  change (for_each (deliver w) (bad :: rest))
    with (bind (deliver w bad) (fun _ => for_each (deliver w) rest)).
  apply bind_Raise, deliver_unreadable. simpl.
  by rewrite username_cursor_after.
Qed.

Lemma unreadable_update_stops_the_batch_witness :
  let w := batch_world [raw_event 10; senderless_message 11; raw_event 12] in
  acquire_updates w (boot new_adapter)
  = (Raise (KeyError "from"),
     {| self := set_offset (PInt 11) (set_session true new_adapter);
        history := [EvPost "getUpdates" (poll_params (boot new_adapter)); debug_line;
                    EvSubmit (event_of 10)] |}).
Proof.
  intros w.
  apply (unreadable_update_stops_the_batch w (boot new_adapter) polled
           [(raw_event 10, event_of 10, 10)] (senderless_message 11)
           [raw_event 12] (KeyError "from")).
  - reflexivity.
  - reflexivity.
  - repeat constructor.
  - reflexivity.
Defined.

(** X7.  The next poll resumes behind the last delivered update.  After an
    iteration whose batch was delivered in full, the cursor is one past the
    last id of the batch (unmoved for an empty batch), and the next
    iteration starts with a [getUpdates] call that carries that cursor as
    [offset] and 25 as [timeout]. *)
Theorem next_poll_resumes_behind_the_batch (w : world) (m m1 : machine)
    (batch : list (pyval * update * Z)) :
  _request w "getUpdates" (poll_params m) m
    = (Ret (PList (map (fun item => item.1.1) batch)), m1) ->
  (forall h u, sink w h u = Ret tt) ->
  Forall (deliverable (username (self m))) batch ->
  let m' := (acquire_updates w m).2 in
  (acquire_updates w m).1 = Ret tt
  /\ self m' = cursor_after batch (self m1)
  /\ poll_params m' = [("timeout", PInt 25); ("offset", offset (cursor_after batch (self m)))]
  /\ exists tail,
       history (acquire_updates w m').2
       = history m' ++ EvPost "getUpdates" (without_none (poll_params m')) :: tail.
Proof.
  intros Hreq Hsink Hall m'.
  destruct (_request_delivers_nothing w _ _ _ _ _ Hreq) as (Hoff & Hname & _).
  rewrite <- Hname in Hall.
  assert (acquire_updates w m
          = (Ret tt, {| self := cursor_after batch (self m1);
                        history := history m1
                                   ++ map (fun item => EvSubmit item.1.2) batch |}))
    as Hrun.
  { rewrite acquire_updates_run, Hreq. simpl py_iter. cbv iota.
    by apply deliver_batch. }
  subst m'. rewrite Hrun. simpl.
  split; [done |]. split; [done |]. split.
  - unfold poll_params, cursor_after. simpl.
    destruct (list.last batch); simpl; [done | by rewrite Hoff].
  - apply acquire_updates_first_event.
Qed.

Lemma next_poll_resumes_behind_the_batch_witness :
  let w := polling_world None in
  let m' := (acquire_updates w (boot new_adapter)).2 in
  (acquire_updates w (boot new_adapter)).1 = Ret tt
  /\ poll_params m' = [("timeout", PInt 25); ("offset", PInt 13)].
Proof.
  intros w m'.
  destruct (next_poll_resumes_behind_the_batch w (boot new_adapter) polled
              [(raw_event 10, event_of 10, 10); (raw_event 11, event_of 11, 11);
               (raw_event 12, event_of 12, 12)]
              eq_refl ltac:(reflexivity) ltac:(repeat constructor))
    as (H1 & _ & H3 & _).
  split; [exact H1 | exact H3].
Defined.

(** X8.  A refused poll does not stop the polling loop.  When the provider
    answers [getUpdates] with an envelope whose [ok] is missing or false,
    the iteration logs the exception, pauses one second and returns; the
    [RequestException] does not reach the caller, nothing is delivered and
    the cursor stays. *)
Theorem refused_poll_is_logged_not_raised (w : world) (m : machine)
    (env ok : pyval) :
  net w (history m) "getUpdates" (without_none (poll_params m)) = Ret env ->
  py_get env "ok" PNone = Ret ok ->
  truthy ok = false ->
  nap w (history m ++ [EvPost "getUpdates" (without_none (poll_params m));
                       exception_line]) 1 = Ret tt ->
  acquire_updates w m
  = (Ret tt,
     {| self := ensure_session (self m);
        history := history m ++ [EvPost "getUpdates" (without_none (poll_params m));
                                 exception_line; EvSleep 1] |})
  /\ offset (ensure_session (self m)) = offset (self m).
Proof.
  intros Hnet Hok Hfalse Hnap. split; [| apply offset_ensure_session].
  rewrite acquire_updates_run, _request_run. cbv zeta.
  rewrite Hnet, Hok, Hfalse. cbn [is_decode_or_transport is_Exception self history].
  rewrite <- app_assoc. cbn [app]. rewrite Hnap. by rewrite <- app_assoc.
Qed.

Lemma refused_poll_is_logged_not_raised_witness :
  acquire_updates (refusing_world unauthorized) (boot new_adapter)
  = (Ret tt,
     {| self := set_session true new_adapter;
        history := [EvPost "getUpdates" [("timeout", PInt 25); ("offset", PInt 0)];
                    exception_line; EvSleep 1] |}).
Proof.
  apply (proj1 (refused_poll_is_logged_not_raised (refusing_world unauthorized)
                  (boot new_adapter) unauthorized (PBool false)
                  eq_refl eq_refl eq_refl eq_refl)).
Defined.

(* ================================================================== *)
(** * Further properties: the normaliser                               *)
(* ================================================================== *)

Section Strings.

Lemma append_nil_l (b : string) : EmptyString +:+ b = b.
Proof. reflexivity. Qed.

Lemma append_cons (c : ascii) (a b : string) :
  String c a +:+ b = String c (a +:+ b).
Proof. reflexivity. Qed.

Ltac unfold_append := rewrite ?append_cons, ?append_nil_l.

Lemma append_assoc (a b c : string) : (a +:+ b) +:+ c = a +:+ (b +:+ c).
Proof. induction a as [| x a IH]; unfold_append; [done | by rewrite IH]. Qed.

Lemma append_nil_r (a : string) : a +:+ EmptyString = a.
Proof. induction a as [| x a IH]; unfold_append; [done | by rewrite IH]. Qed.

Lemma length_append (a b : string) :
  String.length (a +:+ b) = (String.length a + String.length b)%nat.
Proof.
  induction a as [| x a IH]; unfold_append; simpl; [done | by rewrite IH].
Qed.

Lemma substring_0_all (n : nat) (s : string) :
  (String.length s <= n)%nat -> substring 0 n s = s.
Proof.
  revert n. induction s as [| c s IH]; intros [| n] H; simpl in *; try done.
  - lia.
  - rewrite IH; [done | lia].
Qed.

Lemma substring_split (a n : nat) (s : string) :
  substring 0 a s +:+ substring a n s = substring 0 (a + n) s.
Proof.
  revert a n. induction s as [| c s IH]; intros [| a] n; simpl; unfold_append.
  - by destruct n.
  - by destruct (a + n)%nat.
  - done.
  - by rewrite IH.
Qed.

Lemma substring_append_skip (p q : string) (n : nat) :
  substring (String.length p) n (p +:+ q) = substring 0 n q.
Proof. induction p as [| c p IH]; unfold_append; simpl; [done | exact IH]. Qed.

Lemma substring_append_take (p q : string) :
  substring 0 (String.length p) (p +:+ q) = p.
Proof.
  induction p as [| c p IH]; unfold_append; simpl; [by destruct q | by rewrite IH].
Qed.

Lemma prefix_append (t q : string) : String.prefix t (t +:+ q) = true.
Proof.
  induction t as [| c t IH]; unfold_append; simpl; [by destruct q |].
  by destruct (ascii_dec c c).
Qed.

Lemma is_substring_here (t s : string) :
  String.prefix t s = true -> is_substring t s = true.
Proof. intros H. destruct s; simpl in *; by rewrite H. Qed.

Lemma is_substring_app (p t q : string) : is_substring t (p +:+ t +:+ q) = true.
Proof.
  induction p as [| c p IH]; unfold_append.
  - apply is_substring_here, prefix_append.
  - simpl. rewrite IH. apply orb_true_r.
Qed.

Lemma endswith_inv (c t : string) :
  endswith c t = true ->
  c = substring 0 (String.length c - String.length t) c +:+ t.
Proof.
  unfold endswith. intros H. apply andb_true_iff in H as [Hle Heq].
  apply Nat.leb_le in Hle. apply String.eqb_eq in Heq.
  transitivity
    (substring 0 (String.length c - String.length t) c
     +:+ substring (String.length c - String.length t) (String.length t) c);
    [| by rewrite Heq].
  rewrite substring_split, substring_0_all; [done | lia].
Qed.

Lemma endswith_app (p t : string) : endswith (p +:+ t) t = true.
Proof.
  unfold endswith. rewrite length_append. apply andb_true_iff. split.
  - apply Nat.leb_le. lia.
  - replace (String.length p + String.length t - String.length t)%nat
      with (String.length p) by lia.
    rewrite substring_append_skip, substring_0_all by lia. apply String.eqb_refl.
Qed.

(** A chunk of [s] that ends with [t] shows that [t] occurs in [s]. *)
Lemma endswith_chunk (s t : string) (a n : nat) :
  endswith (substring a n s) t = true -> is_substring t s = true.
Proof.
  intros H. apply endswith_inv in H.
  assert (s = substring 0 a s +:+ substring a n s
              +:+ substring (a + n) (String.length s) s) as Hs.
  { rewrite <- append_assoc, substring_split, substring_split.
    rewrite substring_0_all; [done | lia]. }
  rewrite Hs, H. rewrite append_assoc.
  rewrite <- (append_assoc (substring 0 a s)). apply is_substring_app.
Qed.

End Strings.

Section Scrubbing.

Lemma py_slice_between (s : string) (a b : Z) :
  0 <= a -> 0 <= b ->
  py_slice (PStr s) (PInt a) (PInt b)
  = Ret (PStr (substring (str_index s a) (str_index s b - str_index s a) s)).
Proof.
  intros Ha Hb. unfold py_slice, clamp, str_index. simpl.
  destruct (Z.ltb_spec a 0) as [? | _]; [lia |].
  destruct (Z.ltb_spec b 0) as [? | _]; [lia |].
  do 3 f_equal. lia.
Qed.

Lemma py_slice_from (s : string) (a : Z) :
  0 <= a ->
  py_slice (PStr s) (PInt a) PNone
  = Ret (PStr (substring (str_index s a) (String.length s - str_index s a) s)).
Proof.
  intros Ha. unfold py_slice, clamp, str_index. simpl.
  destruct (Z.ltb_spec a 0) as [? | _]; [lia |].
  destruct (Z.ltb_spec (Z.of_nat (String.length s)) 0) as [? | _]; [lia |].
  do 3 f_equal. lia.
Qed.

Lemma py_slice_drop_last (s : string) (k : nat) :
  (0 < k)%nat ->
  py_slice (PStr s) PNone (PInt (- Z.of_nat k))
  = Ret (PStr (substring 0 (String.length s - k) s)).
Proof.
  intros Hk. unfold py_slice, clamp. simpl.
  destruct (Z.ltb_spec (- Z.of_nat k) 0) as [_ | ?]; [| lia].
  destruct (Z.ltb_spec 0 0) as [? | _]; [lia |].
  do 3 f_equal; lia.
Qed.

Lemma str_index_mono (s : string) (a b : Z) :
  a <= b -> (str_index s a <= str_index s b)%nat.
Proof. unfold str_index. lia. Qed.

(** The entities come out of [sorted] as they went in. *)
Lemma spans_sorted (bound : Z) (entities : list pyval) :
  spans_in_order bound entities = true ->
  mapM (fun x => k <~ py_getitem x "offset" ; Ret (k, x)) entities
    = Ret (map (fun e => (offset_key e, e)) entities)
  /\ sort_by_key (map (fun e => (offset_key e, e)) entities)
     = Ret (map (fun e => (offset_key e, e)) entities)
  /\ Forall (fun kx => exists z, kx.1 = PInt z /\ bound <= z)
       (map (fun e => (offset_key e, e)) entities).
Proof.
  revert bound. induction entities as [| e rest IH]; intros bound H; [done |].
  simpl in H. destruct e as [| | | | | d]; try done.
  destruct (dict_lookup "type" d) as [ty |] eqn:Ety; [| done].
  destruct (dict_lookup "offset" d) as [[| | off | | |] |] eqn:Eoff; try done.
  destruct (dict_lookup "length" d) as [[| | len | | |] |] eqn:Elen; try done.
  apply andb_true_iff in H as [H Hrest]. apply andb_true_iff in H as [Hb Hl].
  apply Z.leb_le in Hb, Hl.
  destruct (IH _ Hrest) as (Hkeys & Hsort & Hall).
  assert (offset_key (PDict d) = PInt off) as Hk by (simpl; by rewrite Eoff).
  change (map (fun e => (offset_key e, e)) (PDict d :: rest))
    with ((offset_key (PDict d), PDict d) :: map (fun e => (offset_key e, e)) rest).
  rewrite Hk. split; [| split].
  - cbn [mapM py_getitem]. rewrite Eoff. cbn [obind]. by rewrite Hkeys.
  - cbn [sort_by_key]. rewrite Hsort. cbn [obind].
    destruct (map (fun e => (offset_key e, e)) rest) as [| ky l]; [done |].
    apply Forall_cons in Hall as [(z & Hz & Hle) _].
    cbn [insert_by_key fst]. rewrite Hz. cbn [py_lt as_int obind].
    destruct (Z.ltb_spec z off) as [? | _]; [lia | done].
  - constructor; [by exists off |].
    eapply Forall_impl; [exact Hall |]. intros kx (z & Hz & Hle).
    exists z. split; [done | lia].
Qed.

Lemma py_sorted_spans (bound : Z) (entities : list pyval) :
  spans_in_order bound entities = true ->
  py_sorted (fun entity => py_getitem entity "offset") entities = Ret entities.
Proof.
  intros H. destruct (spans_sorted _ _ H) as (Hkeys & Hsort & _).
  unfold py_sorted. rewrite Hkeys. simpl. rewrite Hsort. simpl.
  rewrite map_map. simpl. by rewrite map_id.
Qed.

(** While no chunk ends with the mention, the loop of [_extract_text] only
    copies the text it walks over. *)
Lemma scrub_copies (name : pyval) (s : string) (entities : list pyval)
    (bound l : Z) :
  is_substring ("@" +:+ py_str name) s = false ->
  spans_in_order bound entities = true ->
  0 <= l <= bound ->
  exists l',
    0 <= l'
    /\ foldM (scrub_entity name (PStr s)) entities
         (PStr (substring 0 (str_index s l) s), PInt l, [])
       = Ret (PStr (substring 0 (str_index s l') s), PInt l', []).
Proof.
  intros Hno. revert bound l.
  induction entities as [| e rest IH]; intros bound l H Hl.
  - exists l. split; [lia | done].
  - simpl in H. destruct e as [| | | | | d]; try done.
    destruct (dict_lookup "type" d) as [ty |] eqn:Ety; [| done].
    destruct (dict_lookup "offset" d) as [[| | off | | |] |] eqn:Eoff; try done.
    destruct (dict_lookup "length" d) as [[| | len | | |] |] eqn:Elen; try done.
    apply andb_true_iff in H as [H Hrest]. apply andb_true_iff in H as [Hb Hlen].
    apply Z.leb_le in Hb, Hlen.
    cbn [foldM]. unfold scrub_entity at 1. cbn [py_getitem]. rewrite Ety.
    cbn [obind]. destruct (eq_str ty "bot_command").
    + rewrite Eoff, Elen. cbn [obind py_add as_int].
      rewrite py_slice_between by lia. cbn [obind py_endswith].
      destruct (endswith _ ("@" +:+ py_str name)) eqn:Hend.
      { apply endswith_chunk in Hend. congruence. }
      cbn [py_add as_int obind]. rewrite substring_split.
      replace (str_index s l + (str_index s (off + len) - str_index s l))%nat
        with (str_index s (off + len))
        by (pose proof (str_index_mono s l (off + len)); lia).
      apply (IH (off + len) (off + len)); [done | lia].
    + cbn [obind]. apply (IH (off + len) l); [done | lia].
Qed.

End Scrubbing.

(** X9.  Text that does not mention the bot comes out as it went in.  For a
    message whose entities are in order (each a dict with a type, an integer
    offset not before the end of the previous one and a non-negative
    length), however many of them are bot commands: if "@" followed by the
    username does not occur in the text, [_extract_text] returns the text
    unchanged and empty metadata. *)
Theorem text_without_mention_is_untouched (name update : pyval) (message : dict)
    (s : string) (entities : list pyval) :
  py_getitem update "message" = Ret (PDict message) ->
  py_get (PDict message) "text" (PStr EmptyString) = Ret (PStr s) ->
  py_get (PDict message) "entities" (PList []) = Ret (PList entities) ->
  spans_in_order 0 entities = true ->
  is_substring ("@" +:+ py_str name) s = false ->
  _extract_text name update = Ret (PStr s, []).
Proof.
  intros Hmsg Htext Hents Hspans Hno. unfold _extract_text.
  rewrite Hmsg. cbn [obind]. rewrite Hents. cbn [obind].
  destruct entities as [| e rest]; [by rewrite Htext |].
  cbn [truthy negb]. rewrite Htext. cbn [obind py_iter].
  rewrite (py_sorted_spans 0 _ Hspans). cbn [obind].
  destruct (scrub_copies name s (e :: rest) 0 0 Hno Hspans ltac:(lia))
    as (l' & Hl' & Hfold).
  assert (substring 0 (str_index s 0) s = EmptyString) as Hz.
  { replace (str_index s 0) with 0%nat by (unfold str_index; lia). by destruct s. }
  rewrite Hz in Hfold. rewrite Hfold. cbn [obind]. rewrite py_slice_from by lia. cbn [obind py_add as_int].
  rewrite substring_split, substring_0_all; [done |].
  unfold str_index. lia.
Qed.

Lemma text_without_mention_is_untouched_witness :
  _extract_text (PStr "mybot") (PDict [("update_id", PInt 10); ("message", PDict help_message)])
  = Ret (PStr "/help me please", []).
Proof.
  apply (text_without_mention_is_untouched (PStr "mybot") _ help_message
           "/help me please"
           [PDict [("type", PStr "bot_command"); ("offset", PInt 0); ("length", PInt 5)];
            PDict [("type", PStr "bold"); ("offset", PInt 9); ("length", PInt 6)]]);
    reflexivity.
Defined.

(** X10.  A command that names this bot loses the mention and nothing else.
    For a text [pre ++ cmd ++ "@name" ++ rest] whose one entity is a bot
    command that ends right after the mention, where [name] is what the
    adapter holds as username, [_extract_text] returns [pre ++ cmd ++ rest]
    and sets [bot_mentioned]. *)
Theorem own_mention_is_cut_out (name update : pyval) (message : dict)
    (pre cmd rest : string) (entity : dict) :
  let mention := "@" +:+ py_str name in
  py_getitem update "message" = Ret (PDict message) ->
  py_get (PDict message) "text" (PStr EmptyString)
    = Ret (PStr (pre +:+ cmd +:+ mention +:+ rest)) ->
  py_get (PDict message) "entities" (PList []) = Ret (PList [PDict entity]) ->
  dict_lookup "type" entity = Some (PStr "bot_command") ->
  dict_lookup "offset" entity = Some (PInt (Z.of_nat (String.length pre))) ->
  dict_lookup "length" entity
    = Some (PInt (Z.of_nat (String.length cmd + String.length mention))) ->
  _extract_text name update
  = Ret (PStr (pre +:+ cmd +:+ rest), [("bot_mentioned", PBool true)]).
Proof.
  intros mention Hmsg Htext Hents Hty Hoff Hlen. unfold _extract_text.
  rewrite Hmsg. cbn [obind]. rewrite Hents. cbn [obind truthy negb].
  rewrite Htext. cbn [obind py_iter].
  unfold py_sorted. cbn [mapM py_getitem]. rewrite Hoff.
  cbn [obind sort_by_key insert_by_key map snd foldM].
  unfold scrub_entity. cbn [py_getitem]. rewrite Hty, Hoff, Hlen.
  cbn [obind eq_str py_add as_int]. rewrite String.eqb_refl.
  set (text := pre +:+ cmd +:+ mention +:+ rest).
  set (head := pre +:+ cmd +:+ mention).
  assert (text = head +:+ rest) as Htxt.
  { unfold text, head. by rewrite !append_assoc. }
  assert (String.length head
          = (String.length pre + (String.length cmd + String.length mention))%nat)
    as Hhead.
  { unfold head. by rewrite !length_append. }
  assert (str_index text
            (Z.of_nat (String.length pre)
             + Z.of_nat (String.length cmd + String.length mention))
          = String.length head) as Hidx.
  { unfold str_index. rewrite Htxt, length_append. lia. }
  assert (str_index text 0 = 0%nat) as Hzero by (unfold str_index; lia).
  rewrite py_slice_between by lia. rewrite Hidx, Hzero, Nat.sub_0_r.
  rewrite Htxt at 1. rewrite substring_append_take.
  cbn [obind py_endswith]. fold mention.
  assert (head = (pre +:+ cmd) +:+ mention) as Hh.
  { unfold head. by rewrite append_assoc. }
  rewrite Hh at 1. rewrite endswith_app. cbn [obind].
  rewrite py_slice_drop_last by (unfold mention; simpl; lia).
  rewrite Hh at 1 2. rewrite length_append.
  replace (String.length (pre +:+ cmd) + String.length mention
           - String.length mention)%nat
    with (String.length (pre +:+ cmd)) by lia.
  rewrite substring_append_take. cbn [obind py_add as_int].
  rewrite py_slice_from by lia. rewrite Hidx. cbn [obind].
  rewrite Htxt at 1 2. rewrite substring_append_skip, length_append.
  replace (String.length head + String.length rest - String.length head)%nat
    with (String.length rest) by lia.
  rewrite substring_0_all by lia. cbn [py_add as_int obind].
  by rewrite append_nil_l, append_assoc.
Qed.

Lemma own_mention_is_cut_out_witness :
  _extract_text (PStr "mybot")
    (PDict [("message", PDict (mention_message "run " "/start" "@mybot" " now"))])
  = Ret (PStr "run /start now", [("bot_mentioned", PBool true)]).
Proof.
  apply (own_mention_is_cut_out (PStr "mybot") _
           (mention_message "run " "/start" "@mybot" " now")
           "run " "/start" " now"
           [("type", PStr "bot_command"); ("offset", PInt 4); ("length", PInt 12)]);
    reflexivity.
Defined.

Section AttachmentShape.

Lemma supported_cases (t : string) :
  is_supported t = true ->
  t = "audio" \/ t = "document" \/ t = "photo" \/ t = "sticker" \/ t = "video"
  \/ t = "voice".
Proof.
  unfold is_supported, SUPPORTED_ATTACHMENT_TYPES. intros H.
  apply bool_decide_eq_true in H. rewrite !elem_of_cons, elem_of_nil in H. tauto.
Qed.

Lemma unsupported_not_handled (t : string) :
  String.eqb t "photo" = false -> String.eqb t "audio" = false ->
  String.eqb t "document" = false -> String.eqb t "sticker" = false ->
  String.eqb t "voice" = false -> String.eqb t "video" = false ->
  is_supported t = false.
Proof.
  rewrite !String.eqb_neq. intros. unfold is_supported, SUPPORTED_ATTACHMENT_TYPES.
  apply bool_decide_eq_false. rewrite !elem_of_cons, elem_of_nil. tauto.
Qed.

Lemma make_attachment_shape (d : pyval) (t : string) (a : Attachment.t) :
  _make_attachment d t = Ret a ->
  Attachment.raw a = d
  /\ Attachment.type a = canonical_type t
  /\ (if is_supported t
      then Attachment.getter a = Some (Attachment.id a)
      else Attachment.id a = PNone /\ Attachment.getter a = None
           /\ Attachment.title a = PNone /\ Attachment.file_name a = PNone).
Proof.
  unfold _make_attachment, canonical_type. intros H.
  apply obind_Ret_inv in H as (has_id & _ & H).
  apply obind_Ret_inv in H as (id & _ & H).
  destruct (String.eqb t "photo") eqn:E1.
  { apply String.eqb_eq in E1 as ->.
    repeat (apply obind_Ret_inv in H as (? & _ & H)). by injection H as <-. }
  destruct (String.eqb t "audio") eqn:E2.
  { apply String.eqb_eq in E2 as ->.
    repeat (apply obind_Ret_inv in H as (? & _ & H)). by injection H as <-. }
  destruct (String.eqb t "document") eqn:E3.
  { apply String.eqb_eq in E3 as ->.
    repeat (apply obind_Ret_inv in H as (? & _ & H)). by injection H as <-. }
  destruct (String.eqb t "sticker") eqn:E4.
  { apply String.eqb_eq in E4 as ->. by injection H as <-. }
  destruct (String.eqb t "voice") eqn:E5.
  { apply String.eqb_eq in E5 as ->. by injection H as <-. }
  destruct (String.eqb t "video") eqn:E6.
  { apply String.eqb_eq in E6 as ->. by injection H as <-. }
  rewrite (unsupported_not_handled t E1 E2 E3 E4 E5 E6).
  by injection H as <-.
Qed.

Lemma collected_types (raw_update : pyval) (message : dict) (keys : list string)
    (acc atts : list Attachment.t) :
  py_getitem raw_update "message" = Ret (PDict message) ->
  foldM (collect_attachment raw_update) keys acc = Ret atts ->
  map Attachment.type atts
  = map Attachment.type acc
    ++ map canonical_type (List.filter (fun key => dict_has key message) keys).
Proof.
  intros Hmsg. revert acc. induction keys as [| key keys IH]; intros acc H.
  - injection H as <-. by rewrite app_nil_r.
  - cbn [foldM] in H. apply obind_Ret_inv in H as (acc' & Hstep & H).
    apply IH in H. rewrite H. clear H IH.
    unfold collect_attachment in Hstep. rewrite Hmsg in Hstep.
    cbn [obind py_contains] in Hstep. cbn [List.filter].
    destruct (dict_has key message).
    + apply obind_Ret_inv in Hstep as (d & _ & Hstep).
      apply obind_Ret_inv in Hstep as (a & Ha & Hstep).
      injection Hstep as <-. apply make_attachment_shape in Ha as (_ & Ht & _).
      rewrite map_app. cbn [map]. rewrite Ht, <- app_assoc. done.
    + by injection Hstep as <-.
Qed.

End AttachmentShape.

(** X11.  What every attachment made from a field of a message looks like.
    It keeps the raw payload; its type is the field name, except "image" for
    photo and "doc" for document; for the six kinds the adapter knows its
    deferred fetcher is the one of its own id; for any other field
    (animation, video_note, contact, ...) it has no id, no fetcher, no title
    and no file name, even when the payload carries a [file_id]. *)
Theorem attachment_shape (d : pyval) (t : string) (a : Attachment.t) :
  _make_attachment d t = Ret a ->
  Attachment.raw a = d
  /\ Attachment.type a = canonical_type t
  /\ (if is_supported t
      then Attachment.getter a = Some (Attachment.id a)
      else Attachment.id a = PNone /\ Attachment.getter a = None
           /\ Attachment.title a = PNone /\ Attachment.file_name a = PNone).
Proof. apply make_attachment_shape. Qed.

Lemma attachment_shape_witness :
  exists a,
    _make_attachment animation_payload "animation" = Ret a
    /\ Attachment.raw a = animation_payload
    /\ Attachment.type a = "animation"
    /\ Attachment.id a = PNone /\ Attachment.getter a = None.
Proof.
  eexists. split; [reflexivity |].
  destruct (attachment_shape animation_payload "animation" _ eq_refl)
    as (Hraw & Hty & Hid & Hget & _).
  repeat split; assumption.
Defined.

(** X12.  The attachments of a message follow the adapter's list of fields,
    not the order of the payload: in the message [_make_update] returns there
    is one attachment for each field of [possible_types] present in the raw
    message, in the order of that list, with the canonical type of the
    field. *)
Theorem attachments_follow_the_field_list (name raw_update : pyval) (message : dict)
    (u : update) :
  py_getitem raw_update "message" = Ret (PDict message) ->
  _make_update name raw_update = Ret u ->
  map Attachment.type (attachments_of u)
  = map canonical_type
      (List.filter (fun key => dict_has key message) possible_types).
Proof.
  intros Hmsg H. unfold _make_update in H.
  assert (py_contains "message" raw_update = Ret true) as Hhas.
  { destruct raw_update as [| | | | | d]; try done. cbn [py_getitem] in Hmsg.
    cbn [py_contains]. unfold dict_has.
    by destruct (dict_lookup "message" d). }
  rewrite Hhas in H. cbn [obind negb] in H.
  apply obind_Ret_inv in H as (atts & Hatts & H).
  do 3 (apply obind_Ret_inv in H as (? & _ & H)).
  apply obind_Ret_inv in H as ([[receiver_type text] meta] & _ & H).
  do 4 (apply obind_Ret_inv in H as (? & _ & H)).
  injection H as <-. cbn [attachments_of].
  by rewrite (collected_types _ _ _ _ _ Hmsg Hatts).
Qed.

Lemma attachments_follow_the_field_list_witness :
  exists u,
    _make_update (PStr "mybot") (PDict [("message", PDict document_and_audio)]) = Ret u
    /\ map Attachment.type (attachments_of u) = ["audio"; "doc"].
Proof.
  eexists. split; [reflexivity |].
  apply (attachments_follow_the_field_list (PStr "mybot")
           (PDict [("message", PDict document_and_audio)]) document_and_audio _
           eq_refl eq_refl).
Defined.

(** X13.  What is received can be sent back.  An attachment made from one of
    the six fields the adapter knows (audio, document, photo, sticker, video,
    voice) has a type that the alias table resolves to the name of that
    field, so [execute_send] accepts it and routes it to the method named
    after the field ("image" back to [sendPhoto], "doc" to
    [sendDocument]). *)
Theorem received_attachment_routes_back (d : pyval) (t : string) (a : Attachment.t) :
  is_supported t = true ->
  _make_attachment d t = Ret a ->
  resolve_alias (Attachment.type a) = t
  /\ method_of a = send_method_of t
  /\ sendable a = true.
Proof.
  intros Hs Ha. apply make_attachment_shape in Ha as (_ & Hty & _).
  assert (resolve_alias (Attachment.type a) = t) as Hr.
  { rewrite Hty.
    destruct (supported_cases t Hs) as [-> | [-> | [-> | [-> | [-> | ->]]]]];
      by vm_compute. }
  unfold method_of, sendable. rewrite Hr, Hs.
  split; [done |]. split; [done | apply orb_true_r].
Qed.

Lemma received_attachment_routes_back_witness :
  exists a,
    _make_attachment (PList three_sizes) "photo" = Ret a
    /\ Attachment.type a = "image"
    /\ method_of a = "sendPhoto".
Proof.
  eexists. split; [reflexivity |]. split; [reflexivity |].
  apply (received_attachment_routes_back (PList three_sizes) "photo" _ eq_refl eq_refl).
Defined.

Section Ties.

Lemma insert_appends kx l :
  int_keyed kx -> Forall int_keyed l ->
  Forall (fun ky => zkey ky < zkey kx) l ->
  insert_by_key kx l = Ret (l ++ [kx]).
Proof.
  intros Hk Hint Hlt. induction l as [| ky l IH]; [done |].
  apply Forall_cons in Hint as [Hy Hint]. apply Forall_cons in Hlt as [Hlt1 Hlt].
  cbn [insert_by_key]. rewrite (py_lt_int ky kx) by done. cbn [obind].
  destruct (Z.ltb_spec (zkey ky) (zkey kx)) as [_ | ?]; [| lia].
  by rewrite IH.
Qed.

Lemma insert_keeps_last kx l b :
  int_keyed kx -> Forall int_keyed l ->
  list.last l = Some b -> zkey kx <= zkey b ->
  exists r, insert_by_key kx l = Ret r /\ list.last r = Some b.
Proof.
  intros Hk Hint. revert b. induction l as [| ky l IH]; intros b Hlast Hle; [done |].
  apply Forall_cons in Hint as [Hy Hint].
  cbn [insert_by_key]. rewrite (py_lt_int ky kx) by done. cbn [obind].
  destruct (Z.ltb_spec (zkey ky) (zkey kx)) as [Hlt | Hge].
  - destruct l as [| kz l].
    { injection Hlast as ->. lia. }
    rewrite last_cons_cons in Hlast.
    destruct (IH Hint b Hlast Hle) as (r & -> & Hr). cbn [obind].
    exists (ky :: r). split; [done |].
    destruct r as [| r0 r]; [done |]. by rewrite last_cons_cons.
  - exists (kx :: ky :: l). split; [done |]. by rewrite last_cons_cons.
Qed.

Lemma sort_last_is_greatest l :
  Forall int_keyed l ->
  exists r, sort_by_key l = Ret r /\ list.last r = greatest_key l.
Proof.
  induction 1 as [| kx l Hk Hl IH]; [by exists [] |].
  destruct (sort_by_key_spec l Hl) as (r0 & E0 & Hin0 & Hmax0).
  destruct IH as (r0' & E0' & Hlast0). rewrite E0 in E0'. injection E0' as <-.
  assert (Forall int_keyed r0) as Hr0.
  { rewrite Forall_forall in Hl |- *. intros x Hx. apply Hl, Hin0, Hx. }
  cbn [sort_by_key greatest_key]. rewrite E0. cbn [obind]. rewrite <- Hlast0.
  unfold max_last in Hmax0.
  destruct (list.last r0) as [b |] eqn:Eb.
  - destruct (Z.ltb_spec (zkey b) (zkey kx)) as [Hlt | Hge].
    + rewrite insert_appends; [| done | done |].
      * exists (r0 ++ [kx]). split; [done | apply last_snoc].
      * rewrite Forall_forall. intros x Hx. specialize (Hmax0 x Hx). lia.
    + by apply insert_keeps_last.
  - subst r0. by exists [kx].
Qed.

Lemma greatest_key_widest (variants : list pyval) :
  greatest_key (map (fun x => (width_key x, x)) variants)
  = (fun x => (width_key x, x)) <$> widest variants.
Proof.
  induction variants as [| v rest IH]; [done |].
  cbn [map greatest_key widest]. rewrite IH.
  destruct (widest rest) as [best |]; [| done]. cbn [fmap option_fmap option_map].
  rewrite !zkey_width. by destruct (width_z best <? width_z v).
Qed.

Lemma widest_last_of_greatest (front back : list pyval) (v : pyval) :
  Forall (fun x => width_z x <= width_z v) front ->
  Forall (fun x => width_z x < width_z v) back ->
  widest (front ++ v :: back) = Some v.
Proof.
  intros Hfront Hback.
  assert (widest (v :: back) = Some v) as Hv.
  { cbn [widest]. destruct (widest back) as [best |] eqn:Eb; [| done].
    assert (best ∈ back) as Hin.
    { clear -Eb. revert best Eb. induction back as [| x back IH]; intros best Eb;
        [done |].
      cbn [widest] in Eb. destruct (widest back) as [b |].
      - destruct (width_z b <? width_z x); injection Eb as <-;
          [by left | right; by apply IH].
      - injection Eb as <-. by left. }
    rewrite Forall_forall in Hback. specialize (Hback _ Hin).
    destruct (Z.ltb_spec (width_z best) (width_z v)); [done | lia]. }
  induction Hfront as [| x front Hx _ IH]; [exact Hv |].
  cbn [app widest]. rewrite IH.
  destruct (Z.ltb_spec (width_z v) (width_z x)); [lia | done].
Qed.

End Ties.

(** X14.  Which variant of a photo is kept.  For size variants with integer
    widths, [_make_attachment] keeps the last of the variants of greatest
    width: a variant that no earlier one exceeds and that is wider than every
    later one.  Its [file_id] is the id, the file name and the fetcher's id
    of the attachment.  An empty list of variants raises [IndexError]. *)
Theorem photo_keeps_last_of_the_widest (variants : list pyval) :
  Forall (fun v => size_variant v = true) variants ->
  _make_attachment (PList variants) "photo"
  = match widest variants with
    | Some best =>
        let fid := default PNone (file_id_of best) in
        Ret (Attachment._existing_full fid "image" (PStr EmptyString) fid
               (_make_getter fid) (PList variants))
    | None => Raise IndexError
    end
  /\ forall front v back,
       variants = front ++ v :: back ->
       Forall (fun x => width_z x <= width_z v) front ->
       Forall (fun x => width_z x < width_z v) back ->
       widest variants = Some v.
Proof.
  intros Hall. split.
  2:{ intros front v back -> Hf Hb. by apply widest_last_of_greatest. }
  destruct (variant_keys variants Hall) as (Hkeys & Hint & Hnostr).
  destruct (sort_last_is_greatest _ Hint) as (r & Hsort & Hlast).
  rewrite greatest_key_widest in Hlast.
  unfold _make_attachment, py_sorted. cbn [py_contains]. rewrite Hnostr.
  cbn [obind py_iter]. rewrite String.eqb_refl. rewrite Hkeys. cbn [obind].
  rewrite Hsort. cbn [obind]. unfold py_last. rewrite last_map, Hlast.
  destruct (widest variants) as [best |] eqn:Eb; [| done].
  cbn [fmap option_fmap option_map snd obind].
  assert (best ∈ variants) as Hin.
  { clear -Eb. revert best Eb. induction variants as [| x l IH]; intros best Eb;
      [done |].
    cbn [widest] in Eb. destruct (widest l) as [b |].
    - destruct (width_z b <? width_z x); injection Eb as <-;
        [by left | right; by apply IH].
    - injection Eb as <-. by left. }
  rewrite Forall_forall in Hall.
  destruct (size_variant_inv best (Hall best Hin)) as (d & k & z & fid & -> & _ & _ & Ef).
  cbn [py_getitem file_id_of]. by rewrite Ef.
Qed.

Lemma photo_keeps_last_of_the_widest_witness :
  exists a,
    _make_attachment (PList tied_sizes) "photo" = Ret a
    /\ Attachment.id a = PStr "id-800-b".
Proof.
  destruct (photo_keeps_last_of_the_widest tied_sizes ltac:(repeat constructor))
    as [Hrun _].
  eexists. split; [exact Hrun | reflexivity].
Defined.

(* ================================================================== *)
(** * Further properties: polling and sending                          *)
(* ================================================================== *)

(** X15.  An update that is not a message is delivered too.  A raw update
    (a dict) without the key "message" normalises, under any username, to a
    generic update with empty metadata; once the sink has taken it the cursor
    is one past its id, like after a message. *)
Theorem non_message_update_moves_the_cursor (w : world) (m : machine)
    (raw : dict) (k : Z) :
  dict_lookup "message" raw = None ->
  dict_lookup "update_id" raw = Some (PInt k) ->
  sink w (history m) (Update (PDict raw) UPD []) = Ret tt ->
  (forall name, _make_update name (PDict raw) = Ret (Update (PDict raw) UPD []))
  /\ deliver w (PDict raw) m
     = (Ret tt, {| self := set_offset (PInt (k + 1)) (self m);
                   history := history m ++ [EvSubmit (Update (PDict raw) UPD [])] |}).
Proof.
  intros Hmsg Hid Hsink.
  assert (forall name, _make_update name (PDict raw) = Ret (Update (PDict raw) UPD []))
    as Hnorm.
  { intros name. unfold _make_update. cbn [py_contains obind]. unfold dict_has.
    by rewrite Hmsg. }
  split; [exact Hnorm |].
  apply deliver_ok; [apply Hnorm | exact Hsink |].
  cbn [py_getitem]. by rewrite Hid.
Qed.

Lemma non_message_update_moves_the_cursor_witness :
  deliver (polling_world None) (raw_event 41) (boot started_adapter)
  = (Ret tt, {| self := set_offset (PInt 42) started_adapter;
                history := [EvSubmit (event_of 41)] |}).
Proof.
  apply (proj2 (non_message_update_moves_the_cursor (polling_world None)
                  (boot started_adapter)
                  [("update_id", PInt 41); ("callback_query", PDict [("id", PStr "q")])]
                  41 eq_refl eq_refl eq_refl)).
Defined.

(** X16.  A refused text ends the send at once.  When the provider answers
    the [sendMessage] call with an envelope whose [ok] is missing or false,
    [execute_send] raises [RequestException] with the method name, the
    parameters as they were built (values that are [None] included) and the
    envelope; no attachment is tried, no pause is made, and the lock is
    given back. *)
Theorem refused_text_ends_the_send (w : world) (m : machine)
    (target_id message : pyval) (attachments : attachments_arg) (kwargs : dict)
    (env ok : pyval) :
  let built := dict_of ([("chat_id", PStr (py_str target_id)); ("text", message)]
                        ++ kwargs) in
  api_messages_lock (self m) = Some false ->
  truthy message = true ->
  net w (history m ++ [EvAcquire]) "sendMessage" (without_none built) = Ret env ->
  py_get env "ok" PNone = Ret ok ->
  truthy ok = false ->
  execute_send w target_id message attachments kwargs m
  = (Raise (RequestException "sendMessage" built env),
     {| self := set_lock (Some false) (ensure_session (set_lock (Some true) (self m)));
        history := history m
                   ++ [EvAcquire; EvPost "sendMessage" (without_none built);
                       EvRelease] |}).
Proof.
  intros built Hlock Htext Hnet Hok Hfalse.
  rewrite (execute_send_run w _ _ _ _ _ Hlock). unfold send_under_lock, send_text.
  rewrite Htext.
  assert (_request w "sendMessage" built (acquire m)
          = (Raise (RequestException "sendMessage" built env),
             {| self := ensure_session (self (acquire m));
                history := history (acquire m)
                           ++ [EvPost "sendMessage" (without_none built)] |})) as Hreq.
  { rewrite _request_run. cbv zeta. cbn [acquire history].
    by rewrite Hnet, Hok, Hfalse. }
  fold built. rewrite (bind_Raise _ _ _ _ _ (bind_Raise _ _ _ _ _ Hreq)).
  unfold release. cbn [self history acquire]. by rewrite <- !app_assoc.
Qed.

Lemma refused_text_ends_the_send_witness :
  execute_send (refusing_world unauthorized) (PInt 5) (PStr "hi")
    (Many [OAttachment (existing_attachment "image" "AgAD")])
    [("parse_mode", PNone)] (boot started_adapter)
  = (Raise (RequestException "sendMessage"
              [("chat_id", PStr "5"); ("text", PStr "hi"); ("parse_mode", PNone)]
              unauthorized),
     {| self := started_adapter;
        history := [EvAcquire;
                    EvPost "sendMessage" [("chat_id", PStr "5"); ("text", PStr "hi")];
                    EvRelease] |}).
Proof.
  apply (refused_text_ends_the_send (refusing_world unauthorized)
           (boot started_adapter) (PInt 5) (PStr "hi")
           (Many [OAttachment (existing_attachment "image" "AgAD")])
           [("parse_mode", PNone)] unauthorized (PBool false));
    reflexivity.
Defined.

Section Dicts.

Lemma dict_lookup_set_eq k v d : dict_lookup k (dict_set k v d) = Some v.
Proof.
  induction d as [| [k' v'] d IH]; simpl.
  - by rewrite String.eqb_refl.
  - destruct (String.eqb k k') eqn:E; simpl; [by rewrite String.eqb_refl |].
    by rewrite E.
Qed.

Lemma dict_lookup_set_ne k k' v d :
  k <> k' -> dict_lookup k (dict_set k' v d) = dict_lookup k d.
Proof.
  intros Hne. induction d as [| [k0 v0] d IH]; simpl.
  - apply String.eqb_neq in Hne. by rewrite Hne.
  - destruct (String.eqb k' k0) eqn:E; simpl.
    + apply String.eqb_eq in E as <-. apply String.eqb_neq in Hne. by rewrite Hne.
    + by rewrite IH.
Qed.

Lemma dict_lookup_absent k (d : dict) :
  k ∉ map fst d -> dict_lookup k d = None.
Proof.
  induction d as [| [k' v'] d IH]; [done |]. simpl.
  rewrite not_elem_of_cons. intros [Hne Hd].
  apply String.eqb_neq in Hne. rewrite Hne. by apply IH.
Qed.

Lemma dict_keys_set k v d : NoDup (map fst d) -> NoDup (map fst (dict_set k v d)).
Proof.
  induction d as [| [k' v'] d IH]; simpl.
  - intros _. repeat constructor. apply not_elem_of_nil.
  - rewrite NoDup_cons. intros [Hnotin Hd].
    destruct (String.eqb k k') eqn:E; simpl.
    + apply String.eqb_eq in E as ->. by apply NoDup_cons.
    + apply NoDup_cons. split; [| by apply IH].
      clear -Hnotin E. apply String.eqb_neq in E.
      induction d as [| [k0 v0] d IH]; simpl in *.
      * rewrite list_elem_of_singleton. congruence.
      * rewrite not_elem_of_cons in Hnotin. destruct Hnotin as [H1 H2].
        destruct (String.eqb k k0); simpl; rewrite not_elem_of_cons; auto.
Qed.

Lemma dict_lookup_fold (items d : dict) k :
  NoDup (map fst items) ->
  dict_lookup k (fold_left (fun d kv => dict_set kv.1 kv.2 d) items d)
  = match dict_lookup k items with
    | Some v => Some v
    | None => dict_lookup k d
    end.
Proof.
  revert d. induction items as [| [k' v'] items IH]; intros d; [done |].
  simpl. rewrite NoDup_cons. intros [Hnotin Hnd]. rewrite IH by done.
  destruct (String.eqb k k') eqn:E.
  - apply String.eqb_eq in E as ->.
    by rewrite (dict_lookup_absent _ _ Hnotin), dict_lookup_set_eq.
  - apply String.eqb_neq in E. by rewrite (dict_lookup_set_ne _ _ _ _ E).
Qed.

Lemma dict_keys_fold (items d : dict) :
  NoDup (map fst d) ->
  NoDup (map fst (fold_left (fun d kv => dict_set kv.1 kv.2 d) items d)).
Proof.
  revert d. induction items as [| [k v] items IH]; intros d Hd; [done |].
  simpl. by apply IH, dict_keys_set.
Qed.

Lemma dict_lookup_without_none k (d : dict) :
  NoDup (map fst d) ->
  dict_lookup k (without_none d)
  = match dict_lookup k d with
    | Some v => if is_none v then None else Some v
    | None => None
    end.
Proof.
  unfold without_none. induction d as [| [k' v'] d IH]; [done |].
  simpl. rewrite NoDup_cons. intros [Hnotin Hd].
  destruct (String.eqb k k') eqn:E.
  - apply String.eqb_eq in E as ->. destruct (is_none v') eqn:Hv; simpl.
    + apply dict_lookup_absent. intros Hin. apply Hnotin.
      apply list_elem_of_fmap in Hin as ([k0 v0] & -> & Hin).
      apply list_elem_of_In, filter_In in Hin as [Hin _].
      apply list_elem_of_fmap. exists (k0, v0). split; [done |].
      by apply list_elem_of_In.
    + by rewrite String.eqb_refl.
  - destruct (is_none v'); simpl; rewrite ?E; by apply IH.
Qed.

End Dicts.

Section FirstCall.
Context (w : world).

Lemma first_event_bind {A B} (c : M A) (k : A -> M B) (pre : list event) m :
  (forall a, emits (fun _ => True) (k a)) ->
  (exists tail, history (c m).2 = history m ++ pre ++ tail) ->
  exists tail, history (bind c k m).2 = history m ++ pre ++ tail.
Proof.
  intros Hk (t1 & Ht1). unfold bind.
  destruct (c m) as [[a | e |] m1]; simpl in *; [| by exists t1 | by exists t1].
  destruct (emits_snd (fun _ => True) (k a) m1 (Hk a)) as (t2 & Ht2 & _).
  exists (t1 ++ t2). by rewrite Ht2, Ht1, <- !app_assoc.
Qed.

Lemma execute_send_first_call target_id message attachments kwargs m :
  api_messages_lock (self m) = Some false ->
  truthy message = true ->
  exists tail,
    history (execute_send w target_id message attachments kwargs m).2
    = history m
      ++ [EvAcquire; EvPost "sendMessage" (text_call target_id message kwargs).2]
      ++ tail.
Proof.
  intros Hlock Ht. rewrite (execute_send_run w _ _ _ _ _ Hlock).
  assert (exists tail,
            history (send_under_lock w (py_str target_id) message attachments kwargs
                       (acquire m)).2
            = history (acquire m)
              ++ [EvPost "sendMessage" (text_call target_id message kwargs).2] ++ tail)
    as (tail & Htail).
  { unfold send_under_lock. apply first_event_bind.
    - intros sent. apply em_bind; [apply em_lift | intros items].
      apply em_bind; [| intros more; apply em_ret].
      apply em_collect. intros o. by apply em_send_attachment.
    - unfold send_text. rewrite Ht. apply first_event_bind.
      + intros r. repeat emits_step; auto.
      + destruct (_request w "sendMessage"
                    (dict_of ([("chat_id", PStr (py_str target_id)); ("text", message)]
                              ++ kwargs)) (acquire m)) as [r m1] eqn:E.
        destruct (_request_frame w _ _ _ _ _ E) as (_ & t1 & Ht1 & _).
        by exists t1. }
  destruct (send_under_lock w (py_str target_id) message attachments kwargs (acquire m))
    as [[r | e |] m2]; cbn [snd] in *; unfold release; cbn [history];
    rewrite Htail; cbn [acquire history]; rewrite <- ?app_assoc; cbn [app];
    eauto.
Qed.

End FirstCall.

(** X17.  Extra parameters win.  With a free lock and a message that is not
    empty, the first provider call of [execute_send] is [sendMessage], and in
    its parameters a keyword argument is sent with the value the caller gave,
    also when its name is [chat_id] or [text]; a keyword whose value is
    [None] is left out of the call, together with the parameter of that
    name; [chat_id] and [text] are [str(target_id)] and the message when no
    keyword has their name. *)
Theorem extra_params_win (w : world) (m : machine) (target_id message : pyval)
    (attachments : attachments_arg) (kwargs : dict) :
  NoDup (map fst kwargs) ->
  api_messages_lock (self m) = Some false ->
  truthy message = true ->
  exists data tail,
    history (execute_send w target_id message attachments kwargs m).2
    = history m ++ [EvAcquire; EvPost "sendMessage" data] ++ tail
    /\ (forall k v, dict_lookup k kwargs = Some v ->
                    dict_lookup k data = if is_none v then None else Some v)
    /\ (dict_lookup "chat_id" kwargs = None ->
        dict_lookup "chat_id" data = Some (PStr (py_str target_id)))
    /\ (dict_lookup "text" kwargs = None -> dict_lookup "text" data = Some message).
Proof.
  intros Hnd Hlock Ht.
  destruct (execute_send_first_call w target_id message attachments kwargs m Hlock Ht)
    as (tail & Htail).
  exists (text_call target_id message kwargs).2, tail. split; [exact Htail |].
  unfold text_call, dict_of. cbn [snd].
  change (fold_left (fun d kv => dict_set kv.1 kv.2 d)
            ([("chat_id", PStr (py_str target_id)); ("text", message)] ++ kwargs) [])
    with (fold_left (fun d kv => dict_set kv.1 kv.2 d) kwargs
            [("chat_id", PStr (py_str target_id)); ("text", message)]).
  assert (NoDup (map fst [("chat_id", PStr (py_str target_id)); ("text", message)]))
    as Hbase.
  { simpl. apply NoDup_cons. split; [| apply NoDup_singleton].
    rewrite list_elem_of_singleton. discriminate. }
  assert (forall k,
            dict_lookup k
              (without_none
                 (fold_left (fun d kv => dict_set kv.1 kv.2 d) kwargs
                    [("chat_id", PStr (py_str target_id)); ("text", message)]))
            = match match dict_lookup k kwargs with
                    | Some v => Some v
                    | None => dict_lookup k
                                [("chat_id", PStr (py_str target_id)); ("text", message)]
                    end with
              | Some v => if is_none v then None else Some v
              | None => None
              end) as Hlook.
  { intros k. rewrite dict_lookup_without_none by (by apply dict_keys_fold).
    by rewrite dict_lookup_fold. }
  split; [| split].
  - intros k v Hk. by rewrite Hlook, Hk.
  - intros Hk. by rewrite Hlook, Hk.
  - intros Hk. rewrite Hlook, Hk. simpl. by destruct message.
Qed.

Lemma extra_params_win_witness :
  exists data tail,
    history (execute_send (polling_world None) (PInt 5) (PStr "hi") (Many [])
               [("chat_id", PInt 9); ("parse_mode", PStr "html");
                ("reply_markup", PNone)] (boot started_adapter)).2
    = [EvAcquire; EvPost "sendMessage" data] ++ tail
    /\ dict_lookup "chat_id" data = Some (PInt 9)
    /\ dict_lookup "reply_markup" data = None
    /\ dict_lookup "text" data = Some (PStr "hi").
Proof.
  assert (NoDup (map fst [("chat_id", PInt 9); ("parse_mode", PStr "html");
                          ("reply_markup", PNone)])) as Hnd.
  { simpl. repeat (apply NoDup_cons; split;
                   [rewrite ?elem_of_cons, ?elem_of_nil; intuition discriminate |]).
    apply NoDup_nil_2. }
  destruct (extra_params_win (polling_world None) (boot started_adapter) (PInt 5)
              (PStr "hi") (Many []) _ Hnd eq_refl eq_refl)
    as (data & tail & Hrun & Hkw & _ & Htext).
  exists data, tail. split; [exact Hrun |]. split; [| split].
  - apply (Hkw "chat_id" (PInt 9)). reflexivity.
  - apply (Hkw "reply_markup" PNone). reflexivity.
  - apply Htext. reflexivity.
Defined.

(* ================================================================== *)
(** * Further properties: start and shutdown                           *)
(* ================================================================== *)

Section Start.
Context (w : world).

Lemma on_start_run m :
  on_start w m
  = match _request w "getMe" [] m with
    | (Ret me, m1) =>
        match login_name me with
        | Ret name =>
            (Ret tt, {| self := set_lock (Some false) (set_username name (self m1));
                        history := history m1 ++ [login_line] |})
        | Raise e => (Raise e, m1)
        | Wait => (Wait, m1)
        end
    | (Raise e, m1) => (Raise e, m1)
    | (Wait, m1) => (Wait, m1)
    end.
Proof.
  unfold on_start, bind at 1.
  destruct (_request w "getMe" [] m) as [[me | e |] m1]; [| done | done].
  unfold login_name, bind, lift.
  destruct (py_get me "first_name" (PStr EmptyString)) as [f | e |]; [| done | done].
  cbn [obind].
  destruct (py_add f (PStr " ")) as [l | e |]; [| done | done]. cbn [obind].
  destruct (py_get me "last_name" (PStr EmptyString)) as [s | e |]; [| done | done].
  cbn [obind].
  destruct (py_add l s) as [n | e |]; [| done | done]. cbn [obind].
  by destruct (py_getitem me "username") as [name | e |].
Qed.

Lemma reachable_session_owner t0 m :
  reachable w t0 m -> _is_session_local (self m) = _is_session_local t0.
Proof.
  induction 1 as [| m _ IH | m _ IH | m method kwargs _ IH
                  | m target_id message attachments kwargs _ IH]; [done | | | |];
    rewrite <- IH; apply keeps_snd.
  - by apply kp_on_start.
  - by apply kp_acquire_updates.
  - by apply kp_execute_request.
  - by apply kp_execute_send.
Qed.

Lemma session_after_request method kwargs m :
  session (self (_request w method kwargs m).2) = true.
Proof.
  destruct (_request w method kwargs m) as [r m1] eqn:E.
  destruct (_request_frame w _ _ _ _ _ E) as (Hs & _). cbn [snd]. rewrite Hs.
  unfold ensure_session. by destruct (session (self m)) eqn:Es.
Qed.

Lemma session_after_on_start m : session (self (on_start w m).2) = true.
Proof.
  rewrite on_start_run.
  pose proof (session_after_request "getMe" [] m) as Hs.
  destruct (_request w "getMe" [] m) as [[me | e |] m1]; [| done | done].
  by destruct (login_name me).
Qed.

Lemma session_after_acquire_updates m :
  session (self (acquire_updates w m).2) = true.
Proof.
  rewrite acquire_updates_run.
  pose proof (session_after_request "getUpdates" (poll_params m) m) as Hs.
  destruct (_request w "getUpdates" (poll_params m) m) as [[response | e |] m1];
    cbn [snd] in Hs.
  - destruct (py_iter response) as [items | e |]; [| done | done].
    assert (keeps session (for_each (deliver w) items)) as Hk.
    { apply kp_for_each. intros u. unfold deliver. repeat keeps_step; auto. }
    by rewrite (keeps_snd session _ m1 Hk).
  - destruct (is_decode_or_transport e); [done |].
    destruct (is_Exception e); [| done].
    cbv zeta. by destruct (nap w _ 1).
  - done.
Qed.

End Start.

(** X18.  What a successful start does.  When the provider accepts [getMe]
    with a result that has a [username] and whose [first_name] and
    [last_name] are strings or absent, [on_start] makes that one call, logs
    the login, takes the username from the result and leaves a free lock; the
    cursor is not touched. *)
Theorem on_start_learns_the_username (w : world) (m : machine)
    (env ok me name : pyval) (first last : string) :
  net w (history m) "getMe" [] = Ret env ->
  py_get env "ok" PNone = Ret ok ->
  truthy ok = true ->
  py_getitem env "result" = Ret me ->
  py_get me "first_name" (PStr EmptyString) = Ret (PStr first) ->
  py_get me "last_name" (PStr EmptyString) = Ret (PStr last) ->
  py_getitem me "username" = Ret name ->
  on_start w m
  = (Ret tt,
     {| self := set_lock (Some false) (set_username name (ensure_session (self m)));
        history := history m ++ [EvPost "getMe" []; debug_line; login_line] |}).
Proof.
  intros Hnet Hok Ht Hres Hf Hl Hname. rewrite on_start_run, _request_run.
  cbv zeta. change (without_none []) with (@nil (string * pyval)).
  rewrite Hnet, Hok, Ht, Hres. unfold login_name. rewrite Hf. cbn [obind py_add].
  rewrite Hl. cbn [obind py_add]. rewrite Hname.
  cbn [self history]. by rewrite <- !app_assoc.
Qed.

Lemma on_start_learns_the_username_witness :
  on_start (polling_world None) (boot new_adapter)
  = (Ret tt,
     {| self := started_adapter;
        history := [EvPost "getMe" []; debug_line; login_line] |}).
Proof.
  apply (on_start_learns_the_username (polling_world None) (boot new_adapter)
           (ok_envelope (PDict [("username", PStr "mybot")])) (PBool true)
           (PDict [("username", PStr "mybot")]) (PStr "mybot")
           EmptyString EmptyString);
    reflexivity.
Defined.

(** X19.  A start that fails leaves the adapter as it was.  Whenever
    [on_start] does not complete (the call is refused or fails, the result
    has no [username], a name is not a string), the username, the lock and
    the cursor are what they were before: an adapter that was not started is
    still not started, and [execute_send] on it still raises without a call
    ([AttributeError], the class Python raises up to 3.10 on entering
    [None]). *)
Theorem failed_start_changes_nothing (w : world) (m : machine) :
  (on_start w m).1 <> Ret tt ->
  let m' := (on_start w m).2 in
  username (self m') = username (self m)
  /\ api_messages_lock (self m') = api_messages_lock (self m)
  /\ offset (self m') = offset (self m)
  /\ (api_messages_lock (self m) = None ->
      forall target_id message attachments kwargs,
        execute_send w target_id message attachments kwargs m'
        = (Raise AttributeError, m')).
Proof.
  intros Hfail m'.
  assert (self m' = ensure_session (self m)) as Hself.
  { subst m'. revert Hfail. rewrite on_start_run.
    destruct (_request w "getMe" [] m) as [r m1] eqn:E.
    destruct (_request_frame w _ _ _ _ _ E) as (Hs & _).
    destruct r as [me | e |]; [| done | done].
    by destruct (login_name me). }
  assert (api_messages_lock (self m') = api_messages_lock (self m)) as Hlock.
  { rewrite Hself. apply lock_ensure_session. }
  split; [rewrite Hself; apply username_ensure_session |].
  split; [exact Hlock |].
  split; [rewrite Hself; apply offset_ensure_session |].
  intros Hnone target_id message attachments kwargs.
  apply execute_send_no_gate. by rewrite Hlock.
Qed.

Lemma failed_start_changes_nothing_witness :
  let m' := (on_start (answering_world (PDict [("first_name", PStr "Bot")]))
               (boot new_adapter)).2 in
  (on_start (answering_world (PDict [("first_name", PStr "Bot")])) (boot new_adapter)).1
  = Raise (KeyError "username")
  /\ username (self m') = PNone
  /\ execute_send (answering_world (PDict [("first_name", PStr "Bot")]))
       (PInt 5) (PStr "hi") (Many []) [] m'
     = (Raise AttributeError, m').
Proof.
  intros m'. split; [reflexivity |].
  assert ((on_start (answering_world (PDict [("first_name", PStr "Bot")]))
             (boot new_adapter)).1 <> Ret tt) as Hfail by discriminate.
  destruct (failed_start_changes_nothing _ _ Hfail) as (Hu & _ & _ & Hsend).
  split; [exact Hu |].
  apply Hsend. reflexivity.
Defined.

(** X20.  Only a session of the adapter's own is closed.  In every state an
    adapter built by the constructor can reach: when a session was supplied,
    [on_shutdown] never closes it; when none was supplied, [on_shutdown]
    closes the session the adapter has opened, which exists after any
    [on_start], polling iteration or plain request (completed or not), and an
    adapter shut down before its first call raises [AttributeError], as
    there is no session to close. *)
Theorem only_own_session_is_closed (w : world) (token : string)
    (messages_per_second : Q) (supplied : bool) (t0 : Telegram) (m : machine) :
  __init__ token messages_per_second supplied [] = Ret t0 ->
  reachable w t0 m ->
  (supplied = true -> on_shutdown (self m) = Ret LeaveSession)
  /\ (supplied = false ->
      on_shutdown t0 = Raise AttributeError
      /\ on_shutdown (self (on_start w m).2) = Ret CloseSession
      /\ on_shutdown (self (acquire_updates w m).2) = Ret CloseSession
      /\ forall method kwargs,
           on_shutdown (self (execute_request w method kwargs m).2)
           = Ret CloseSession).
Proof.
  intros Hinit Hr.
  assert (_is_session_local t0 = negb supplied /\ session t0 = supplied)
    as (Hlocal & Hsess).
  { unfold __init__ in Hinit.
    destruct (String.eqb token EmptyString); [done |].
    destruct (Qeq_bool messages_per_second 0); [done |].
    by injection Hinit as <-. }
  assert (forall m1, reachable w t0 m1 ->
            _is_session_local (self m1) = negb supplied) as Hown.
  { intros m1 H1. by rewrite (reachable_session_owner w t0 m1 H1). }
  split.
  - intros ->. unfold on_shutdown. by rewrite (Hown m Hr).
  - intros ->. split; [unfold on_shutdown; by rewrite Hlocal, Hsess |].
    split; [| split].
    + unfold on_shutdown.
      by rewrite (Hown _ (rc_start w t0 m Hr)), session_after_on_start.
    + unfold on_shutdown.
      by rewrite (Hown _ (rc_acquire w t0 m Hr)), session_after_acquire_updates.
    + intros method kwargs. unfold on_shutdown.
      rewrite (Hown _ (rc_request w t0 m method kwargs Hr)).
      unfold execute_request. by rewrite session_after_request.
Qed.

Lemma only_own_session_is_closed_witness :
  on_shutdown new_adapter = Raise AttributeError
  /\ on_shutdown (self (on_start (refusing_world unauthorized) (boot new_adapter)).2)
     = Ret CloseSession.
Proof.
  destruct (only_own_session_is_closed (refusing_world unauthorized) "token" 29 false
              new_adapter (boot new_adapter) eq_refl
              (rc_boot (refusing_world unauthorized) new_adapter))
    as (_ & Hlocal).
  destruct (Hlocal eq_refl) as (Hfresh & Hstart & _).
  split; [exact Hfresh | exact Hstart].
Defined.

(* ================================================================== *)
(** * Further properties: files, contexts and addresses                *)
(* ================================================================== *)

Section Files.
Context (w : world) (download : list event -> pyval -> outcome pyval).

Lemma _request_file_run file_id m :
  _request_file w download file_id m
  = match _request w "getFile" [("file_id", file_id)] m with
    | (Ret file, m1) =>
        match py_getitem file "file_path" with
        | Ret path => (download (history m1) path, m1)
        | Raise e => (Raise e, m1)
        | Wait => (Wait, m1)
        end
    | (Raise e, m1) => (Raise e, m1)
    | (Wait, m1) => (Wait, m1)
    end.
Proof.
  unfold _request_file, bind, lift.
  change (dict_of [("file_id", file_id)]) with [("file_id", file_id)].
  destruct (_request w "getFile" [("file_id", file_id)] m) as [[file | e |] m1];
    [| done | done].
  by destruct (py_getitem file "file_path").
Qed.

End Files.

(** X21.  The getter of a received attachment fetches that attachment's
    file.  For an attachment [_make_attachment] made of one of the six
    supported kinds, awaiting the getter asks the provider [getFile] with
    the attachment's own id (the parameter is left out when the attachment
    has no id), and when the answer is accepted and names a [file_path] the
    result is what the transfer of that path gives; for any other kind there
    is no getter to call, and calling it raises [TypeError] with no call
    made. *)
Theorem getter_fetches_the_attachment_file (w : world)
    (download : list event -> pyval -> outcome pyval)
    (d : pyval) (t : string) (a : Attachment.t) (m : machine) :
  _make_attachment d t = Ret a ->
  let call := without_none [("file_id", Attachment.id a)] in
  let m' := {| self := ensure_session (self m);
               history := history m ++ [EvPost "getFile" call; debug_line] |} in
  (is_supported t = true ->
   forall env ok file path,
     net w (history m) "getFile" call = Ret env ->
     py_get env "ok" PNone = Ret ok ->
     truthy ok = true ->
     py_getitem env "result" = Ret file ->
     py_getitem file "file_path" = Ret path ->
     run_getter w download (Attachment.getter a) m = (download (history m') path, m'))
  /\ (is_supported t = false ->
      run_getter w download (Attachment.getter a) m = (Raise TypeError, m)).
Proof.
  intros Hmake call m'.
  destruct (make_attachment_shape d t a Hmake) as (_ & _ & Hshape).
  split; intros Hs; rewrite Hs in Hshape.
  - intros env ok file path Hnet Hok Ht Hres Hpath.
    rewrite Hshape. unfold run_getter. rewrite _request_file_run, _request_run.
    cbv zeta. fold call. rewrite Hnet, Hok, Ht, Hres, Hpath.
    subst m'. cbn [self history]. by rewrite <- !app_assoc.
  - destruct Hshape as (_ & -> & _). reflexivity.
Qed.

Lemma getter_fetches_the_attachment_file_witness :
  exists a,
    _make_attachment (PDict [("file_id", PStr "BQAC"); ("file_name", PStr "a.pdf")])
      "document" = Ret a
    /\ run_getter file_world (body_of (PStr "%PDF")) (Attachment.getter a)
         (boot started_adapter)
       = (Ret (PStr "%PDF"),
          {| self := started_adapter;
             history := [EvPost "getFile" [("file_id", PStr "BQAC")]; debug_line] |}).
Proof.
  eexists. split; [reflexivity |].
  apply (proj1 (getter_fetches_the_attachment_file file_world (body_of (PStr "%PDF"))
                  (PDict [("file_id", PStr "BQAC"); ("file_name", PStr "a.pdf")])
                  "document" _ (boot started_adapter) eq_refl) eq_refl
           (ok_envelope (PDict [("file_path", PStr "path")])) (PBool true)
           (PDict [("file_path", PStr "path")]) (PStr "path"));
    reflexivity.
Defined.

(** X22.  Nothing is downloaded without a path.  When the provider refuses
    [getFile], [_request_file] raises [RequestException] with the method, the
    parameters and the envelope; when it accepts with a result that has no
    [file_path], [_request_file] raises [KeyError]; in both cases the
    transfer is not started, whatever it would have given. *)
Theorem no_download_without_a_path (w : world)
    (download : list event -> pyval -> outcome pyval)
    (file_id env ok : pyval) (m : machine) :
  let call := without_none [("file_id", file_id)] in
  let m1 := {| self := ensure_session (self m);
               history := history m ++ [EvPost "getFile" call] |} in
  net w (history m) "getFile" call = Ret env ->
  py_get env "ok" PNone = Ret ok ->
  (truthy ok = false ->
   _request_file w download file_id m
   = (Raise (RequestException "getFile" [("file_id", file_id)] env), m1))
  /\ (truthy ok = true ->
      forall file : dict,
        py_getitem env "result" = Ret (PDict file) ->
        dict_lookup "file_path" file = None ->
        _request_file w download file_id m
        = (Raise (KeyError "file_path"),
           {| self := self m1; history := history m1 ++ [debug_line] |})).
Proof.
  intros call m1 Hnet Hok. split.
  - intros Hfalse. rewrite _request_file_run, _request_run. cbv zeta. fold call.
    by rewrite Hnet, Hok, Hfalse.
  - intros Htrue file Hres Hpath. rewrite _request_file_run, _request_run.
    cbv zeta. fold call. rewrite Hnet, Hok, Htrue, Hres.
    cbn [py_getitem]. by rewrite Hpath.
Qed.

Lemma no_download_without_a_path_witness :
  _request_file (refusing_world unauthorized) (body_of (PStr "%PDF")) (PStr "BQAC")
    (boot started_adapter)
  = (Raise (RequestException "getFile" [("file_id", PStr "BQAC")] unauthorized),
     {| self := started_adapter;
        history := [EvPost "getFile" [("file_id", PStr "BQAC")]] |}).
Proof.
  apply (proj1 (no_download_without_a_path (refusing_world unauthorized)
                  (body_of (PStr "%PDF")) (PStr "BQAC") unauthorized (PBool false)
                  (boot started_adapter) eq_refl eq_refl)).
  reflexivity.
Defined.

(** X23.  The default target of a callback.  For a generic update that
    carries a callback query pressed by [sender_id] under a message of the
    chat [receiver_id], [prepare_context] sets the default target to the
    sender when the chat is private and to the chat otherwise, and the three
    keys to what [get_key_for] gives for the sender, for the chat and for
    both; the update itself is left as it is.  The context of a message is
    not touched, and [get_key_for] is not asked. *)
Theorem callback_context (get_key_for : option pyval -> option pyval -> outcome pyval)
    (ctx : Context.t) (raw cq sender message chat : dict)
    (sender_id receiver_id chat_type k1 k2 k3 : pyval) :
  (type_of (Context.update ctx) = MSG -> prepare_context get_key_for ctx = (Ret tt, ctx))
  /\ (type_of (Context.update ctx) = UPD ->
      raw_of (Context.update ctx) = PDict raw ->
      dict_lookup "callback_query" raw = Some (PDict cq) ->
      cq <> [] ->
      dict_lookup "from" cq = Some (PDict sender) ->
      dict_lookup "id" sender = Some sender_id ->
      dict_lookup "message" cq = Some (PDict message) ->
      dict_lookup "chat" message = Some (PDict chat) ->
      dict_lookup "id" chat = Some receiver_id ->
      dict_lookup "type" chat = Some chat_type ->
      get_key_for (Some sender_id) None = Ret k1 ->
      get_key_for None (Some receiver_id) = Ret k2 ->
      get_key_for (Some sender_id) (Some receiver_id) = Ret k3 ->
      prepare_context get_key_for ctx
      = (Ret tt,
         {| Context.update := Context.update ctx;
            Context.default_target_id :=
              if eq_str chat_type "private" then sender_id else receiver_id;
            Context.sender_key := k1;
            Context.receiver_key := k2;
            Context.sender_here_key := k3 |})).
Proof.
  split.
  - intros Hmsg. unfold prepare_context. by rewrite Hmsg.
  - intros Hupd Hraw Hcq Hne Hfrom Hsid Hmessage Hchat Hrid Htype Hk1 Hk2 Hk3.
    unfold prepare_context, callback_ids. rewrite Hupd, Hraw.
    cbn [py_get py_getitem obind]. rewrite Hcq. cbn [default obind].
    change (truthy (id (PDict cq))) with (truthy (PDict cq)).
    assert (truthy (PDict cq) = true) as -> by (by destruct cq).
    cbn [py_getitem obind]. rewrite Hfrom. cbn [py_getitem obind]. rewrite Hsid.
    cbn [py_getitem obind]. rewrite Hmessage. cbn [py_getitem obind]. rewrite Hchat.
    cbn [py_getitem obind]. rewrite Hrid. cbn [py_getitem obind]. rewrite Htype.
    cbn [obind]. by rewrite Hk1, Hk2, Hk3.
Qed.

Lemma callback_context_witness :
  prepare_context key_of_ids (blank_context (callback_update "private" 7 7))
  = (Ret tt,
     {| Context.update := callback_update "private" 7 7;
        Context.default_target_id := PInt 7;
        Context.sender_key := PList [PInt 7; PNone];
        Context.receiver_key := PList [PNone; PInt 7];
        Context.sender_here_key := PList [PInt 7; PInt 7] |})
  /\ Context.default_target_id
       (prepare_context key_of_ids (blank_context (callback_update "group" 7 (-100)))).2
     = PInt (-100).
Proof.
  split.
  - eapply (proj2 (callback_context key_of_ids
                     (blank_context (callback_update "private" 7 7))
                     _ _ _ _ _ (PInt 7) (PInt 7) (PStr "private") _ _ _));
      try reflexivity. discriminate.
  - erewrite (proj2 (callback_context key_of_ids
                       (blank_context (callback_update "group" 7 (-100)))
                       _ _ _ _ _ (PInt 7) (PInt (-100)) (PStr "group") _ _ _));
      try reflexivity. discriminate.
Defined.

Section Addresses.

Lemma rstrip_snoc c s : rstrip c (s +:+ String c EmptyString) = rstrip c s.
Proof.
  induction s as [| a s IH].
  - rewrite append_nil_l. simpl. by rewrite Ascii.eqb_refl.
  - rewrite append_cons. simpl. by rewrite IH.
Qed.

Lemma rstrip_fixed c s : last_char s <> Some c -> rstrip c s = s.
Proof.
  induction s as [| a s IH]; [done |]. destruct s as [| b s].
  - simpl. intros Hne. destruct (Ascii.eqb a c) eqn:E; [| done].
    apply Ascii.eqb_eq in E. congruence.
  - intros Hne. change (last_char (String a (String b s)))
      with (last_char (String b s)) in Hne.
    change (rstrip c (String a (String b s)))
      with (match rstrip c (String b s) with
            | EmptyString => if Ascii.eqb a c then EmptyString else String a EmptyString
            | r => String a r
            end).
    by rewrite (IH Hne).
Qed.

Lemma rstrip_slashes u n : rstrip "/" (u +:+ slashes n) = rstrip "/" u.
Proof.
  induction n as [| n IH]; simpl.
  - by rewrite append_nil_r.
  - by rewrite <- append_assoc, rstrip_snoc.
Qed.

End Addresses.

(** X24.  Slashes at the end of the address do not count.  For an address
    [u] that does not end with a slash, the adapter built with [u] followed
    by any number of slashes keeps the templates [u/bot<token>/{}] for calls
    and [u/file/bot<token>/{}] for files. *)
Theorem trailing_slashes_are_dropped (token u : string) (n : nat) :
  last_char u <> Some "/"%char ->
  api_url token (u +:+ slashes n) = u +:+ "/bot" +:+ token +:+ "/{}"
  /\ file_url token (u +:+ slashes n) = u +:+ "/file/bot" +:+ token +:+ "/{}".
Proof.
  intros Hu. unfold api_url, file_url.
  by rewrite rstrip_slashes, (rstrip_fixed _ _ Hu).
Qed.

Lemma trailing_slashes_are_dropped_witness :
  api_url "42:AA" "https://api.telegram.org//" = "https://api.telegram.org/bot42:AA/{}"
  /\ file_url "42:AA" "https://api.telegram.org//"
     = "https://api.telegram.org/file/bot42:AA/{}".
Proof.
  assert (last_char "https://api.telegram.org" <> Some "/"%char) as Hu
    by discriminate.
  exact (trailing_slashes_are_dropped "42:AA" "https://api.telegram.org" 2 Hu).
Defined.

(** X25.  The fields of a message come from the raw update.  Whenever
    [_make_update] returns for a raw update that has the key [message], the
    event is a message that keeps the raw update; its sender is
    [message.from.id], its receiver [message.chat.id], its date
    [message.date], and it is [SOLO] exactly when the type of the chat is
    the string [private]. *)
Theorem message_fields_come_from_the_raw_update (name raw : pyval) (u : update) :
  py_contains "message" raw = Ret true ->
  _make_update name raw = Ret u ->
  exists message chat chat_type sender text attachments sender_id receiver_id date meta,
    u = Message raw MSG text attachments sender_id receiver_id
          (if eq_str chat_type "private" then SOLO else MULTI) date meta
    /\ py_getitem raw "message" = Ret message
    /\ py_getitem message "chat" = Ret chat
    /\ py_getitem chat "type" = Ret chat_type
    /\ py_getitem chat "id" = Ret receiver_id
    /\ py_getitem message "from" = Ret sender
    /\ py_getitem sender "id" = Ret sender_id
    /\ py_getitem message "date" = Ret date.
Proof.
  intros Hhas H. unfold _make_update in H. rewrite Hhas in H. cbn [obind negb] in H.
  apply obind_Ret_inv in H as (attachments & _ & H).
  apply obind_Ret_inv in H as (message & Hmessage & H).
  apply obind_Ret_inv in H as (chat & Hchat & H).
  apply obind_Ret_inv in H as (chat_type & Htype & H).
  apply obind_Ret_inv in H as ([[receiver_type text] meta] & Hkind & H).
  apply obind_Ret_inv in H as (sender & Hsender & H).
  apply obind_Ret_inv in H as (sender_id & Hsid & H).
  apply obind_Ret_inv in H as (receiver_id & Hrid & H).
  apply obind_Ret_inv in H as (date & Hdate & H).
  injection H as <-.
  exists message, chat, chat_type, sender, text, attachments, sender_id, receiver_id,
    date, meta.
  assert (receiver_type = if eq_str chat_type "private" then SOLO else MULTI) as ->.
  { destruct (eq_str chat_type "private").
    - apply obind_Ret_inv in Hkind as (t & _ & Hkind). by injection Hkind as <- _ _.
    - apply obind_Ret_inv in Hkind as ([t mt] & _ & Hkind).
      by injection Hkind as <- _ _. }
  done.
Qed.

Lemma message_fields_come_from_the_raw_update_witness :
  let raw := command_update "supergroup" "/start@mybot hello" 12 (PInt 10)
               (PInt (-100)) (PInt 7) (PInt 1000) in
  exists message chat chat_type sender text attachments sender_id receiver_id date meta,
    Message raw MSG (PStr "/start hello") [] (PInt 7) (PInt (-100)) MULTI (PInt 1000)
      [("bot_mentioned", PBool true)]
    = Message raw MSG text attachments sender_id receiver_id
        (if eq_str chat_type "private" then SOLO else MULTI) date meta
    /\ py_getitem raw "message" = Ret message
    /\ py_getitem message "chat" = Ret chat
    /\ py_getitem chat "type" = Ret chat_type
    /\ py_getitem chat "id" = Ret receiver_id
    /\ py_getitem message "from" = Ret sender
    /\ py_getitem sender "id" = Ret sender_id
    /\ py_getitem message "date" = Ret date.
Proof.
  intros raw.
  apply (message_fields_come_from_the_raw_update (PStr "mybot") raw
           (Message raw MSG (PStr "/start hello") [] (PInt 7) (PInt (-100)) MULTI
              (PInt 1000) [("bot_mentioned", PBool true)]));
    reflexivity.
Defined.

(* ================================================================== *)
(** * Aliases of attachment types on the way out                       *)
(* ================================================================== *)

Section Routing.
Context (w : world).

Lemma send_attachment_alias alias canon chat_id a m :
  ATTACHMENT_TYPE_ALIASES !! alias = Some canon ->
  send_attachment w chat_id (OAttachment (with_type alias a)) m
  = send_attachment w chat_id (OAttachment (with_type canon a)) m.
Proof.
  intros H. destruct (resolve_alias_canonical alias canon H) as [Ha Hc].
  unfold send_attachment, with_type. simpl. by rewrite Ha, Hc.
Qed.

Lemma send_attachment_first_call chat_id a m :
  sendable a = true ->
  exists data tail,
    history (send_attachment w chat_id (OAttachment a) m).2
    = history m ++ [EvPost (method_of a) data] ++ tail.
Proof.
  unfold sendable, send_attachment, method_of. intros Hs.
  assert (forall kwargs,
            exists tail,
              history ((r <- _request w (send_method_of (resolve_alias (Attachment.type a)))
                               kwargs ;
                        pause <- gets api_messages_pause ;
                        _ <- sleep w pause ;
                        ret r) m).2
              = history m
                ++ [EvPost (send_method_of (resolve_alias (Attachment.type a)))
                      (without_none kwargs)] ++ tail) as Hcall.
  { intros kwargs. apply first_event_bind.
    - intros r. repeat emits_step; auto.
    - destruct (_request w (send_method_of (resolve_alias (Attachment.type a))) kwargs m)
        as [r m1] eqn:E.
      destruct (_request_frame w _ _ _ _ _ E) as (_ & t1 & Ht1 & _). by exists t1. }
  destruct (Attachment.uploaded a).
  - eexists. apply Hcall.
  - simpl in Hs. rewrite Hs. cbn [negb]. eexists. apply Hcall.
Qed.

Lemma bind_ext {A B} (c : M A) (k k' : A -> M B) m :
  (forall a m', k a m' = k' a m') -> bind c k m = bind c k' m.
Proof. intros H. unfold bind. destruct (c m) as [[a | e |] m1]; auto. Qed.

Lemma bind_lift_Ret {A B} (a : A) (k : A -> M B) m : bind (lift (Ret a)) k m = k a m.
Proof. reflexivity. Qed.

Lemma collect_swap {A B} (body : A -> M B) (x y : A) (before after : list A) m :
  (forall m', body x m' = body y m') ->
  collect body (before ++ x :: after) m = collect body (before ++ y :: after) m.
Proof.
  intros Hxy. revert m. induction before as [| z before IH]; intros m; simpl.
  - unfold bind. by rewrite Hxy.
  - unfold bind. destruct (body z m) as [[r | e |] m1]; [| done | done].
    by rewrite IH.
Qed.

Lemma execute_send_alias alias canon target_id message kwargs before after a m :
  ATTACHMENT_TYPE_ALIASES !! alias = Some canon ->
  execute_send w target_id message
    (Many (before ++ OAttachment (with_type alias a) :: after)) kwargs m
  = execute_send w target_id message
      (Many (before ++ OAttachment (with_type canon a) :: after)) kwargs m.
Proof.
  intros H. unfold execute_send, async_with_lock.
  destruct (api_messages_lock (self m)) as [[|] |]; [done | | done].
  assert (send_under_lock w (py_str target_id) message
            (Many (before ++ OAttachment (with_type alias a) :: after)) kwargs (acquire m)
          = send_under_lock w (py_str target_id) message
              (Many (before ++ OAttachment (with_type canon a) :: after)) kwargs
              (acquire m)) as ->; [| done].
  unfold send_under_lock. apply bind_ext. intros sent m1.
  cbn [attachment_items]. rewrite !bind_lift_Ret. unfold bind.
  rewrite (collect_swap (send_attachment w (py_str target_id))
             (OAttachment (with_type alias a)) (OAttachment (with_type canon a)));
    [done |].
  intros m'. by apply send_attachment_alias.
Qed.

Lemma execute_send_routes target_id message kwargs a m :
  sendable a = true ->
  api_messages_lock (self m) = Some false ->
  truthy message = false ->
  exists data tail,
    history (execute_send w target_id message (Many [OAttachment a]) kwargs m).2
    = history m ++ [EvAcquire; EvPost (method_of a) data] ++ tail.
Proof.
  intros Hs Hlock Ht. rewrite (execute_send_run w _ _ _ _ _ Hlock).
  destruct (send_attachment_first_call (py_str target_id) a (acquire m) Hs)
    as (data & t1 & Ht1).
  assert (exists tail,
            history (send_under_lock w (py_str target_id) message (Many [OAttachment a])
                       kwargs (acquire m)).2
            = history (acquire m) ++ [EvPost (method_of a) data] ++ tail)
    as (tail & Htail).
  { unfold send_under_lock.
    rewrite (bind_Ret _ _ _ _ _ (send_text_skip w _ _ _ _ Ht)).
    cbn [attachment_items]. unfold lift. unfold bind at 1.
    apply first_event_bind; [intros more; apply em_ret |].
    cbn [collect]. apply first_event_bind; [| by exists t1].
    intros r. apply em_bind; [apply em_ret | intros rs; apply em_ret]. }
  exists data.
  destruct (send_under_lock w (py_str target_id) message (Many [OAttachment a]) kwargs
              (acquire m))
    as [[r | e |] m2]; cbn [snd] in *; unfold release; cbn [history];
    rewrite Htail; cbn [acquire history]; rewrite <- ?app_assoc; cbn [app];
    eauto.
Qed.

End Routing.

Lemma alias_entry_routes alias canon :
  ATTACHMENT_TYPE_ALIASES !! alias = Some canon ->
  routes_to alias (send_method_of canon) /\ routes_to canon (send_method_of canon).
Proof.
  intros H. destruct (resolve_alias_canonical alias canon H) as [Ha Hc].
  assert (is_supported canon = true) as Hsup.
  { apply alias_table in H as [[_ ->] | [_ ->]]; by vm_compute. }
  assert (forall type a, resolve_alias type = canon ->
            sendable (with_type type a) = true
            /\ method_of (with_type type a) = send_method_of canon) as Hroute.
  { intros type a Hty. unfold sendable, method_of. cbn [with_type Attachment.type].
    rewrite Hty, Hsup. split; [apply orb_true_r | done]. }
  split; intros w target_id message kwargs a m Hlock Ht.
  - destruct (Hroute alias a Ha) as [Hs Hm]. rewrite <- Hm.
    by apply execute_send_routes.
  - destruct (Hroute canon a Hc) as [Hs Hm]. rewrite <- Hm.
    by apply execute_send_routes.
Qed.

(** C9.  An alias and its canonical form are sent alike.  For every entry
    of the alias table, [execute_send] given an attachment declared with the
    alias calls the provider under the method named after the canonical type,
    as it does for the same attachment declared with the canonical type; the
    two sends do the same in every state, wherever the attachment stands in
    the list.  In particular an attachment of type "doc" or "document" is
    posted under "sendDocument", and one of type "image" or "photo" under
    "sendPhoto". *)
Theorem alias_routes_like_canonical :
  (forall alias canon,
      ATTACHMENT_TYPE_ALIASES !! alias = Some canon ->
      send_method_of (resolve_alias alias) = send_method_of (resolve_alias canon)
      /\ (routes_to alias (send_method_of canon)
          /\ routes_to canon (send_method_of canon))
      /\ (forall w chat_id a m,
             send_attachment w chat_id (OAttachment (with_type alias a)) m
             = send_attachment w chat_id (OAttachment (with_type canon a)) m)
      /\ (forall w target_id message kwargs before after a m,
             execute_send w target_id message
               (Many (before ++ OAttachment (with_type alias a) :: after)) kwargs m
             = execute_send w target_id message
                 (Many (before ++ OAttachment (with_type canon a) :: after)) kwargs m))
  /\ routes_to "doc" "sendDocument"
  /\ routes_to "document" "sendDocument"
  /\ routes_to "image" "sendPhoto"
  /\ routes_to "photo" "sendPhoto".
Proof.
  split.
  - intros alias canon H.
    destruct (resolve_alias_canonical alias canon H) as [Ha Hc].
    split; [by rewrite Ha, Hc |].
    split; [by apply alias_entry_routes |].
    split.
    + intros w chat_id a m. by apply send_attachment_alias.
    + intros w target_id message kwargs before after a m.
      by apply execute_send_alias.
  - destruct (alias_entry_routes "doc" "document" eq_refl) as [Hdoc Hdocument].
    destruct (alias_entry_routes "image" "photo" eq_refl) as [Himage Hphoto].
    split; [exact Hdoc |]. split; [exact Hdocument |].
    split; [exact Himage | exact Hphoto].
Qed.

Lemma alias_routes_like_canonical_witness :
  ATTACHMENT_TYPE_ALIASES !! "doc" = Some "document"
  /\ exists data tail,
       history (execute_send (polling_world None) (PInt 5) PNone
                  (Many [OAttachment (with_type "doc" (existing_attachment "doc" "BQAD"))])
                  [] (boot started_adapter)).2
       = [EvAcquire; EvPost "sendDocument" data] ++ tail.
Proof.
  split; [reflexivity |].
  destruct alias_routes_like_canonical as (Hall & _).
  destruct (Hall "doc" "document" eq_refl) as (_ & (Hdoc & _) & _).
  apply (Hdoc (polling_world None) (PInt 5) PNone [] (existing_attachment "doc" "BQAD")
           (boot started_adapter)); reflexivity.
Defined.
